(** * gloveapp: the GATT value codec and the log accumulator of glove.js

    A shallow embedding of the codec core ([readPresInfo], [readValue],
    [formatValue], [getUnitString]) and of the registry / log functions
    ([cacheValue], [updateVal], [onNotify], [updateLog], [printLog],
    [logStart], [logStop]) of [src/glove.js], together with the codec of
    the later revision [src/unnamed/part_000].

    The host objects the script relies on (Number, DataView, Map,
    [Number.prototype.toFixed], [console.log], timers) are modelled in
    module [JS] after ECMAScript; everything else follows the script line
    by line. *)

From Stdlib Require Import ZArith List String Ascii Strings.Byte Bool Lia.
From Stdlib Require Import Floats.SpecFloat.
From Stdlib Require Import DecimalString DecimalPos DecimalN.
Import ListNotations.
Open Scope Z_scope.

(** ** The host: ECMAScript values *)

Module JS.

(** *** Number: IEEE 754 binary64, one NaN *)

Definition Number : Type := spec_float.

Definition prec : Z := 53.
Definition emax : Z := 1024.

(** 𝔽(z) for a mathematical integer [z]: round to nearest, ties to even. *)
Definition of_Z (z : Z) : Number := binary_normalize prec emax z 0 false.

(** [Number::multiply]. *)
Definition mul (x y : Number) : Number := SFmul prec emax x y.

(** The representative of a Number among the binary64 values. *)
Definition normalize (x : Number) : Number :=
  match x with
  | S754_finite s m e => binary_round prec emax s m e
  | _ => x
  end.

Definition is_finite (x : Number) : bool :=
  match x with
  | S754_zero _ | S754_finite _ _ _ => true
  | _ => false
  end.

Definition is_negative (x : Number) : bool :=
  match x with
  | S754_finite s _ _ => s
  | _ => false
  end.

(** The magnitude of a finite Number as an exact fraction [(n, d)], [d > 0]. *)
Definition magnitude (x : Number) : Z * Z :=
  match x with
  | S754_finite _ m e =>
      if 0 <=? e then (Zpos m * 2 ^ e, 1) else (Zpos m, 2 ^ (- e))
  | _ => (0, 1)
  end.

(** 𝔽(s × 10^p) for a positive integer [s]. *)
Definition round_dec (s : positive) (p : Z) : Number :=
  if 0 <=? p then binary_normalize prec emax (Zpos s * 10 ^ p) 0 false
  else SFdiv prec emax (S754_finite false s 0)
                       (S754_finite false (Z.to_pos (10 ^ (- p))) 0).

Definition Number_eqb (x y : Number) : bool :=
  match x, y with
  | S754_finite s1 m1 e1, S754_finite s2 m2 e2 =>
      Bool.eqb s1 s2 && Pos.eqb m1 m2 && Z.eqb e1 e2
  | S754_zero _, S754_zero _ => true
  | S754_infinity s1, S754_infinity s2 => Bool.eqb s1 s2
  | _, _ => false
  end.

(** *** Strings *)

Local Open Scope string_scope.
Local Open Scope Z_scope.

Definition dquote : string := String (ascii_of_nat 34) EmptyString.
Definition newline : string := String (ascii_of_nat 10) EmptyString.

(** The decimal digits of a non-negative integer, no leading zero. *)
Definition digits (n : Z) : string :=
  NilEmpty.string_of_uint (N.to_uint (Z.to_N n)).

Fixpoint zeros (n : nat) : string :=
  match n with
  | O => EmptyString
  | S n' => String "0" (zeros n')
  end.

Definition slen (s : string) : Z := Z.of_nat (String.length s).

(** The first [n] characters and what follows them. *)
Fixpoint firstn_string (n : nat) (s : string) : string :=
  match n, s with
  | S n', String c r => String c (firstn_string n' r)
  | _, _ => EmptyString
  end.

Fixpoint skipn_string (n : nat) (s : string) : string :=
  match n, s with
  | S n', String c r => skipn_string n' r
  | _, _ => s
  end.

Definition take (n : Z) (s : string) : string := firstn_string (Z.to_nat n) s.
Definition drop (n : Z) (s : string) : string := skipn_string (Z.to_nat n) s.

(** [String.prototype.padStart(maxLength, fillString)] for a one-character
    [fillString]. *)
Definition padStart (s : string) (maxLength : Z) (fill : ascii) : string :=
  let fix fills (n : nat) : string :=
    match n with
    | O => EmptyString
    | S n' => String fill (fills n')
    end in
  fills (Z.to_nat (maxLength - slen s)) ++ s.

(** *** Number::toString, radix 10 *)

(** For [0 < n/d < 1]: how many zeros follow the decimal point. *)
Fixpoint lead_zeros (fuel : nat) (n d : Z) : Z :=
  match fuel with
  | O => 0
  | S fuel' => if d <=? n * 10 then 0 else 1 + lead_zeros fuel' (n * 10) d
  end.

(** The integer [e] with [10^(e-1) <= n/d < 10^e], for [n/d > 0]. *)
Definition dec_exponent (n d : Z) : Z :=
  if d <=? n then slen (digits (n / d))
  else - lead_zeros (Z.to_nat (Z.log2 d) + 1) n d.

(** [n/d / 10^p] as a fraction. *)
Definition scale10 (n d p : Z) : Z * Z :=
  if 0 <=? p then (n, d * 10 ^ p) else (n * 10 ^ (- p), d).

(** The [k]-digit candidates [(s, n)] next to [x = nx/dx], the nearer one
    first (of two equally near, the even one), with exponent [e] the decimal
    exponent of [x]. *)
Definition candidates (nx dx e k : Z) : list (Z * Z) :=
  let '(tn, td) := scale10 nx dx (e - k) in
  let lo := tn / td in
  let r := tn mod td in
  let hi := if lo + 1 =? 10 ^ k then (10 ^ (k - 1), e + 1) else (lo + 1, e) in
  if r =? 0 then [(lo, e)]
  else match 2 * r ?= td with
       | Lt => [(lo, e); hi]
       | Gt => [hi; (lo, e)]
       | Eq => if Z.even lo then [(lo, e); hi] else [hi; (lo, e)]
       end.

Definition round_trips (x : Number) (k : Z) (c : Z * Z) : bool :=
  let '(s, n) := c in
  (0 <? s) && Number_eqb (round_dec (Z.to_pos s) (n - k)) x.

(** The least number of digits [k], counting up from the given one, for
    which a [k]-digit [s] and an [n] give back [x] as 𝔽(s × 10^(n-k)); of
    several [s], the one nearest to [x]. *)
Fixpoint shortest (fuel : nat) (x : Number) (nx dx e k : Z) : Z * Z :=
  let cs := candidates nx dx e k in
  match fuel with
  | O => hd (0, 0) cs
  | S fuel' =>
      match find (round_trips x k) cs with
      | Some c => c
      | None => shortest fuel' x nx dx e (k + 1)
      end
  end.

Definition exp_sign (e : Z) : string := if e <? 0 then "-" else "+".

(** Steps 6 to 10 of Number::toString: lay out the digits [ds] of [s] with
    the decimal exponent [n]. *)
Definition layout (ds : string) (n : Z) : string :=
  let k := slen ds in
  if (k <=? n) && (n <=? 21) then ds ++ zeros (Z.to_nat (n - k))
  else if (0 <? n) && (n <=? 21) then take n ds ++ "." ++ drop n ds
  else if (-6 <? n) && (n <=? 0) then "0." ++ zeros (Z.to_nat (- n)) ++ ds
  else
    let e := n - 1 in
    if k =? 1 then ds ++ "e" ++ exp_sign e ++ digits (Z.abs e)
    else take 1 ds ++ "." ++ drop 1 ds ++ "e" ++ exp_sign e ++ digits (Z.abs e).

Definition Number_toString (x : Number) : string :=
  match normalize x with
  | S754_nan => "NaN"
  | S754_zero _ => "0"
  | S754_infinity s => if s then "-Infinity" else "Infinity"
  | S754_finite sg m e as y =>
      let '(nx, dx) := magnitude y in
      let ex := dec_exponent nx dx in
      let '(s, n) := shortest 17 (S754_finite false m e) nx dx ex 1 in
      (if sg then "-" else EmptyString) ++ layout (digits s) n
  end.

(** *** Number.prototype.toFixed *)

Inductive Error : Type :=
| RangeError
| TypeError
| ReferenceError.

(** A completion record: a value, or an abrupt completion that throws. *)
Inductive Completion (A : Type) : Type :=
| Normal (a : A)
| Throw (e : Error).
Arguments Normal {A} a.
Arguments Throw {A} e.

Definition ten21 : Z := 10 ^ 21.

(** The integer [n] for which [n / 10^f - x] is as close to zero as
    possible, the larger one of two. *)
Definition nearest_scaled (x : Number) (f : Z) : Z :=
  let '(nx, dx) := magnitude x in
  (2 * nx * 10 ^ f + dx) / (2 * dx).

Definition toFixed (x : Number) (fractionDigits : Z) : Completion string :=
  let f := fractionDigits in
  if (f <? 0) || (100 <? f) then Throw RangeError
  else if negb (is_finite x) then Normal (Number_toString x)
  else
    let s := if is_negative x then "-" else EmptyString in
    let '(nx, dx) := magnitude x in
    if ten21 * dx <=? nx then
      Normal (s ++ Number_toString (SFabs x))
    else
      let n := nearest_scaled x f in
      let m := if n =? 0 then "0" else digits n in
      let m :=
        if f =? 0 then m
        else
          let k := slen m in
          let m := if k <=? f then zeros (Z.to_nat (f + 1 - k)) ++ m else m in
          let k := if k <=? f then f + 1 else k in
          take (k - f) m ++ "." ++ drop (k - f) m in
      Normal (s ++ m).

(** *** Values *)

(** What a characteristic decodes to: a Boolean or a Number. *)
Inductive Decoded : Type :=
| DBool (b : bool)
| DNum (x : Number).

(** The values the script stores, prints and logs. *)
Inductive Value : Type :=
| VBool (b : bool)
| VNum (x : Number)
| VStr (s : string).

Definition inject (d : Decoded) : Value :=
  match d with
  | DBool b => VBool b
  | DNum x => VNum x
  end.

Definition ToNumber (d : Decoded) : Number :=
  match d with
  | DBool true => of_Z 1
  | DBool false => of_Z 0
  | DNum x => x
  end.

Definition ToString (v : Value) : string :=
  match v with
  | VBool true => "true"
  | VBool false => "false"
  | VNum x => Number_toString x
  | VStr s => s
  end.

(** *** console.log and completions *)

(** One call of [console.log]: its arguments. *)
Definition Message : Type := list Value.

(** A computation that may log and may throw: its completion and what it
    logged, oldest first. *)
Definition Out (A : Type) : Type := Completion A * list Message.

Definition ret {A} (a : A) : Out A := (Normal a, []).
Definition throw {A} (e : Error) : Out A := (Throw e, []).
Definition console_log (args : Message) : Out unit := (Normal tt, [args]).
Definition lift {A} (c : Completion A) : Out A := (c, []).

Definition bind {A B} (m : Out A) (k : A -> Out B) : Out B :=
  match m with
  | (Normal a, l1) => let '(r, l2) := k a in (r, (l1 ++ l2)%list)
  | (Throw e, l1) => (Throw e, l1)
  end.

Notation "x <- m ;; k" := (bind m (fun x => k))
  (at level 61, m at next level, right associativity).
Notation "m ;;; k" := (bind m (fun _ => k))
  (at level 61, right associativity).

(** *** DataView *)

Definition DataView : Type := list byte.

Definition byteLength (dv : DataView) : Z := Z.of_nat (List.length dv).

Definition byte_value (b : byte) : Z := Z.of_N (Byte.to_N b).

(** [ToBoolean] of the [littleEndian] argument; [None] is an argument left
    out, that is [undefined]. *)
Definition ToBoolean (a : option bool) : bool :=
  match a with
  | Some b => b
  | None => false
  end.

(** GetViewValue, up to the raw bytes: a RangeError past the end of the
    view, else the [size] bytes from [requestIndex] on. *)
Definition GetViewValue (dv : DataView) (requestIndex : Z) (size : Z)
  : Completion (list byte) :=
  if byteLength dv <? requestIndex + size then Throw RangeError
  else Normal (firstn (Z.to_nat size) (skipn (Z.to_nat requestIndex) dv)).

(** The bytes read as an unsigned little-endian binary number. *)
Fixpoint le_unsigned (bs : list byte) : Z :=
  match bs with
  | [] => 0
  | b :: rest => byte_value b + 256 * le_unsigned rest
  end.

(** RawBytesToNumeric for the integer types. *)
Definition RawBytesToInt (signed : bool) (size : Z) (rawBytes : list byte)
  (isLittleEndian : bool) : Z :=
  let rawBytes := if isLittleEndian then rawBytes else rev rawBytes in
  let intValue := le_unsigned rawBytes in
  if signed && (2 ^ (size * 8 - 1) <=? intValue)
  then intValue - 2 ^ (size * 8)
  else intValue.

(** The Number of an IEEE 754 binary32 bit pattern. *)
Definition binary32_value (bits : Z) : Number :=
  let sign := Z.testbit bits 31 in
  let e := Z.land (Z.shiftr bits 23) 255 in
  let m := Z.land bits (2 ^ 23 - 1) in
  if e =? 255 then
    if m =? 0 then S754_infinity sign else S754_nan
  else if e =? 0 then
    match m with
    | Zpos p => binary_round prec emax sign p (-149)
    | _ => S754_zero sign
    end
  else binary_round prec emax sign (Z.to_pos (m + 2 ^ 23)) (e - 150).

Definition RawBytesToFloat32 (rawBytes : list byte) (isLittleEndian : bool)
  : Number :=
  let rawBytes := if isLittleEndian then rawBytes else rev rawBytes in
  binary32_value (le_unsigned rawBytes).

Definition getInt (signed : bool) (size : Z) (dv : DataView) (byteOffset : Z)
  (littleEndian : option bool) : Completion Z :=
  match GetViewValue dv byteOffset size with
  | Normal raw => Normal (RawBytesToInt signed size raw (ToBoolean littleEndian))
  | Throw e => Throw e
  end.

Definition getUint16 := getInt false 2.
Definition getUint32 := getInt false 4.
Definition getInt16 := getInt true 2.
Definition getInt32 := getInt true 4.

(** [getUint8] and [getInt8] have no [littleEndian] parameter: whatever is
    passed in its place is ignored, and the byte is read as little-endian. *)
Definition getUint8 (dv : DataView) (byteOffset : Z) (ignored : option bool)
  : Completion Z :=
  getInt false 1 dv byteOffset (Some true).

Definition getInt8 (dv : DataView) (byteOffset : Z) (ignored : option bool)
  : Completion Z :=
  getInt true 1 dv byteOffset (Some true).

Definition getFloat32 (dv : DataView) (byteOffset : Z)
  (littleEndian : option bool) : Completion Number :=
  match GetViewValue dv byteOffset 4 with
  | Normal raw => Normal (RawBytesToFloat32 raw (ToBoolean littleEndian))
  | Throw e => Throw e
  end.

(** *** Date *)

(** A [Date], by the local-time fields the script reads. *)
Record Date : Type := {
  getFullYear : Z;
  getMonth : Z;
  getDate : Z;
  getHours : Z;
  getMinutes : Z;
  getSeconds : Z;
  getMilliseconds : Z
}.

(** *** Map: insertion-ordered, keys compared with SameValueZero *)

Section MapOps.
Context {K V : Type}.
Variable eqb : K -> K -> bool.

Definition Map : Type := list (K * V).

Fixpoint map_get (m : Map) (k : K) : option V :=
  match m with
  | [] => None
  | (k', v) :: rest => if eqb k' k then Some v else map_get rest k
  end.

Definition map_has (m : Map) (k : K) : bool :=
  match map_get m k with
  | Some _ => true
  | None => false
  end.

(** [Map.prototype.set]: an existing key keeps its place and takes the new
    value; a new key goes last. *)
Fixpoint map_set (m : Map) (k : K) (v : V) : Map :=
  match m with
  | [] => [(k, v)]
  | (k', v') :: rest =>
      if eqb k' k then (k', v) :: rest else (k', v') :: map_set rest k v
  end.

Definition map_clear (m : Map) : Map := [].
Definition map_size (m : Map) : Z := Z.of_nat (List.length m).
Definition map_keys (m : Map) : list K := List.map fst m.
End MapOps.
Arguments Map : clear implicits.

(** *** DataView.prototype.setUint8 *)

(** The integer part of a Number, zero for one that is not finite. *)
Definition truncate (x : Number) : Z :=
  match x with
  | S754_finite s m e =>
      let int :=
        if 0 <=? e then Z.pos m * 2 ^ e else Z.pos m / 2 ^ (- e) in
      if s then - int else int
  | _ => 0
  end.

Definition ToUint8 (x : Number) : Z := truncate x mod 2 ^ 8.

Definition uint8_byte (z : Z) : byte :=
  match Byte.of_N (Z.to_N z) with
  | Some b => b
  | None => x00
  end.

(** SetViewValue for Uint8: the value goes through [ToNumber] and
    [ToUint8]; a RangeError past the end of the view, else the view with
    the byte at [byteOffset] replaced. *)
Definition setUint8 (dv : DataView) (byteOffset : Z) (value : Decoded)
  : Completion DataView :=
  let numberValue := ToNumber value in
  if byteLength dv <? byteOffset + 1 then Throw RangeError
  else Normal (firstn (Z.to_nat byteOffset) dv
               ++ [uint8_byte (ToUint8 numberValue)]
               ++ skipn (S (Z.to_nat byteOffset)) dv)%list.

End JS.

(** ** src/glove.js *)

Module Glove.
Import JS.
Local Open Scope string_scope.
Local Open Scope Z_scope.

Definition IS_LITTLE_ENDIAN : bool := true.
Definition PRES_DESCRIPTOR_LENGTH : Z := 7.

Definition BLE_FORMAT_BOOLEAN : Z := 0x01.
Definition BLE_FORMAT_UINT8 : Z := 0x04.
Definition BLE_FORMAT_UINT16 : Z := 0x06.
Definition BLE_FORMAT_UINT32 : Z := 0x08.
Definition BLE_FORMAT_SINT8 : Z := 0x0C.
Definition BLE_FORMAT_SINT16 : Z := 0x0E.
Definition BLE_FORMAT_SINT32 : Z := 0x10.
Definition BLE_FORMAT_FLOAT32 : Z := 0x14.

Definition BLE_UNITS : Map Z string :=
  [ (0x2700, EmptyString);
    (0x2713, "m/s2");
    (0x2720, "rad");
    (0x2724, "Pa");
    (0x2728, "V");
    (0x272D, "uT");
    (0x272F, "Â°C");
    (0x2743, "rad/s");
    (0x27AD, "%");
    (0x27C4, "ppm");
    (0x27C5, "ppb") ].

(** The presentation descriptor once read.  The three fields are
    integer-valued Numbers (a Uint8, an Int8, a Uint16) and are kept as the
    integers they denote. *)
Record PresInfo : Type := {
  format : Z;
  exponent : Z;
  unit : Z
}.

(** What the registry keeps of a characteristic. *)
Record CharacteristicInfo : Type := {
  name : string;
  serviceName : string;
  lastEntry : Value
}.

(** A [characteristic.readValue()] still under way, with what its callback
    has captured. *)
Record PendingRead : Type := {
  p_uuid : string;
  p_name : string;
  p_serviceName : string;
  p_presInfo : PresInfo
}.

(** The globals of the script and the parts of the host it writes to.  Of
    the document only the value cells are kept ([id], [innerHTML]), in
    document order; the buttons and the status box, which the script never
    reads back, are left out. *)
Record State : Type := {
  presInfoCache : Map string PresInfo;
  characteristicList : Map string CharacteristicInfo;
  log : Map string (Map string Value);
  logTimer : option nat;
  intervals : list nat;
  nextTimer : nat;
  cells : Map string string;
  console : list Message;
  downloads : list string;
  pending : list PendingRead
}.

Definition initial : State := {|
  presInfoCache := [];
  characteristicList := [];
  log := [];
  logTimer := None;
  intervals := [];
  nextTimer := 0;
  cells := [];
  console := [];
  downloads := [];
  pending := []
|}.

Definition set_presInfoCache (f : Map string PresInfo -> Map string PresInfo)
  (st : State) : State :=
  {| presInfoCache := f (presInfoCache st);
     characteristicList := characteristicList st; log := log st;
     logTimer := logTimer st; intervals := intervals st;
     nextTimer := nextTimer st; cells := cells st; console := console st;
     downloads := downloads st; pending := pending st |}.

Definition set_characteristicList
  (f : Map string CharacteristicInfo -> Map string CharacteristicInfo)
  (st : State) : State :=
  {| presInfoCache := presInfoCache st;
     characteristicList := f (characteristicList st); log := log st;
     logTimer := logTimer st; intervals := intervals st;
     nextTimer := nextTimer st; cells := cells st; console := console st;
     downloads := downloads st; pending := pending st |}.

Definition set_log
  (f : Map string (Map string Value) -> Map string (Map string Value))
  (st : State) : State :=
  {| presInfoCache := presInfoCache st;
     characteristicList := characteristicList st; log := f (log st);
     logTimer := logTimer st; intervals := intervals st;
     nextTimer := nextTimer st; cells := cells st; console := console st;
     downloads := downloads st; pending := pending st |}.

Definition set_timers (t : option nat) (f : list nat -> list nat)
  (n : nat) (st : State) : State :=
  {| presInfoCache := presInfoCache st;
     characteristicList := characteristicList st; log := log st;
     logTimer := t; intervals := f (intervals st);
     nextTimer := n; cells := cells st; console := console st;
     downloads := downloads st; pending := pending st |}.

Definition set_cells (f : Map string string -> Map string string)
  (st : State) : State :=
  {| presInfoCache := presInfoCache st;
     characteristicList := characteristicList st; log := log st;
     logTimer := logTimer st; intervals := intervals st;
     nextTimer := nextTimer st; cells := f (cells st); console := console st;
     downloads := downloads st; pending := pending st |}.

Definition set_console (f : list Message -> list Message)
  (st : State) : State :=
  {| presInfoCache := presInfoCache st;
     characteristicList := characteristicList st; log := log st;
     logTimer := logTimer st; intervals := intervals st;
     nextTimer := nextTimer st; cells := cells st; console := f (console st);
     downloads := downloads st; pending := pending st |}.

Definition set_downloads (f : list string -> list string)
  (st : State) : State :=
  {| presInfoCache := presInfoCache st;
     characteristicList := characteristicList st; log := log st;
     logTimer := logTimer st; intervals := intervals st;
     nextTimer := nextTimer st; cells := cells st; console := console st;
     downloads := f (downloads st); pending := pending st |}.

Definition set_pending (f : list PendingRead -> list PendingRead)
  (st : State) : State :=
  {| presInfoCache := presInfoCache st;
     characteristicList := characteristicList st; log := log st;
     logTimer := logTimer st; intervals := intervals st;
     nextTimer := nextTimer st; cells := cells st; console := console st;
     downloads := downloads st; pending := f (pending st) |}.

(** A function of the script run on the globals: its completion and the
    globals it leaves, which a throw does not roll back. *)
Definition M (A : Type) : Type := State -> Completion A * State.

Definition retM {A} (a : A) : M A := fun st => (Normal a, st).
Definition throwM {A} (e : Error) : M A := fun st => (Throw e, st).
Definition bindM {A B} (m : M A) (k : A -> M B) : M B :=
  fun st =>
    match m st with
    | (Normal a, st') => k a st'
    | (Throw e, st') => (Throw e, st')
    end.
Definition gets {A} (f : State -> A) : M A := fun st => (Normal (f st), st).
Definition modify (f : State -> State) : M Datatypes.unit := fun st => (Normal tt, f st).
Definition liftOut {A} (o : Out A) : M A :=
  fun st => (fst o, set_console (fun c => (c ++ snd o)%list) st).
Definition liftC {A} (c : Completion A) : M A := fun st => (c, st).

Notation "x <~ m ;; k" := (bindM m (fun x => k))
  (at level 61, m at next level, right associativity).
Notation "m ~;; k" := (bindM m (fun _ => k))
  (at level 61, right associativity).

Section Script.
(** [Number::exponentiate], which ECMAScript leaves
    implementation-approximated: the script is read for any host. *)
Variable exponentiate : Number -> Number -> Number.

Definition readPresInfo (dataView : DataView) : Out (option PresInfo) :=
  if byteLength dataView <? PRES_DESCRIPTOR_LENGTH then
    console_log
      [VStr "Characteristic presentation descriptor received was in invalid format"] ;;;
    ret None
  else
    f <- lift (getUint8 dataView 0 (Some IS_LITTLE_ENDIAN)) ;;
    e <- lift (getInt8 dataView 1 (Some IS_LITTLE_ENDIAN)) ;;
    u <- lift (getUint16 dataView 2 (Some IS_LITTLE_ENDIAN)) ;;
    ret (Some {| format := f; exponent := e; unit := u |}).

Definition number_of (c : Completion Z) : Completion Decoded :=
  match c with
  | Normal z => Normal (DNum (of_Z z))
  | Throw e => Throw e
  end.

(** The [switch] of [readValue]: the length and the decode function of a
    format, [None] for the [default] case. *)
Definition decoderOf (fmt : Z)
  : option (Z * (DataView -> Completion Decoded)) :=
  if fmt =? BLE_FORMAT_BOOLEAN then
    Some (1, fun x =>
      match getUint8 x 0 (Some IS_LITTLE_ENDIAN) with
      | Normal b => Normal (DBool (negb (b =? 0)))
      | Throw e => Throw e
      end)
  else if fmt =? BLE_FORMAT_UINT8 then
    Some (1, fun x => number_of (getUint8 x 0 (Some IS_LITTLE_ENDIAN)))
  else if fmt =? BLE_FORMAT_UINT16 then
    Some (2, fun x => number_of (getUint16 x 0 (Some IS_LITTLE_ENDIAN)))
  else if fmt =? BLE_FORMAT_UINT32 then
    Some (4, fun x => number_of (getUint32 x 0 (Some IS_LITTLE_ENDIAN)))
  else if fmt =? BLE_FORMAT_SINT8 then
    Some (1, fun x => number_of (getInt8 x 0 (Some IS_LITTLE_ENDIAN)))
  else if fmt =? BLE_FORMAT_SINT16 then
    Some (2, fun x => number_of (getInt16 x 0 (Some IS_LITTLE_ENDIAN)))
  else if fmt =? BLE_FORMAT_SINT32 then
    Some (4, fun x => number_of (getInt32 x 0 (Some IS_LITTLE_ENDIAN)))
  else if fmt =? BLE_FORMAT_FLOAT32 then
    Some (4, fun x =>
      match getFloat32 x 0 (Some IS_LITTLE_ENDIAN) with
      | Normal v => Normal (DNum v)
      | Throw e => Throw e
      end)
  else None.

Definition readValue (dataView : DataView) (presInfo : PresInfo)
  : Out Decoded :=
  match decoderOf (format presInfo) with
  | None => ret (DNum (of_Z 0))
  | Some (length, decodeFunc) =>
      if byteLength dataView <? length then
        console_log
          [VStr "Characteristic value length does not match format specified in client presentation descriptor"] ;;;
        ret (DNum (of_Z 0))
      else
        rawVal <- lift (decodeFunc dataView) ;;
        if format presInfo =? BLE_FORMAT_BOOLEAN then ret rawVal
        else
          let scaleFactor := exponentiate (of_Z 10) (of_Z (exponent presInfo)) in
          ret (DNum (mul (ToNumber rawVal) scaleFactor))
  end.

Definition formatValue (val : Decoded) (presInfo : PresInfo)
  : Completion Value :=
  if format presInfo =? BLE_FORMAT_BOOLEAN then Normal (inject val)
  else
    let numDecimals := - exponent presInfo in
    let numDecimals :=
      if numDecimals <? 0 then 0
      else if 100 <? numDecimals then 100
      else numDecimals in
    match val with
    | DNum x =>
        match toFixed x numDecimals with
        | Normal s => Normal (VStr s)
        | Throw e => Throw e
        end
    | DBool _ => Throw TypeError
    end.

Definition getUnitString (presInfo : PresInfo) : Out string :=
  match map_get Z.eqb BLE_UNITS (unit presInfo) with
  | Some label => ret label
  | None =>
      console_log [VStr ("Unknown BLE unit definition " ++ dquote);
                   VNum (of_Z (unit presInfo));
                   VStr dquote] ;;;
      ret EmptyString
  end.

Definition cacheValue (characteristicUuid : string) (valStr : Value)
  : M Datatypes.unit :=
  modify (fun st =>
    match map_get String.eqb (characteristicList st) characteristicUuid with
    | Some characteristicInfo =>
        set_characteristicList (fun m =>
          map_set String.eqb m characteristicUuid
            {| name := name characteristicInfo;
               serviceName := serviceName characteristicInfo;
               lastEntry := valStr |}) st
    | None => st
    end).

(** In the branch without a cell the script names [uuid], which is bound
    nowhere: evaluating the arguments of [console.log] throws. *)
Definition updateVal (characteristicUuid : string) (dataView : DataView)
  (presInfo : PresInfo) : M Datatypes.unit :=
  valCell <~ gets (fun st => map_get String.eqb (cells st) characteristicUuid) ;;
  match valCell with
  | None => throwM ReferenceError
  | Some _ =>
      val <~ liftOut (readValue dataView presInfo) ;;
      val <~ liftC (formatValue val presInfo) ;;
      cacheValue characteristicUuid val ~;;
      u <~ liftOut (getUnitString presInfo) ;;
      modify (set_cells (fun c =>
        map_set String.eqb c characteristicUuid (ToString val ++ " " ++ u)))
  end.

Definition onNotify (uuid : string) (value : DataView) : M Datatypes.unit :=
  cached <~ gets (fun st => map_get String.eqb (presInfoCache st) uuid) ;;
  match cached with
  | None =>
      liftOut (console_log
        [VStr ("Presentation info descriptor not recorded for UUID " ++ dquote);
         VStr uuid; VStr dquote])
  | Some presInfo => updateVal uuid value presInfo
  end.

(** The value cell, kept under its id: [document.getElementById] is all
    the script asks of the document afterwards.  The row, the name cell, the
    table of the service the row goes into, and with them the order of the
    cells in the page, are left out. *)
Definition showCharacteristic (uuid characteristicName : string) : M Datatypes.unit :=
  modify (set_cells (fun c => (c ++ [(uuid, "No data")])%list)).

(** [initCharacteristics], the callback on the presentation descriptor:
    only a descriptor that decodes is cached and has its value read. *)
Definition onPresDescriptor (uuid characteristicName serviceName : string)
  (presDataView : DataView) : M Datatypes.unit :=
  presInfo <~ liftOut (readPresInfo presDataView) ;;
  match presInfo with
  | Some presInfo =>
      modify (set_presInfoCache (fun m => map_set String.eqb m uuid presInfo)) ~;;
      modify (set_pending (fun l =>
        (l ++ [{| p_uuid := uuid; p_name := characteristicName;
                  p_serviceName := serviceName; p_presInfo := presInfo |}])%list))
  | None => retM tt
  end.

(** [initCharacteristics], the callback on the value read. *)
Definition onValueRead (r : PendingRead) (valDataView : DataView) : M Datatypes.unit :=
  let characteristicInfo :=
    {| name := p_name r; serviceName := p_serviceName r;
       lastEntry := VStr EmptyString |} in
  modify (set_characteristicList (fun m =>
    map_set String.eqb m (p_uuid r) characteristicInfo)) ~;;
  showCharacteristic (p_uuid r) (p_name r) ~;;
  updateVal (p_uuid r) valDataView (p_presInfo r) ~;;
  liftOut (console_log
    [VStr ("Started notifications for UUID " ++ dquote);
     VStr (p_uuid r); VStr dquote]).

Definition doPad (num : Z) : string :=
  padStart (ToString (VNum (of_Z num))) 2 "0".

Definition printTimestamp (timestamp : Date) : string :=
  let str := ToString (VNum (of_Z (getFullYear timestamp))) ++ "/" in
  let str := str ++ doPad (getMonth timestamp + 1) ++ "/" in
  let str := str ++ doPad (getDate timestamp) ++ " " in
  let str := str ++ doPad (getHours timestamp) ++ ":" in
  let str := str ++ doPad (getMinutes timestamp) ++ ":" in
  let str := str ++ doPad (getSeconds timestamp) in
  str.

(** The row [updateLog] builds: every characteristic of the registry, in
    the order [forEach] visits them, with its last entry. *)
Definition snapshot (cl : Map string CharacteristicInfo) : Map string Value :=
  fold_left (fun logEntry '(uuid, characteristicInfo) =>
               map_set String.eqb logEntry uuid (lastEntry characteristicInfo))
            cl [].

Definition updateLog (now : Date) : M Datatypes.unit :=
  logEntry <~ gets (fun st => snapshot (characteristicList st)) ;;
  let timestamp := printTimestamp now in
  modify (set_log (fun l => map_set String.eqb l timestamp logEntry)).

(** The first [forEach] of [printLog], on the three header lines. *)
Fixpoint printHeader (cache : Map string PresInfo)
  (cl : Map string CharacteristicInfo) (acc : string * string * string)
  : Out (string * string * string) :=
  match cl with
  | [] => ret acc
  | (uuid, characteristicInfo) :: rest =>
      let '(csv, line2, line3) := acc in
      let csv := csv ++ serviceName characteristicInfo ++ "," in
      let line2 := line2 ++ name characteristicInfo ++ "," in
      line3 <- match map_get String.eqb cache uuid with
               | Some presInfo =>
                   u <- getUnitString presInfo ;; ret (line3 ++ u)
               | None => ret line3
               end ;;
      let line3 := line3 ++ "," in
      printHeader cache rest (csv, line2, line3)
  end.

(** The inner [forEach] of [printLog], on one row. *)
Definition printRow (cl : Map string CharacteristicInfo)
  (logEntry : Map string Value) (csv : string) : string :=
  fold_left (fun csv '(uuid, _) =>
               let csv := match map_get String.eqb logEntry uuid with
                          | Some v => csv ++ ToString v
                          | None => csv
                          end in
               csv ++ ",")
            cl csv.

Definition printLog : M string :=
  fun st =>
    liftOut (
      h <- printHeader (presInfoCache st) (characteristicList st)
             ("Timestamp,", ",", ",") ;;
      let '(csv, line2, line3) := h in
      let csv := csv ++ newline ++ line2 ++ newline ++ line3 in
      let csv :=
        fold_left (fun csv '(timestamp, logEntry) =>
                     let csv := csv ++ newline ++ timestamp ++ "," in
                     printRow (characteristicList st) logEntry csv)
                  (log st) csv in
      let csv := csv ++ newline in
      ret csv) st.

Definition saveLog (logstr : string) : M Datatypes.unit :=
  modify (set_downloads (fun d => (d ++ [logstr])%list)).

(** [setInterval] hands out a fresh identifier and keeps the interval
    running; [clearInterval] ends the interval of that identifier, if any. *)
Definition setInterval : M nat :=
  fun st =>
    (Normal (nextTimer st),
     set_timers (logTimer st) (fun l => (l ++ [nextTimer st])%list)
                (S (nextTimer st)) st).

Definition clearInterval (t : option nat) : M Datatypes.unit :=
  modify (fun st =>
    match t with
    | Some id =>
        set_timers (logTimer st)
          (filter (fun i => negb (Nat.eqb i id))) (nextTimer st) st
    | None => st
    end).

Definition logStart : M Datatypes.unit :=
  modify (set_log (map_clear (K := string) (V := Map string Value))) ~;;
  id <~ setInterval ;;
  modify (fun st => set_timers (Some id) (fun l => l) (nextTimer st) st).

Definition logStop : M Datatypes.unit :=
  t <~ gets logTimer ;;
  clearInterval t ~;;
  size <~ gets (fun st => map_size (log st)) ;;
  if 0 <? size then
    logstr <~ printLog ;;
    saveLog logstr
  else retM tt.

(** [bluetoothConnect] once its two guards have passed, up to the request
    for a device. *)
Definition bluetoothConnect : M Datatypes.unit :=
  modify (set_presInfoCache (map_clear (K := string) (V := PresInfo))) ~;;
  modify (set_characteristicList
            (map_clear (K := string) (V := CharacteristicInfo))) ~;;
  liftOut (console_log [VStr "Opening Bluetooth connection..."]).

Definition onDisconnect (deviceName : string) : M Datatypes.unit :=
  liftOut (console_log [VStr "Disconnected from: "; VStr deviceName]) ~;;
  modify (set_cells (fun _ => [])) ~;;
  logStop.

(** What the page reacts to. *)
Inductive Event : Type :=
| PresDescriptorRead (uuid characteristicName serviceName : string)
                     (presDataView : DataView)
| ValueRead (i : nat) (valDataView : DataView)
| Notification (uuid : string) (value : DataView)
| Tick (timer : nat) (now : Date)
| StartClicked
| StopClicked
| Connecting
| Disconnected (deviceName : string).

(** One turn of the event loop: the handler of the event runs to its end
    or to its throw. *)
Definition handler (ev : Event) : M Datatypes.unit :=
  match ev with
  | PresDescriptorRead uuid n sn dv => onPresDescriptor uuid n sn dv
  | ValueRead i dv =>
      p <~ gets pending ;;
      match nth_error p i with
      | Some r =>
          modify (set_pending (fun l => (firstn i l ++ skipn (S i) l)%list)) ~;;
          onValueRead r dv
      | None => retM tt
      end
  | Notification uuid dv => onNotify uuid dv
  | Tick t now =>
      running <~ gets intervals ;;
      if existsb (Nat.eqb t) running then updateLog now else retM tt
  | StartClicked => logStart
  | StopClicked => logStop
  | Connecting => bluetoothConnect
  | Disconnected deviceName => onDisconnect deviceName
  end.

Definition step (st : State) (ev : Event) : State := snd (handler ev st).

Definition run (st : State) (evs : list Event) : State := fold_left step evs st.

End Script.

End Glove.

(** ** src/unnamed/part_000: the codec and the log accumulator of the later
       revision *)

Module Part000.
Import JS.
Local Open Scope string_scope.
Local Open Scope Z_scope.

Definition IS_LITTLE_ENDIAN : bool := true.
Definition PRES_DESCRIPTOR_LENGTH : Z := 7.

Definition BLE_FORMAT_BOOLEAN : Z := 0x01.
Definition BLE_FORMAT_UINT8 : Z := 0x04.
Definition BLE_FORMAT_UINT16 : Z := 0x06.
Definition BLE_FORMAT_UINT32 : Z := 0x08.
Definition BLE_FORMAT_SINT8 : Z := 0x0C.
Definition BLE_FORMAT_SINT16 : Z := 0x0E.
Definition BLE_FORMAT_SINT32 : Z := 0x10.
Definition BLE_FORMAT_FLOAT32 : Z := 0x14.

Definition BLE_UNITS : Map Z string :=
  [ (0x2700, EmptyString);
    (0x2713, "m/s2");
    (0x2720, "rad");
    (0x2724, "Pa");
    (0x2728, "V");
    (0x272D, "uT");
    (0x272F, "Â°C");
    (0x2743, "rad/s");
    (0x27AD, "%");
    (0x27C4, "ppm");
    (0x27C5, "ppb") ].

(** The object [readPresInfo] builds has the fields of the one of
    glove.js. *)
Definition PresInfo : Type := Glove.PresInfo.
Definition format := Glove.format.
Definition exponent := Glove.exponent.
Definition unit := Glove.unit.

Section Codec.
Variable exponentiate : Number -> Number -> Number.

(** The single-byte reads leave the [littleEndian] argument out. *)
Definition readPresInfo (dataView : DataView) : Out (option PresInfo) :=
  if byteLength dataView <? PRES_DESCRIPTOR_LENGTH then
    console_log
      [VStr "Characteristic presentation descriptor received was in invalid format"] ;;;
    ret None
  else
    f <- lift (getUint8 dataView 0 None) ;;
    e <- lift (getInt8 dataView 1 None) ;;
    u <- lift (getUint16 dataView 2 (Some IS_LITTLE_ENDIAN)) ;;
    ret (Some {| Glove.format := f; Glove.exponent := e; Glove.unit := u |}).

Definition number_of (c : Completion Z) : Completion Decoded :=
  match c with
  | Normal z => Normal (DNum (of_Z z))
  | Throw e => Throw e
  end.

Definition decoderOf (fmt : Z)
  : option (Z * (DataView -> Completion Decoded)) :=
  if fmt =? BLE_FORMAT_BOOLEAN then
    Some (1, fun x =>
      match getUint8 x 0 None with
      | Normal b => Normal (DBool (negb (b =? 0)))
      | Throw e => Throw e
      end)
  else if fmt =? BLE_FORMAT_UINT8 then
    Some (1, fun x => number_of (getUint8 x 0 None))
  else if fmt =? BLE_FORMAT_UINT16 then
    Some (2, fun x => number_of (getUint16 x 0 (Some IS_LITTLE_ENDIAN)))
  else if fmt =? BLE_FORMAT_UINT32 then
    Some (4, fun x => number_of (getUint32 x 0 (Some IS_LITTLE_ENDIAN)))
  else if fmt =? BLE_FORMAT_SINT8 then
    Some (1, fun x => number_of (getInt8 x 0 None))
  else if fmt =? BLE_FORMAT_SINT16 then
    Some (2, fun x => number_of (getInt16 x 0 (Some IS_LITTLE_ENDIAN)))
  else if fmt =? BLE_FORMAT_SINT32 then
    Some (4, fun x => number_of (getInt32 x 0 (Some IS_LITTLE_ENDIAN)))
  else if fmt =? BLE_FORMAT_FLOAT32 then
    Some (4, fun x =>
      match getFloat32 x 0 (Some IS_LITTLE_ENDIAN) with
      | Normal v => Normal (DNum v)
      | Throw e => Throw e
      end)
  else None.

Definition readValue (dataView : DataView) (presInfo : PresInfo)
  : Out Decoded :=
  match decoderOf (format presInfo) with
  | None => ret (DNum (of_Z 0))
  | Some (length, decodeFunc) =>
      if byteLength dataView <? length then
        console_log
          [VStr "Characteristic value length does not match format specified in client presentation descriptor"] ;;;
        ret (DNum (of_Z 0))
      else
        rawVal <- lift (decodeFunc dataView) ;;
        if format presInfo =? BLE_FORMAT_BOOLEAN then ret rawVal
        else
          let scaleFactor := exponentiate (of_Z 10) (of_Z (exponent presInfo)) in
          ret (DNum (mul (ToNumber rawVal) scaleFactor))
  end.
End Codec.

Definition formatValue (val : Decoded) (presInfo : PresInfo)
  : Completion Value :=
  if format presInfo =? BLE_FORMAT_BOOLEAN then Normal (inject val)
  else
    let numDecimals := - exponent presInfo in
    let numDecimals :=
      if numDecimals <? 0 then 0
      else if 100 <? numDecimals then 100
      else numDecimals in
    match val with
    | DNum x =>
        match toFixed x numDecimals with
        | Normal s => Normal (VStr s)
        | Throw e => Throw e
        end
    | DBool _ => Throw TypeError
    end.

Definition getUnitString (presInfo : PresInfo) : Out string :=
  match map_get Z.eqb BLE_UNITS (unit presInfo) with
  | Some label => ret label
  | None =>
      console_log [VStr ("Unknown BLE unit definition " ++ dquote);
                   VNum (of_Z (unit presInfo));
                   VStr dquote] ;;;
      ret EmptyString
  end.

(** *** The log accumulator of the later revision *)

(** The registry record now carries the presentation. *)
Record CharacteristicInfo : Type := {
  name : string;
  serviceName : string;
  presInfo : PresInfo;
  lastEntry : Value
}.

(** The globals the accumulator works on, and its console, timers and
    downloads. *)
Record State : Type := {
  readCharacteristicList : Map string CharacteristicInfo;
  log : Map string (Map string Value);
  logTimer : option nat;
  intervals : list nat;
  nextTimer : nat;
  console : list Message;
  downloads : list string
}.

Definition cacheValue (characteristicUuid : string) (valStr : Value)
  (st : State) : State :=
  match map_get String.eqb (readCharacteristicList st) characteristicUuid with
  | Some characteristicInfo =>
      {| readCharacteristicList :=
           map_set String.eqb (readCharacteristicList st) characteristicUuid
             {| name := name characteristicInfo;
                serviceName := serviceName characteristicInfo;
                presInfo := presInfo characteristicInfo;
                lastEntry := valStr |};
         log := log st; logTimer := logTimer st; intervals := intervals st;
         nextTimer := nextTimer st; console := console st;
         downloads := downloads st |}
  | None => st
  end.

Definition doPad (num : Z) : string :=
  padStart (ToString (VNum (of_Z num))) 2 "0".

Definition printTimestamp (timestamp : Date) : string :=
  let str := ToString (VNum (of_Z (getFullYear timestamp))) ++ "/" in
  let str := str ++ doPad (getMonth timestamp + 1) ++ "/" in
  let str := str ++ doPad (getDate timestamp) ++ " " in
  let str := str ++ doPad (getHours timestamp) ++ ":" in
  let str := str ++ doPad (getMinutes timestamp) ++ ":" in
  let str := str ++ doPad (getSeconds timestamp) in
  str.

Definition snapshot (cl : Map string CharacteristicInfo) : Map string Value :=
  fold_left (fun logEntry '(uuid, characteristicInfo) =>
               map_set String.eqb logEntry uuid (lastEntry characteristicInfo))
            cl [].

Definition updateLog (now : Date) (st : State) : State :=
  let logEntry := snapshot (readCharacteristicList st) in
  let timestamp := printTimestamp now in
  {| readCharacteristicList := readCharacteristicList st;
     log := map_set String.eqb (log st) timestamp logEntry;
     logTimer := logTimer st; intervals := intervals st;
     nextTimer := nextTimer st; console := console st;
     downloads := downloads st |}.

(** The first [forEach] of [printLog]: the unit of a column is looked up
    in the registry itself. *)
Fixpoint printHeader (registry cl : Map string CharacteristicInfo)
  (acc : string * string * string) : Out (string * string * string) :=
  match cl with
  | [] => ret acc
  | (uuid, characteristicInfo) :: rest =>
      let '(csv, line2, line3) := acc in
      let csv := csv ++ serviceName characteristicInfo ++ "," in
      let line2 := line2 ++ name characteristicInfo ++ "," in
      line3 <- match map_get String.eqb registry uuid with
               | Some charInfo =>
                   u <- getUnitString (presInfo charInfo) ;; ret (line3 ++ u)
               | None => ret line3
               end ;;
      let line3 := line3 ++ "," in
      printHeader registry rest (csv, line2, line3)
  end.

Definition printRow (cl : Map string CharacteristicInfo)
  (logEntry : Map string Value) (csv : string) : string :=
  fold_left (fun csv '(uuid, _) =>
               let csv := match map_get String.eqb logEntry uuid with
                          | Some v => csv ++ ToString v
                          | None => csv
                          end in
               csv ++ ",")
            cl csv.

Definition printLog (st : State) : Out string :=
  h <- printHeader (readCharacteristicList st) (readCharacteristicList st)
         ("Timestamp,", ",", ",") ;;
  let '(csv, line2, line3) := h in
  let csv := csv ++ newline ++ line2 ++ newline ++ line3 in
  let csv :=
    fold_left (fun csv '(timestamp, logEntry) =>
                 let csv := csv ++ newline ++ timestamp ++ "," in
                 printRow (readCharacteristicList st) logEntry csv)
              (log st) csv in
  let csv := csv ++ newline in
  ret csv.

Definition logStart (st : State) : State :=
  {| readCharacteristicList := readCharacteristicList st;
     log := map_clear (log st);
     logTimer := Some (nextTimer st);
     intervals := (intervals st ++ [nextTimer st])%list;
     nextTimer := S (nextTimer st); console := console st;
     downloads := downloads st |}.

Definition clearInterval (t : option nat) (l : list nat) : list nat :=
  match t with
  | Some id => filter (fun i => negb (Nat.eqb i id)) l
  | None => l
  end.

(** A [printLog] that threw would leave the stop without an export: it
    never does, see [printLog_export_later]. *)
Definition logStop (st : State) : State :=
  let running := clearInterval (logTimer st) (intervals st) in
  if 0 <? map_size (log st) then
    match printLog st with
    | (Normal logstr, msgs) =>
        {| readCharacteristicList := readCharacteristicList st;
           log := log st; logTimer := logTimer st; intervals := running;
           nextTimer := nextTimer st;
           console := (console st ++ msgs)%list;
           downloads := (downloads st ++ [logstr])%list |}
    | (Throw _, msgs) =>
        {| readCharacteristicList := readCharacteristicList st;
           log := log st; logTimer := logTimer st; intervals := running;
           nextTimer := nextTimer st;
           console := (console st ++ msgs)%list;
           downloads := downloads st |}
    end
  else
    {| readCharacteristicList := readCharacteristicList st;
       log := log st; logTimer := logTimer st; intervals := running;
       nextTimer := nextTimer st; console := console st;
       downloads := downloads st |}.

(** [onClick], the callback on the value read from a write characteristic:
    the bytes handed to [writeValueWithoutResponse], if any.  [!val] is true
    for a [val] of zero only. *)
Definition onClickValueRead (dataView : DataView) : Out (option DataView) :=
  if 1 <=? byteLength dataView then
    val <- lift (getUint8 dataView 0 None) ;;
    written <- lift (setUint8 dataView 0 (DBool (val =? 0))) ;;
    ret (Some written)
  else ret None.

End Part000.

(** ** The words of the specification *)

Module Spec.
Import JS.
Local Open Scope string_scope.
Local Open Scope Z_scope.

(** The closed enumeration of the formats the codec handles. *)
Inductive Format : Type :=
| Boolean | UInt8 | UInt16 | UInt32 | SInt8 | SInt16 | SInt32 | Float32.

(** The GATT format code of each. *)
Definition code (f : Format) : Z :=
  match f with
  | Boolean => 0x01
  | UInt8 => 0x04
  | UInt16 => 0x06
  | UInt32 => 0x08
  | SInt8 => 0x0C
  | SInt16 => 0x0E
  | SInt32 => 0x10
  | Float32 => 0x14
  end.

Definition supported (c : Z) : bool :=
  existsb (fun f => code f =? c)
          [Boolean; UInt8; UInt16; UInt32; SInt8; SInt16; SInt32; Float32].

(** Boolean, UInt8, SInt8: 1 byte; UInt16, SInt16: 2 bytes; UInt32, SInt32,
    Float32: 4 bytes. *)
Definition required_length (f : Format) : Z :=
  match f with
  | Boolean | UInt8 | SInt8 => 1
  | UInt16 | SInt16 => 2
  | UInt32 | SInt32 | Float32 => 4
  end.

Definition byte_at (bs : list byte) (i : nat) : Z := byte_value (nth i bs x00).

(** Little-endian: the byte at offset [i] weighs [256^i]. *)
Definition unsigned_le (n : nat) (bs : list byte) : Z :=
  fold_right (fun i acc => byte_at bs i * 256 ^ Z.of_nat i + acc) 0 (seq 0 n).

(** Two's complement over [bits] bits. *)
Definition twos_complement (bits : Z) (u : Z) : Z :=
  (u + 2 ^ (bits - 1)) mod 2 ^ bits - 2 ^ (bits - 1).

(** The raw value of a numeric format, decoded from exactly the bytes the
    format requires. *)
Definition raw_decode (f : Format) (bs : list byte) : Number :=
  match f with
  | Boolean => of_Z (unsigned_le 1 bs)
  | UInt8 => of_Z (unsigned_le 1 bs)
  | UInt16 => of_Z (unsigned_le 2 bs)
  | UInt32 => of_Z (unsigned_le 4 bs)
  | SInt8 => of_Z (twos_complement 8 (unsigned_le 1 bs))
  | SInt16 => of_Z (twos_complement 16 (unsigned_le 2 bs))
  | SInt32 => of_Z (twos_complement 32 (unsigned_le 4 bs))
  | Float32 => binary32_value (unsigned_le 4 bs)
  end.

(** What the value codec yields on a buffer that is long enough. *)
Definition decoded (exponentiate : Number -> Number -> Number)
  (f : Format) (e : Z) (bs : list byte) : Decoded :=
  let prefix := firstn (Z.to_nat (required_length f)) bs in
  match f with
  | Boolean => DBool (negb (byte_at prefix 0 =? 0))
  | _ => DNum (mul (raw_decode f prefix) (exponentiate (of_Z 10) (of_Z e)))
  end.

(** [s] is a binary64 number, positive and finite, nearest to [10^e]: at
    most half a unit in its last place away. *)
Definition nearest_power_of_ten (e : Z) (s : Number) : bool :=
  match s with
  | S754_finite false m x =>
      let '(n, d) := if 0 <=? e then (10 ^ e, 1) else (1, 10 ^ (- e)) in
      let '(sn, sd) :=
        if 0 <=? x then (Zpos m * 2 ^ x, 1) else (Zpos m, 2 ^ (- x)) in
      let distance := Z.abs (n * sd - sn * d) in
      valid_binary prec emax s &&
      (if 1 <=? x then distance <=? 2 ^ (x - 1) * d * sd
       else 2 ^ (1 - x) * distance <=? d * sd)
  | _ => false
  end.

(** The exponents a descriptor can hold: the signed 8-bit integers. *)
Definition int8_range : list Z := map (fun i => Z.of_nat i - 128) (seq 0 256).

(** Decimal places: max(0, min(100, -exponent)). *)
Definition decimal_places (e : Z) : Z := Z.max 0 (Z.min 100 (- e)).

Definition is_digit (c : ascii) : bool :=
  (48 <=? nat_of_ascii c)%nat && (nat_of_ascii c <=? 57)%nat.

Fixpoint all_digits (s : string) : bool :=
  match s with
  | EmptyString => true
  | String c r => is_digit c && all_digits r
  end.

(** The leading digits of a string counted, and what follows them. *)
Fixpoint span_digits (s : string) : nat * string :=
  match s with
  | String c r =>
      if is_digit c then let '(n, rest) := span_digits r in (S n, rest)
      else (O, s)
  | EmptyString => (O, s)
  end.

(** A fixed-point decimal: an optional minus sign, one digit or more, and,
    when [d] is not zero, a point and exactly [d] digits. *)
Definition fixed_point_unsigned (d : Z) (s : string) : bool :=
  let '(n, rest) := span_digits s in
  (1 <=? n)%nat &&
  match rest with
  | EmptyString => d =? 0
  | String c fraction =>
      Ascii.eqb c "." && negb (d =? 0) && (slen fraction =? d)
      && all_digits fraction
  end.

Definition fixed_point (d : Z) (s : string) : bool :=
  match s with
  | String "-" r => fixed_point_unsigned d r
  | _ => fixed_point_unsigned d s
  end.

(** A finite Number of magnitude below 10^21: those [toFixed] renders
    digit by digit. *)
Definition below_ten21 (x : Number) : bool :=
  is_finite x && (let '(n, d) := magnitude x in n <? 10 ^ 21 * d).

(** The number a string of decimal digits writes, leading zeros allowed. *)
Definition digits_value (s : string) : option Z :=
  match NilEmpty.uint_of_string s with
  | Some d => Some (Z.of_N (N.of_uint d))
  | None => None
  end.

(** A string cut at its first point: what stands before it, and what
    stands after it if there is one. *)
Fixpoint split_point (s : string) : string * option string :=
  match s with
  | EmptyString => (EmptyString, None)
  | String c r =>
      if Ascii.eqb c "." then (EmptyString, Some r)
      else let '(whole, fraction) := split_point r in (String c whole, fraction)
  end.

(** A decimal read back: whether it bears a minus sign, the integer its
    digits write once the point is taken out, and how many digits follow the
    point.  [(neg, N, d)] stands for the number [N / 10^d], negated when
    [neg]. *)
Definition decimal_reading (s : string) : option (bool * Z * Z) :=
  let '(neg, body) :=
    match s with
    | String "-" r => (true, r)
    | _ => (false, s)
    end in
  let '(whole, fraction) := split_point body in
  let fraction :=
    match fraction with
    | Some f => f
    | None => EmptyString
    end in
  match digits_value (whole ++ fraction) with
  | Some N => Some (neg, N, slen fraction)
  | None => None
  end.

(** [N] is the integer nearest to [|x| * 10^d], the larger one of two
    equally near: [|x| * 10^d - 1/2 < N <= |x| * 10^d + 1/2], with [|x|] the
    exact value [m * 2^e] of the binary64 [x]. *)
Definition nearest_to (x : Number) (d N : Z) : Prop :=
  match x with
  | S754_finite _ m e =>
      if 0 <=? e then
        2 * (Z.pos m * 2 ^ e * 10 ^ d) - 1 < 2 * N
        /\ 2 * N <= 2 * (Z.pos m * 2 ^ e * 10 ^ d) + 1
      else
        2 * (Z.pos m * 10 ^ d) - 2 ^ (- e) < 2 * N * 2 ^ (- e)
        /\ 2 * N * 2 ^ (- e) <= 2 * (Z.pos m * 10 ^ d) + 2 ^ (- e)
  | _ => N = 0
  end.

(** The descriptor as it is laid out: byte 0 the format, unsigned; byte 1
    the exponent, signed; bytes 2 and 3 the unit, little-endian. *)
Definition descriptor_fields (dv : DataView) : Glove.PresInfo :=
  {| Glove.format := unsigned_le 1 (firstn 1 dv);
     Glove.exponent :=
       twos_complement 8 (unsigned_le 1 (firstn 1 (skipn 1 dv)));
     Glove.unit := unsigned_le 2 (firstn 2 (skipn 2 dv)) |}.

(** What the console shows for a value shorter than its format. *)
Definition length_mismatch : Message :=
  [VStr "Characteristic value length does not match format specified in client presentation descriptor"].

(** What the console shows for a malformed descriptor. *)
Definition malformed : Message :=
  [VStr "Characteristic presentation descriptor received was in invalid format"].

(** The registry of the later revision seen as a registry and a cache of
    presentations. *)
Definition registry_of (rl : Map string Part000.CharacteristicInfo)
  : Map string Glove.CharacteristicInfo :=
  map (fun c => (fst c, {| Glove.name := Part000.name (snd c);
                           Glove.serviceName := Part000.serviceName (snd c);
                           Glove.lastEntry := Part000.lastEntry (snd c) |}))
      rl.

Definition cache_of (rl : Map string Part000.CharacteristicInfo)
  : Map string Glove.PresInfo :=
  map (fun c => (fst c, Part000.presInfo (snd c))) rl.

(** What the console shows for a unit code that is not in the table. *)
Definition unknown_unit (u : Z) : Message :=
  [VStr ("Unknown BLE unit definition " ++ dquote); VNum (of_Z u); VStr dquote].

(** A new key goes last; a key already there keeps its place. *)
Definition add_new (keys : list string) (k : string) : list string :=
  if existsb (String.eqb k) keys then keys else (keys ++ [k])%list.

(** The strings of a list one after the other. *)
Definition join (l : list string) : string := fold_right append EmptyString l.

(** A row of the export: the timestamp column, then the fields, each
    followed by a comma. *)
Definition csv_row (timestamp : string) (fields : list string) : string :=
  timestamp ++ "," ++ join (map (fun f => f ++ ",") fields).

(** The text of the export: every row followed by a newline. *)
Definition csv_text (rows : list string) : string :=
  join (map (fun r => r ++ newline) rows).

(** The label of a unit code, empty for a code that is not in the table. *)
Definition unit_label (u : Z) : string :=
  match map_get Z.eqb Glove.BLE_UNITS u with
  | Some label => label
  | None => EmptyString
  end.

(** The unit of a column: that of the presentation cached for the
    characteristic, empty without one. *)
Definition column_unit (cache : Map string Glove.PresInfo) (uuid : string)
  : string :=
  match map_get String.eqb cache uuid with
  | Some p => unit_label (Glove.unit p)
  | None => EmptyString
  end.

(** The field of a characteristic in a row: its value, empty when the row
    does not have it. *)
Definition cell (logEntry : Map string Value) (uuid : string) : string :=
  match map_get String.eqb logEntry uuid with
  | Some v => ToString v
  | None => EmptyString
  end.

(** The rows of the export: service names, characteristic names, units,
    then one row for each timestamp of the log in the order of the log, the
    columns in the order of the registry throughout. *)
Definition header_rows (cache : Map string Glove.PresInfo)
  (registry : Map string Glove.CharacteristicInfo) : list string :=
  [ csv_row "Timestamp" (map (fun c => Glove.serviceName (snd c)) registry);
    csv_row EmptyString (map (fun c => Glove.name (snd c)) registry);
    csv_row EmptyString (map (column_unit cache) (map_keys registry)) ].

Definition data_rows (registry : Map string Glove.CharacteristicInfo)
  (log : Map string (Map string Value)) : list string :=
  map (fun row => csv_row (fst row) (map (cell (snd row)) (map_keys registry)))
      log.

Definition export (cache : Map string Glove.PresInfo)
  (registry : Map string Glove.CharacteristicInfo)
  (log : Map string (Map string Value)) : string :=
  csv_text (header_rows cache registry ++ data_rows registry log).

(** The warnings the export logs: one for each column whose unit code is
    not in the table. *)
Definition export_warnings (cache : Map string Glove.PresInfo)
  (registry : Map string Glove.CharacteristicInfo) : list Message :=
  flat_map (fun uuid =>
              match map_get String.eqb cache uuid with
              | Some p =>
                  match map_get Z.eqb Glove.BLE_UNITS (Glove.unit p) with
                  | Some _ => []
                  | None => [unknown_unit (Glove.unit p)]
                  end
              | None => []
              end)
           (map_keys registry).

(** What a turn of the event loop does to the registry: a value read that
    was under way registers its characteristic, a connection attempt
    empties the registry, nothing else touches its keys. *)
Inductive RegistryOp : Type :=
| Registered (uuid : string)
| Emptied.

Definition registry_op (st : Glove.State) (ev : Glove.Event)
  : list RegistryOp :=
  match ev with
  | Glove.ValueRead i _ =>
      match nth_error (Glove.pending st) i with
      | Some r => [Registered (Glove.p_uuid r)]
      | None => []
      end
  | Glove.Connecting => [Emptied]
  | _ => []
  end.

Fixpoint registry_ops (pow : Number -> Number -> Number) (st : Glove.State)
  (evs : list Glove.Event) : list RegistryOp :=
  match evs with
  | [] => []
  | ev :: rest =>
      (registry_op st ev ++ registry_ops pow (Glove.step pow st ev) rest)%list
  end.

(** First-registration order. *)
Definition first_seen (keys : list string) (op : RegistryOp) : list string :=
  match op with
  | Registered uuid => add_new keys uuid
  | Emptied => []
  end.

(** What a turn of the event loop does to the log: a tick of a running
    interval logs the registry under the timestamp of the instant, a start
    empties the log, nothing else touches it. *)
Inductive LogOp : Type :=
| Logged (timestamp : string) (row : Map string Value)
| Restarted.

Definition log_op (st : Glove.State) (ev : Glove.Event) : list LogOp :=
  match ev with
  | Glove.Tick t now =>
      if existsb (Nat.eqb t) (Glove.intervals st)
      then [Logged (Glove.printTimestamp now)
                   (Glove.snapshot (Glove.characteristicList st))]
      else []
  | Glove.StartClicked => [Restarted]
  | _ => []
  end.




(** The row of a timestamp: the one logged last under it. *)
Definition row_after (timestamp : string) (row : option (Map string Value))
  (op : LogOp) : option (Map string Value) :=
  match op with
  | Logged timestamp' row' =>
      if String.eqb timestamp' timestamp then Some row' else row
  | Restarted => None
  end.

(** Two instants of the same wall-clock second. *)
Definition same_second (a b : Date) : Prop :=
  getFullYear a = getFullYear b /\
  getMonth a = getMonth b /\
  getDate a = getDate b /\
  getHours a = getHours b /\
  getMinutes a = getMinutes b /\
  getSeconds a = getSeconds b.

(** The events of one connection: anything but a new connection attempt
    and a disconnection. *)
Definition within_connection (ev : Glove.Event) : bool :=
  match ev with
  | Glove.Connecting | Glove.Disconnected _ => false
  | _ => true
  end.

(** Every registered characteristic has a cached presentation and a value
    cell, and every read under way has a cached presentation. *)
Definition well_registered (st : Glove.State) : Prop :=
  (forall uuid : string,
     In uuid (map_keys (Glove.characteristicList st)) ->
     map_get String.eqb (Glove.presInfoCache st) uuid <> None /\
     map_get String.eqb (Glove.cells st) uuid <> None) /\
  (forall r : Glove.PendingRead,
     In r (Glove.pending st) ->
     map_get String.eqb (Glove.presInfoCache st) (Glove.p_uuid r) <> None).

(** An interval that runs and that [logTimer] no longer names: no
    [clearInterval] of the script reaches it. *)
Definition orphan_interval (n : nat) (st : Glove.State) : Prop :=
  In n (Glove.intervals st) /\
  (n < Glove.nextTimer st)%nat /\
  Glove.logTimer st <> Some n.

(** *** The timestamp, digit by digit *)

Definition digit_char (d : Z) : ascii := ascii_of_nat (48 + Z.to_nat d).

Definition digits2 (n : Z) : string :=
  String (digit_char (n / 10)) (String (digit_char (n mod 10)) EmptyString).

Definition digits4 (n : Z) : string :=
  (digits2 (n / 100) ++ digits2 (n mod 100))%string.

(** The local-time fields of a [Date] between the years 1970 and 2999. *)
Definition clock_fields (d : Date) : Prop :=
  1970 <= getFullYear d <= 2999 /\
  0 <= getMonth d <= 11 /\
  1 <= getDate d <= 31 /\
  0 <= getHours d <= 23 /\
  0 <= getMinutes d <= 59 /\
  0 <= getSeconds d <= 59.

(** Zero with [n] digits after the point. *)
Definition zero_text (n : Z) : string :=
  if n =? 0 then "0" else "0." ++ zeros (Z.to_nat n).

(** *** The export as a table *)

Fixpoint count_char (c : ascii) (s : string) : nat :=
  match s with
  | EmptyString => 0
  | String x rest => ((if Ascii.eqb x c then 1 else 0) + count_char c rest)%nat
  end.

(** A field with neither a comma nor a newline in it. *)
Definition plain (s : string) : bool :=
  Nat.eqb (count_char ","%char s) 0 &&
  Nat.eqb (count_char (ascii_of_nat 10) s) 0.

(** Every name of the registry, every timestamp and every value of the
    log is such a field. *)
Definition plain_fields (st : Glove.State) : bool :=
  forallb (fun c => plain (Glove.name (snd c)) &&
                    plain (Glove.serviceName (snd c)))
          (Glove.characteristicList st) &&
  forallb (fun row => plain (fst row) &&
                      forallb (fun e => plain (ToString (snd e))) (snd row))
          (Glove.log st).

Definition plain_registry (registry : Map string Glove.CharacteristicInfo)
  : bool :=
  forallb (fun c => plain (Glove.name (snd c)) &&
                    plain (Glove.serviceName (snd c))) registry.

Definition plain_log (log : Map string (Map string Value)) : bool :=
  forallb (fun row => plain (fst row) &&
                      forallb (fun e => plain (ToString (snd e))) (snd row))
          log.

(** The pieces of a string between the occurrences of a separator. *)
Fixpoint split_on (c : ascii) (s : string) : list string :=
  match s with
  | EmptyString => [EmptyString]
  | String x rest =>
      if Ascii.eqb x c then EmptyString :: split_on c rest
      else match split_on c rest with
           | piece :: pieces => String x piece :: pieces
           | [] => [String x EmptyString]
           end
  end.

(** A CSV text read as a table: the lines the newlines end, and in each
    line the fields the commas end. *)
Definition read_csv (text : string) : list (list string) :=
  map (fun line => removelast (split_on ","%char line))
      (removelast (split_on (ascii_of_nat 10) text)).

(** The table of the export: the service names after "Timestamp", the
    characteristic names and the unit labels after an empty field, then for
    each timestamp of the log its values, a missing one as an empty field;
    columns in the order of the registry, rows in the order of the log. *)
Definition csv_table (cache : Map string Glove.PresInfo)
  (registry : Map string Glove.CharacteristicInfo)
  (log : Map string (Map string Value)) : list (list string) :=
  [ "Timestamp" :: map (fun c => Glove.serviceName (snd c)) registry;
    EmptyString :: map (fun c => Glove.name (snd c)) registry;
    EmptyString :: map (column_unit cache) (map_keys registry) ]
  ++ map (fun row => fst row :: map (cell (snd row)) (map_keys registry)) log.

(** *** Encoders, to state round trips *)

(** The byte of the low eight bits of an integer. *)
Definition byte_of (z : Z) : byte :=
  match Byte.of_N (Z.to_N (z mod 256)) with
  | Some b => b
  | None => x00
  end.

(** The low [n] bytes of an integer, least significant first. *)
Definition encode_le (n : nat) (v : Z) : list byte :=
  map (fun i => byte_of (v / 256 ^ Z.of_nat i)) (seq 0 n).

(** The first four bytes of a presentation descriptor. *)
Definition encode_descriptor (p : Glove.PresInfo) : list byte :=
  (encode_le 1 (Glove.format p) ++ encode_le 1 (Glove.exponent p)
   ++ encode_le 2 (Glove.unit p))%list.

(** The integers an integer format can hold, [None] for the others. *)
Definition integer_range (f : Format) : option (Z * Z) :=
  match f with
  | UInt8 => Some (0, 2 ^ 8 - 1)
  | UInt16 => Some (0, 2 ^ 16 - 1)
  | UInt32 => Some (0, 2 ^ 32 - 1)
  | SInt8 => Some (- 2 ^ 7, 2 ^ 7 - 1)
  | SInt16 => Some (- 2 ^ 15, 2 ^ 15 - 1)
  | SInt32 => Some (- 2 ^ 31, 2 ^ 31 - 1)
  | Boolean | Float32 => None
  end.

End Spec.

(** ** A reference host *)

Module Host.
Import JS.
Local Open Scope Z_scope.

(** The integer a Number is, if it is one. *)
Definition to_integer (x : Number) : option Z :=
  match x with
  | S754_zero _ => Some 0
  | S754_finite s m e =>
      let a := if 0 <=? e then Some (Zpos m * 2 ^ e)
               else if Zpos m mod 2 ^ (- e) =? 0 then Some (Zpos m / 2 ^ (- e))
               else None in
      match a with
      | Some a => Some (if s then - a else a)
      | None => None
      end
  | _ => None
  end.

(** An exponentiation that rounds powers of a positive integer base to an
    integer exponent correctly, which is all the codec asks of it ([10 ** e]);
    NaN elsewhere.  ECMAScript leaves [Number::exponentiate]
    implementation-approximated, and an engine may return a neighbour of the
    correctly rounded power: the theorems on the codec take the power of the
    host as a parameter, and what is computed with this one in the examples
    is the value on this reference host. *)
Definition exponentiate (base exponent : Number) : Number :=
  match to_integer base, to_integer exponent with
  | Some (Zpos b), Some e =>
      if 0 <=? e then of_Z (Zpos b ^ e)
      else SFdiv prec emax (S754_finite false 1 0)
                           (S754_finite false (b ^ Z.to_pos (- e)) 0)
  | _, _ => S754_nan
  end.

(** The reading 1234 scaled by [10 ** -2]. *)
Definition twelve_point_three_four : Number :=
  mul (of_Z 1234) (exponentiate (of_Z 10) (of_Z (-2))).

End Host.

(** ** A session: two characteristics, a log of two seconds *)

Module Session.
Import JS.
Local Open Scope string_scope.
Local Open Scope Z_scope.

Definition battery_level : DataView := [x04; x00; xad; x27; x01; x00; x00].
Definition temperature : DataView := [x0e; xfe; x2f; x27; x01; x00; x00].

Definition at_second (s ms : Z) : Date :=
  {| getFullYear := 2025; getMonth := 0; getDate := 5;
     getHours := 9; getMinutes := 3; getSeconds := s;
     getMilliseconds := ms |}.

Definition discovery : list Glove.Event :=
  [ Glove.PresDescriptorRead "2a19" "Level" "Battery" battery_level;
    Glove.PresDescriptorRead "2a6e" "Temperature" "Env" temperature;
    Glove.ValueRead 0 [x50];
    Glove.ValueRead 0 [x29; x09] ].

(** Both characteristics known, the log started, one tick gone by. *)
Definition logged_once : Glove.State :=
  Glove.run Host.exponentiate Glove.initial
    (discovery ++ [Glove.StartClicked; Glove.Tick 0 (at_second 7 0)])%list.

(** A second tick a second later, then the stop. *)
Definition stopped : Glove.State :=
  Glove.run Host.exponentiate logged_once
    [Glove.Tick 0 (at_second 8 0); Glove.StopClicked].



(** The battery level on its own: the read under way, and the registry
    once it has come back. *)
Definition battery_read : Glove.PendingRead :=
  {| Glove.p_uuid := "2a19"; Glove.p_name := "Level";
     Glove.p_serviceName := "Battery";
     Glove.p_presInfo :=
       {| Glove.format := 0x04; Glove.exponent := 0; Glove.unit := 0x27AD |} |}.

Definition battery_registered : Glove.State :=
  snd (Glove.onValueRead Host.exponentiate battery_read [x50] Glove.initial).

(** A battery level whose device names it with a comma, logged once. *)
Definition comma_named : Glove.State :=
  Glove.run Host.exponentiate Glove.initial
    [ Glove.Connecting;
      Glove.PresDescriptorRead "2a19" "Level, battery" "Battery" battery_level;
      Glove.ValueRead 0 [x50];
      Glove.StartClicked;
      Glove.Tick 0 (at_second 7 0) ].

(** A Float32 characteristic in hundredths. *)
Definition float_centi : Glove.PresInfo :=
  {| Glove.format := Glove.BLE_FORMAT_FLOAT32; Glove.exponent := -2;
     Glove.unit := 0x2700 |}.

End Session.

(** ** Lemmas on the host model *)

Import JS.

Lemma byte_value_range (b : byte) : 0 <= byte_value b < 256.
Proof.
  unfold byte_value.
  pose proof (Byte.to_N_bounded b) as H.
  lia.
Qed.

Lemma byteLength_nonneg (dv : DataView) : 0 <= byteLength dv.
Proof. unfold byteLength. lia. Qed.

Lemma GetViewValue_prefix (dv : DataView) (size : Z) :
  0 <= size -> size <= byteLength dv ->
  GetViewValue dv 0 size = Normal (firstn (Z.to_nat size) dv).
Proof.
  intros Hs Hl. unfold GetViewValue.
  destruct (Z.ltb_spec (byteLength dv) (0 + size)) as [Hlt | _]; [lia |].
  reflexivity.
Qed.

Lemma GetViewValue_short (dv : DataView) (off size : Z) :
  byteLength dv < off + size -> GetViewValue dv off size = Throw RangeError.
Proof.
  intros H. unfold GetViewValue.
  destruct (Z.ltb_spec (byteLength dv) (off + size)); [reflexivity | lia].
Qed.

Lemma GetViewValue_length (dv : DataView) (off size : Z) (raw : list byte) :
  0 <= off -> 0 <= size ->
  GetViewValue dv off size = Normal raw -> Z.of_nat (List.length raw) = size.
Proof.
  intros Ho Hs. unfold GetViewValue, byteLength.
  destruct (Z.ltb_spec (Z.of_nat (List.length dv)) (off + size)) as [|Hle];
    [discriminate |].
  intros [= <-]. rewrite length_firstn, length_skipn. lia.
Qed.

(** Reversing the bytes of a single-byte read changes nothing: the byte
    order [getUint8] and [getInt8] settle on is immaterial. *)
Lemma getInt_single_byte (signed : bool) (dv : DataView) (off : Z)
  (le le' : option bool) :
  0 <= off -> getInt signed 1 dv off le = getInt signed 1 dv off le'.
Proof.
  intros Ho. unfold getInt.
  destruct (GetViewValue dv off 1) as [raw |] eqn:E; [| reflexivity].
  apply GetViewValue_length in E; try lia.
  destruct raw as [| b [| b' raw]]; simpl in E; try lia.
  unfold RawBytesToInt.
  destruct (ToBoolean le), (ToBoolean le'); reflexivity.
Qed.

Lemma unsigned_le_cons (n : nat) (b : byte) (bs : list byte) :
  Spec.unsigned_le (S n) (b :: bs) = byte_value b + 256 * Spec.unsigned_le n bs.
Proof.
  unfold Spec.unsigned_le.
  rewrite <- cons_seq, <- seq_shift. cbn [fold_right].
  unfold Spec.byte_at at 1. cbn [nth].
  change (256 ^ Z.of_nat 0) with 1. rewrite Z.mul_1_r. f_equal.
  induction (seq 0 n) as [| i l IH]; cbn [map fold_right]; [reflexivity |].
  rewrite IH. unfold Spec.byte_at. cbn [nth].
  rewrite Nat2Z.inj_succ, Z.pow_succ_r by lia. ring.
Qed.

Lemma le_unsigned_spec (bs : list byte) :
  le_unsigned bs = Spec.unsigned_le (List.length bs) bs.
Proof.
  induction bs as [| b bs IH]; [reflexivity |].
  simpl List.length. rewrite unsigned_le_cons, <- IH. reflexivity.
Qed.

Lemma le_unsigned_range (bs : list byte) :
  0 <= le_unsigned bs < 256 ^ Z.of_nat (List.length bs).
Proof.
  induction bs as [| b bs IH]; cbn [le_unsigned List.length].
  - simpl. lia.
  - rewrite Nat2Z.inj_succ, Z.pow_succ_r by lia.
    pose proof (byte_value_range b). lia.
Qed.

Lemma twos_complement_cases (bits u : Z) :
  0 < bits -> 0 <= u < 2 ^ bits ->
  Spec.twos_complement bits u =
  if 2 ^ (bits - 1) <=? u then u - 2 ^ bits else u.
Proof.
  intros Hb Hu. unfold Spec.twos_complement.
  assert (Hp : 2 ^ bits = 2 * 2 ^ (bits - 1)).
  { replace bits with (Z.succ (bits - 1)) at 1 by lia.
    rewrite Z.pow_succ_r by lia. reflexivity. }
  assert (Hh : 0 < 2 ^ (bits - 1)) by (apply Z.pow_pos_nonneg; lia).
  destruct (Z.leb_spec (2 ^ (bits - 1)) u) as [Hge | Hlt].
  - rewrite <- (Z.mod_unique_pos (u + 2 ^ (bits - 1)) (2 ^ bits) 1
                (u - 2 ^ (bits - 1))); lia.
  - rewrite Z.mod_small by lia. lia.
Qed.

(** An integer read of [size] bytes at offset 0 of a view that has them,
    in the words of the specification. *)
Lemma getInt_little_endian (signed : bool) (size : Z) (dv : DataView) :
  0 < size -> size <= byteLength dv ->
  getInt signed size dv 0 (Some true) =
  Normal (let u := Spec.unsigned_le (Z.to_nat size) (firstn (Z.to_nat size) dv) in
          if signed then Spec.twos_complement (size * 8) u else u).
Proof.
  intros Hs Hl. unfold getInt.
  rewrite GetViewValue_prefix by lia. f_equal.
  unfold RawBytesToInt, ToBoolean. cbv zeta.
  assert (Hlen : List.length (firstn (Z.to_nat size) dv) = Z.to_nat size).
  { rewrite length_firstn. unfold byteLength in Hl. lia. }
  rewrite le_unsigned_spec, Hlen.
  set (u := Spec.unsigned_le _ _).
  assert (Hu : 0 <= u < 2 ^ (size * 8)).
  { subst u.
    pose proof (le_unsigned_range (firstn (Z.to_nat size) dv)) as R.
    rewrite le_unsigned_spec, Hlen, Z2Nat.id in R by lia.
    replace (2 ^ (size * 8)) with (256 ^ size); [exact R |].
    change 256 with (2 ^ 8). rewrite <- Z.pow_mul_r by lia. f_equal. lia. }
  destruct signed; simpl andb; [| reflexivity].
  rewrite twos_complement_cases by lia. reflexivity.
Qed.

Lemma getFloat32_little_endian (dv : DataView) :
  4 <= byteLength dv ->
  getFloat32 dv 0 (Some true) =
  Normal (binary32_value (Spec.unsigned_le 4 (firstn 4 dv))).
Proof.
  intros Hl. unfold getFloat32.
  rewrite GetViewValue_prefix by lia. f_equal.
  unfold RawBytesToFloat32, ToBoolean.
  rewrite le_unsigned_spec. f_equal. f_equal.
  rewrite length_firstn. unfold byteLength in Hl. change (Z.to_nat 4) with 4%nat. lia.
Qed.

(** ** The value codec *)

Ltac codec_unfold :=
  cbv [Glove.readValue Glove.decoderOf Glove.format Glove.exponent
       Glove.readPresInfo Glove.PRES_DESCRIPTOR_LENGTH
       Glove.IS_LITTLE_ENDIAN Glove.BLE_FORMAT_BOOLEAN Glove.BLE_FORMAT_UINT8
       Glove.BLE_FORMAT_UINT16 Glove.BLE_FORMAT_UINT32 Glove.BLE_FORMAT_SINT8
       Glove.BLE_FORMAT_SINT16 Glove.BLE_FORMAT_SINT32 Glove.BLE_FORMAT_FLOAT32
       Part000.readValue Part000.decoderOf Part000.format Part000.exponent
       Part000.readPresInfo Part000.PRES_DESCRIPTOR_LENGTH
       Part000.IS_LITTLE_ENDIAN Part000.BLE_FORMAT_BOOLEAN
       Part000.BLE_FORMAT_UINT8 Part000.BLE_FORMAT_UINT16
       Part000.BLE_FORMAT_UINT32 Part000.BLE_FORMAT_SINT8
       Part000.BLE_FORMAT_SINT16 Part000.BLE_FORMAT_SINT32
       Part000.BLE_FORMAT_FLOAT32].

(** The two revisions read a value alike. *)
Lemma readValue_revisions (exponentiate : Number -> Number -> Number)
  (dv : DataView) (p : Glove.PresInfo) :
  Part000.readValue exponentiate dv p = Glove.readValue exponentiate dv p.
Proof.
  codec_unfold. destruct p as [f e u]. cbn [Glove.format Glove.exponent].
  unfold getUint8, getInt8.
  repeat match goal with
         | |- context [if ?f =? ?c then _ else _] =>
             destruct (f =? c); [try reflexivity |]
         end;
    reflexivity.
Qed.

Lemma readPresInfo_revisions (dv : DataView) :
  Part000.readPresInfo dv = Glove.readPresInfo dv.
Proof.
  codec_unfold. unfold getUint8, getInt8. reflexivity.
Qed.

Lemma readValue_long_enough (exponentiate : Number -> Number -> Number)
  (f : Spec.Format) (e u : Z) (dv : DataView) :
  Spec.required_length f <= byteLength dv ->
  Glove.readValue exponentiate dv
    {| Glove.format := Spec.code f; Glove.exponent := e; Glove.unit := u |} =
  (Normal (Spec.decoded exponentiate f e dv), []).
Proof.
  intros Hl.
  destruct f; cbn [Spec.required_length] in Hl;
    codec_unfold; cbv [Spec.code]; cbn [Z.eqb Pos.eqb];
    match goal with
    | |- context [byteLength dv <? ?n] =>
        destruct (Z.ltb_spec (byteLength dv) n) as [Hlt | _]
    end;
    try lia;
    unfold getUint8, getUint16, getUint32, getInt8, getInt16, getInt32;
    try rewrite getInt_little_endian by lia;
    try rewrite getFloat32_little_endian by lia;
    try reflexivity.
  cbn [bind lift ret]. unfold Spec.decoded. cbn [Spec.required_length].
  repeat f_equal. unfold Spec.unsigned_le.
  change (Z.to_nat 1) with 1%nat. cbn [seq fold_right].
  change (256 ^ Z.of_nat 0) with 1. lia.
Qed.

(** The reference host raises 10 to every exponent a descriptor can hold
    without overflow or underflow, and to the nearest binary64 number. *)
Lemma reference_host_powers_of_ten (e : Z) :
  -128 <= e <= 127 ->
  Spec.nearest_power_of_ten e (Host.exponentiate (of_Z 10) (of_Z e)) = true.
Proof.
  intros He.
  assert (All : forallb (fun e => Spec.nearest_power_of_ten e
                                    (Host.exponentiate (of_Z 10) (of_Z e)))
                        Spec.int8_range = true)
    by (vm_compute; reflexivity).
  rewrite forallb_forall in All. apply All.
  unfold Spec.int8_range. apply in_map_iff.
  exists (Z.to_nat (e + 128)). split; [lia |].
  apply in_seq. lia.
Qed.

(** The values [readValue] and the text [formatValue] work with, at a
    glance. *)
Example readValue_sint16_centi :
  Glove.readValue Host.exponentiate [x29; x09]
    {| Glove.format := 0x0E; Glove.exponent := -2; Glove.unit := 0x272F |} =
  (Normal (DNum (S754_finite false 6600588203864883 (-48))), []).
Proof. vm_compute. reflexivity. Qed.

(** C1. On a buffer at least as long as its format requires, [readValue]
    completes normally, logs nothing, and yields: for a numeric format, the
    little-endian raw value of the required prefix times [10 ** exponent]
    (a Number product, which saturates and never throws), whatever the
    exponent; for Boolean, whether byte 0 is not zero, unscaled.  Both
    revisions of the script, and any host; on the reference host the scale
    factor of a signed 8-bit exponent is the finite binary64 number nearest
    to 10^exponent. *)
Theorem readValue_decodes_and_scales
  (exponentiate : Number -> Number -> Number)
  (f : Spec.Format) (e u : Z) (dv : DataView) :
  Spec.required_length f <= byteLength dv ->
  let p := {| Glove.format := Spec.code f; Glove.exponent := e;
              Glove.unit := u |} in
  Glove.readValue exponentiate dv p =
    (Normal (Spec.decoded exponentiate f e dv), []) /\
  Part000.readValue exponentiate dv p =
    (Normal (Spec.decoded exponentiate f e dv), []) /\
  (-128 <= e <= 127 ->
   Spec.nearest_power_of_ten e (Host.exponentiate (of_Z 10) (of_Z e)) = true).
Proof.
  intros Hl p. subst p. split; [| split].
  - apply readValue_long_enough. exact Hl.
  - rewrite readValue_revisions. apply readValue_long_enough. exact Hl.
  - apply reference_host_powers_of_ten.
Qed.

Lemma readValue_decodes_and_scales_witness :
  Spec.required_length Spec.SInt16 <= byteLength [x29; x09; xff] /\
  Glove.readValue Host.exponentiate [x29; x09; xff]
    {| Glove.format := 0x0E; Glove.exponent := -128; Glove.unit := 0 |} =
  (Normal (Spec.decoded Host.exponentiate Spec.SInt16 (-128) [x29; x09; xff]),
   []).
Proof.
  split; [vm_compute; discriminate |].
  apply (readValue_decodes_and_scales Host.exponentiate Spec.SInt16 (-128) 0
           [x29; x09; xff]).
  vm_compute; discriminate.
Defined.

Lemma supported_false (c : Z) :
  Spec.supported c = false ->
  (c =? 0x01) = false /\ (c =? 0x04) = false /\ (c =? 0x06) = false /\
  (c =? 0x08) = false /\ (c =? 0x0C) = false /\ (c =? 0x0E) = false /\
  (c =? 0x10) = false /\ (c =? 0x14) = false.
Proof.
  unfold Spec.supported. cbn [existsb Spec.code].
  rewrite !orb_false_iff, !(Z.eqb_sym _ c). tauto.
Qed.

Lemma readValue_unsupported (exponentiate : Number -> Number -> Number)
  (dv : DataView) (p : Glove.PresInfo) :
  Spec.supported (Glove.format p) = false ->
  Glove.readValue exponentiate dv p = (Normal (DNum (S754_zero false)), []).
Proof.
  intros H. apply supported_false in H.
  destruct H as (H1 & H2 & H3 & H4 & H5 & H6 & H7 & H8).
  codec_unfold. destruct p as [f e u]. cbn [Glove.format] in *.
  rewrite H1, H2, H3, H4, H5, H6, H7, H8. reflexivity.
Qed.

Lemma readValue_too_short (exponentiate : Number -> Number -> Number)
  (f : Spec.Format) (e u : Z) (dv : DataView) :
  byteLength dv < Spec.required_length f ->
  Glove.readValue exponentiate dv
    {| Glove.format := Spec.code f; Glove.exponent := e; Glove.unit := u |} =
  (Normal (DNum (S754_zero false)),
   [Spec.length_mismatch]).
Proof.
  intros Hl.
  destruct f; cbn [Spec.required_length] in Hl;
    codec_unfold; cbv [Spec.code]; cbn [Z.eqb Pos.eqb];
    match goal with
    | |- context [byteLength dv <? ?n] =>
        destruct (Z.ltb_spec (byteLength dv) n) as [_ | Hge]
    end;
    try lia; reflexivity.
Qed.

(** C4. For a supported format and a buffer shorter than it requires,
    [readValue] logs the length mismatch and returns 0; for any other format
    code it returns 0 at once, logging nothing, whatever the buffer.  Both
    revisions of the script. *)
Theorem readValue_zero_on_mismatch
  (exponentiate : Number -> Number -> Number) (dv : DataView) :
  (forall (f : Spec.Format) (e u : Z),
     byteLength dv < Spec.required_length f ->
     let p := {| Glove.format := Spec.code f; Glove.exponent := e;
                 Glove.unit := u |} in
     let mismatch :=
       (Normal (DNum (of_Z 0)),
        [Spec.length_mismatch]) in
     Glove.readValue exponentiate dv p = mismatch /\
     Part000.readValue exponentiate dv p = mismatch) /\
  (forall p : Glove.PresInfo,
     Spec.supported (Glove.format p) = false ->
     Glove.readValue exponentiate dv p = (Normal (DNum (of_Z 0)), []) /\
     Part000.readValue exponentiate dv p = (Normal (DNum (of_Z 0)), [])).
Proof.
  split.
  - intros f e u Hl p mismatch. subst p mismatch.
    split; [| rewrite readValue_revisions];
      apply readValue_too_short; exact Hl.
  - intros p Hp.
    split; [| rewrite readValue_revisions];
      apply readValue_unsupported; exact Hp.
Qed.

Lemma readValue_zero_on_mismatch_witness :
  (byteLength [x29; x09; xff] < Spec.required_length Spec.Float32 /\
   Glove.readValue Host.exponentiate [x29; x09; xff]
     {| Glove.format := 0x14; Glove.exponent := 3; Glove.unit := 0 |} =
   (Normal (DNum (of_Z 0)),
    [Spec.length_mismatch])) /\
  (Spec.supported 0x19 = false /\
   Glove.readValue Host.exponentiate []
     {| Glove.format := 0x19; Glove.exponent := 3; Glove.unit := 0 |} =
   (Normal (DNum (of_Z 0)), [])).
Proof.
  split; (split; [reflexivity |]).
  - apply (proj1 (readValue_zero_on_mismatch Host.exponentiate
                    [x29; x09; xff]) Spec.Float32 3 0).
    reflexivity.
  - apply (proj2 (readValue_zero_on_mismatch Host.exponentiate [])
             {| Glove.format := 0x19; Glove.exponent := 3; Glove.unit := 0 |}).
    reflexivity.
Defined.

(** ** The presentation descriptor *)

Lemma GetViewValue_at (dv : DataView) (off size : Z) :
  0 <= off -> 0 <= size -> off + size <= byteLength dv ->
  GetViewValue dv off size =
  Normal (firstn (Z.to_nat size) (skipn (Z.to_nat off) dv)).
Proof.
  intros Ho Hs Hl. unfold GetViewValue.
  destruct (Z.ltb_spec (byteLength dv) (off + size)); [lia | reflexivity].
Qed.

Lemma getInt_at (signed : bool) (size off : Z) (dv : DataView) :
  0 <= off -> 0 < size -> off + size <= byteLength dv ->
  getInt signed size dv off (Some true) =
  Normal (let u := Spec.unsigned_le (Z.to_nat size)
                     (firstn (Z.to_nat size) (skipn (Z.to_nat off) dv)) in
          if signed then Spec.twos_complement (size * 8) u else u).
Proof.
  intros Ho Hs Hl.
  assert (E : getInt signed size dv off (Some true) =
              getInt signed size (skipn (Z.to_nat off) dv) 0 (Some true)).
  { unfold getInt. rewrite GetViewValue_at by lia.
    rewrite GetViewValue_prefix; [reflexivity | lia |].
    unfold byteLength in *. rewrite length_skipn. lia. }
  rewrite E. apply getInt_little_endian; [lia |].
  unfold byteLength in *. rewrite length_skipn. lia.
Qed.

Lemma readPresInfo_short (dv : DataView) :
  byteLength dv < 7 -> Glove.readPresInfo dv = (Normal None, [Spec.malformed]).
Proof.
  intros Hl. codec_unfold.
  destruct (Z.ltb_spec (byteLength dv) 7); [reflexivity | lia].
Qed.

Lemma readPresInfo_long (dv : DataView) :
  7 <= byteLength dv ->
  Glove.readPresInfo dv = (Normal (Some (Spec.descriptor_fields dv)), []).
Proof.
  intros Hl. codec_unfold.
  destruct (Z.ltb_spec (byteLength dv) 7); [lia |].
  unfold getUint8, getInt8, getUint16.
  rewrite !getInt_at by lia. reflexivity.
Qed.

Lemma descriptor_fields_prefix (dv dv' : DataView) :
  firstn 4 dv = firstn 4 dv' -> Spec.descriptor_fields dv = Spec.descriptor_fields dv'.
Proof.
  intros H. unfold Spec.descriptor_fields.
  assert (H1 : firstn 1 dv = firstn 1 dv').
  { change 1%nat with (Nat.min 1 4).
    rewrite <- !firstn_firstn, H. reflexivity. }
  assert (H2 : firstn 1 (skipn 1 dv) = firstn 1 (skipn 1 dv')).
  { rewrite !firstn_skipn_comm.
    change (1 + 1)%nat with (Nat.min 2 4).
    rewrite <- !firstn_firstn, H. reflexivity. }
  assert (H3 : firstn 2 (skipn 2 dv) = firstn 2 (skipn 2 dv')).
  { rewrite !firstn_skipn_comm. change (2 + 2)%nat with 4%nat.
    rewrite H. reflexivity. }
  rewrite H1, H2, H3. reflexivity.
Qed.

Lemma onPresDescriptor_short (uuid n sn : string) (dv : DataView)
  (st : Glove.State) :
  byteLength dv < 7 ->
  Glove.onPresDescriptor uuid n sn dv st =
  (Normal tt, Glove.set_console (fun c => c ++ [Spec.malformed]) st).
Proof.
  intros Hl. unfold Glove.onPresDescriptor, Glove.bindM, Glove.liftOut.
  rewrite readPresInfo_short by exact Hl. reflexivity.
Qed.

(** C2. A descriptor shorter than 7 bytes decodes to nothing: [readPresInfo]
    returns [undefined] after logging, and the callback that receives it
    leaves the cache, the registry and the reads under way as they were.  From
    7 bytes on [readPresInfo] returns the three fields and logs nothing, and
    the bytes after the fourth play no part.  Both revisions of the script
    decode alike. *)
Theorem readPresInfo_contract (dv : DataView) :
  (byteLength dv < 7 ->
     Glove.readPresInfo dv = (Normal None, [Spec.malformed]) /\
     Part000.readPresInfo dv = (Normal None, [Spec.malformed]) /\
     forall (pow : Number -> Number -> Number) (uuid n sn : string)
            (st : Glove.State),
       let st' := Glove.step pow st (Glove.PresDescriptorRead uuid n sn dv) in
       Glove.presInfoCache st' = Glove.presInfoCache st /\
       Glove.characteristicList st' = Glove.characteristicList st /\
       Glove.pending st' = Glove.pending st) /\
  (7 <= byteLength dv ->
     Glove.readPresInfo dv = (Normal (Some (Spec.descriptor_fields dv)), []) /\
     Part000.readPresInfo dv = (Normal (Some (Spec.descriptor_fields dv)), []) /\
     forall dv' : DataView,
       7 <= byteLength dv' -> firstn 4 dv' = firstn 4 dv ->
       Glove.readPresInfo dv' = Glove.readPresInfo dv).
Proof.
  split; intros Hl.
  - split; [apply readPresInfo_short; exact Hl |].
    split; [rewrite readPresInfo_revisions; apply readPresInfo_short;
            exact Hl |].
    intros pow uuid n sn st st'. subst st'.
    unfold Glove.step; cbn [Glove.handler].
    rewrite onPresDescriptor_short by exact Hl. repeat split.
  - split; [apply readPresInfo_long; exact Hl |].
    split; [rewrite readPresInfo_revisions; apply readPresInfo_long;
            exact Hl |].
    intros dv' Hl' Hp. rewrite (readPresInfo_long dv Hl).
    rewrite readPresInfo_long by exact Hl'.
    rewrite (descriptor_fields_prefix dv' dv Hp). reflexivity.
Qed.

Lemma readPresInfo_contract_witness :
  (byteLength [x0e; xfe; x2f] < 7 /\
   Glove.readPresInfo [x0e; xfe; x2f] = (Normal None, [Spec.malformed])) /\
  (7 <= byteLength [x0e; xfe; x2f; x27; x01; x00; x00] /\
   Glove.readPresInfo [x0e; xfe; x2f; x27; x01; x00; x00] =
   (Normal (Some {| Glove.format := 0x0E; Glove.exponent := -2;
                    Glove.unit := 0x272F |}), [])).
Proof.
  split; (split; [vm_compute; try reflexivity; discriminate |]).
  - destruct (proj1 (readPresInfo_contract [x0e; xfe; x2f])) as [H _];
      [reflexivity | exact H].
  - destruct (proj2 (readPresInfo_contract
                       [x0e; xfe; x2f; x27; x01; x00; x00])) as [H _];
      [vm_compute; discriminate | exact H].
Defined.

(** ** The two revisions *)

Lemma formatValue_revisions (val : Decoded) (p : Glove.PresInfo) :
  Part000.formatValue val p = Glove.formatValue val p.
Proof. reflexivity. Qed.

Lemma getUnitString_revisions (p : Glove.PresInfo) :
  Part000.getUnitString p = Glove.getUnitString p.
Proof. reflexivity. Qed.

(** C10. The codec of [src/unnamed/part_000] and the codec of
    [src/glove.js] are the same functions: on every buffer, every
    presentation record and every decoded value, [readPresInfo], [readValue],
    [formatValue] and [getUnitString] agree, in what they return and in what
    they log.  The revisions differ in the argument they pass to [getUint8]
    and [getInt8] in the place of a [littleEndian], which these two
    accessors do not have. *)
Theorem codec_revisions_agree (exponentiate : Number -> Number -> Number)
  (dv : DataView) (p : Glove.PresInfo) (val : Decoded) :
  Part000.readPresInfo dv = Glove.readPresInfo dv /\
  Part000.readValue exponentiate dv p = Glove.readValue exponentiate dv p /\
  Part000.formatValue val p = Glove.formatValue val p /\
  Part000.getUnitString p = Glove.getUnitString p.
Proof.
  split; [apply readPresInfo_revisions |].
  split; [apply readValue_revisions |].
  split; [apply formatValue_revisions | apply getUnitString_revisions].
Qed.

(** ** Formatting *)

Section Strings.
Local Open Scope string_scope.

Lemma all_digits_app (a b : string) :
  Spec.all_digits (a ++ b) = Spec.all_digits a && Spec.all_digits b.
Proof.
  induction a as [| c a IH]; cbn [append Spec.all_digits]; [reflexivity |].
  rewrite IH, andb_assoc. reflexivity.
Qed.

Lemma all_digits_zeros (n : nat) : Spec.all_digits (zeros n) = true.
Proof. induction n as [| n IH]; [reflexivity | exact IH]. Qed.

Lemma length_zeros (n : nat) : String.length (zeros n) = n.
Proof. induction n as [| n IH]; cbn; congruence. Qed.

Lemma length_append (a b : string) :
  String.length (a ++ b) = (String.length a + String.length b)%nat.
Proof. induction a as [| c a IH]; cbn; congruence. Qed.

Lemma all_digits_uint (d : Decimal.uint) :
  Spec.all_digits (NilEmpty.string_of_uint d) = true.
Proof. induction d; cbn; auto. Qed.

Lemma uint_string_empty (d : Decimal.uint) :
  NilEmpty.string_of_uint d = EmptyString -> d = Decimal.Nil.
Proof. destruct d; cbn; congruence. Qed.

Lemma all_digits_digits (n : Z) : Spec.all_digits (digits n) = true.
Proof. apply all_digits_uint. Qed.

Lemma digits_nonempty (n : Z) : (1 <= String.length (digits n))%nat.
Proof.
  unfold digits.
  destruct (NilEmpty.string_of_uint (N.to_uint (Z.to_N n))) eqn:E;
    [| cbn; lia].
  apply uint_string_empty in E. exfalso.
  destruct (Z.to_N n) as [| p]; [discriminate |].
  exact (DecimalPos.Unsigned.to_uint_nonnil p E).
Qed.

Lemma firstn_skipn_string (k : nat) (s : string) :
  firstn_string k s ++ skipn_string k s = s.
Proof.
  revert s. induction k as [| k IH]; intros [| c s]; cbn; try reflexivity.
  f_equal. apply IH.
Qed.

Lemma length_firstn_string (k : nat) (s : string) :
  (k <= String.length s)%nat -> String.length (firstn_string k s) = k.
Proof.
  revert s. induction k as [| k IH]; intros [| c s] H; cbn in *;
    try reflexivity; try lia.
  f_equal. apply IH. lia.
Qed.

Lemma length_skipn_string (k : nat) (s : string) :
  String.length (skipn_string k s) = (String.length s - k)%nat.
Proof.
  revert s. induction k as [| k IH]; intros [| c s]; cbn; try reflexivity.
  apply IH.
Qed.

Lemma all_digits_firstn (k : nat) (s : string) :
  Spec.all_digits s = true -> Spec.all_digits (firstn_string k s) = true.
Proof.
  revert s. induction k as [| k IH]; intros [| c s] H; cbn in *;
    try reflexivity.
  apply andb_true_iff in H as [Hc Hs]. rewrite Hc. cbn. apply IH, Hs.
Qed.

Lemma all_digits_skipn (k : nat) (s : string) :
  Spec.all_digits s = true -> Spec.all_digits (skipn_string k s) = true.
Proof.
  revert s. induction k as [| k IH]; intros [| c s] H; cbn in *;
    try reflexivity; try exact H.
  apply andb_true_iff in H as [Hc Hs]. apply IH, Hs.
Qed.

(** The leading digits of [a ++ rest] are [a] when [a] is all digits and
    [rest] does not go on with one. *)
Lemma span_digits_app (a rest : string) :
  Spec.all_digits a = true ->
  match rest with
  | EmptyString => True
  | String c _ => Spec.is_digit c = false
  end ->
  Spec.span_digits (a ++ rest) = (String.length a, rest).
Proof.
  intros Ha Hr. induction a as [| c a IH]; cbn [append Spec.span_digits].
  - destruct rest as [| c r]; [reflexivity |].
    cbn [Spec.span_digits]. rewrite Hr. reflexivity.
  - cbn in Ha. apply andb_true_iff in Ha as [Hc Ha].
    rewrite Hc, (IH Ha). reflexivity.
Qed.

Lemma append_empty_r (s : string) : s ++ EmptyString = s.
Proof. induction s as [| c s IH]; cbn; congruence. Qed.

Lemma fixed_point_integer (a : string) :
  Spec.all_digits a = true -> (1 <= String.length a)%nat ->
  Spec.fixed_point_unsigned 0 a = true.
Proof.
  intros Ha Hl. unfold Spec.fixed_point_unsigned.
  rewrite <- (append_empty_r a) at 1.
  rewrite (span_digits_app a EmptyString Ha I).
  destruct (Nat.leb_spec 1 (String.length a)); [reflexivity | lia].
Qed.

Lemma fixed_point_fraction (d : Z) (a b : string) :
  0 < d ->
  Spec.all_digits a = true -> (1 <= String.length a)%nat ->
  Spec.all_digits b = true -> slen b = d ->
  Spec.fixed_point_unsigned d (a ++ "." ++ b) = true.
Proof.
  intros Hd Ha Hl Hb Hlb. unfold Spec.fixed_point_unsigned.
  rewrite (span_digits_app a ("." ++ b) Ha) by reflexivity.
  cbn [append]. rewrite Hb, Hlb, Z.eqb_refl.
  destruct (Nat.leb_spec 1 (String.length a)); [| lia].
  destruct (Z.eqb_spec d 0); [lia | reflexivity].
Qed.

(** A minus sign in front of the digits leaves a fixed-point decimal one. *)
Lemma fixed_point_signed (d : Z) (neg : bool) (m : string) :
  Spec.fixed_point_unsigned d m = true ->
  Spec.fixed_point d ((if neg then "-" else EmptyString) ++ m) = true.
Proof.
  intros H. destruct neg; cbn [append]; [exact H |].
  destruct m as [| c r]; [exact H |].
  unfold Spec.fixed_point_unsigned in H. cbn [Spec.span_digits] in H.
  destruct (Spec.is_digit c) eqn:Hc.
  - unfold Spec.fixed_point.
    destruct c as [[] [] [] [] [] [] [] []]; try discriminate Hc;
      unfold Spec.fixed_point_unsigned; cbn [Spec.span_digits];
      try rewrite Hc; exact H.
  - discriminate H.
Qed.

End Strings.

Lemma toFixed_fixed_point (x : Number) (f : Z) :
  0 <= f <= 100 -> Spec.below_ten21 x = true ->
  exists s, toFixed x f = Normal s /\ Spec.fixed_point f s = true.
Proof.
  intros Hf Hx. unfold Spec.below_ten21 in Hx.
  apply andb_true_iff in Hx as [Hfin Hmag].
  unfold toFixed. cbv zeta.
  destruct (Z.ltb_spec f 0); [lia |].
  destruct (Z.ltb_spec 100 f); [lia |]. cbn [orb].
  rewrite Hfin. cbn [negb].
  destruct (magnitude x) as [nx dx] eqn:Em.
  apply Z.ltb_lt in Hmag.
  destruct (Z.leb_spec (ten21 * dx) nx) as [Hge | _];
    [unfold ten21 in Hge; lia |].
  eexists. split; [reflexivity |].
  apply fixed_point_signed.
  set (n := nearest_scaled x f).
  set (m0 := if n =? 0 then "0"%string else digits n).
  assert (Hd0 : Spec.all_digits m0 = true).
  { subst m0. destruct (n =? 0); [reflexivity | apply all_digits_digits]. }
  assert (Hl0 : (1 <= String.length m0)%nat).
  { subst m0. destruct (n =? 0); [cbn; lia | apply digits_nonempty]. }
  destruct (Z.eqb_spec f 0) as [-> | Hnz].
  - apply fixed_point_integer; assumption.
  - set (k := slen m0).
    set (m1 := if k <=? f then (zeros (Z.to_nat (f + 1 - k)) ++ m0)%string
               else m0).
    set (k' := if k <=? f then f + 1 else k).
    assert (Hd1 : Spec.all_digits m1 = true).
    { subst m1. destruct (k <=? f); [| exact Hd0].
      rewrite all_digits_app, all_digits_zeros, Hd0. reflexivity. }
    assert (Hl1 : slen m1 = k' /\ f + 1 <= k').
    { subst m1 k'. unfold slen in *. subst k.
      destruct (Z.leb_spec (Z.of_nat (String.length m0)) f).
      - rewrite length_append, length_zeros. lia.
      - lia. }
    destruct Hl1 as [Hl1 Hk']. unfold slen in Hl1.
    apply fixed_point_fraction.
    + lia.
    + apply all_digits_firstn, Hd1.
    + unfold take. rewrite length_firstn_string; lia.
    + apply all_digits_skipn, Hd1.
    + unfold drop, slen. rewrite length_skipn_string. lia.
Qed.

Lemma digits_value_digits (n : Z) :
  0 <= n -> Spec.digits_value (digits n) = Some n.
Proof.
  intros H. unfold Spec.digits_value, digits.
  rewrite NilEmpty.usu, DecimalN.Unsigned.of_to, Z2N.id by exact H.
  reflexivity.
Qed.

Lemma digits_value_zeros (j : nat) (s : string) :
  Spec.digits_value (zeros j ++ s) = Spec.digits_value s.
Proof.
  induction j as [| j IH]; [reflexivity |].
  revert IH. unfold Spec.digits_value. cbn [zeros append].
  cbn [NilEmpty.uint_of_string].
  destruct (NilEmpty.uint_of_string (zeros j ++ s)) as [d |],
           (NilEmpty.uint_of_string s) as [d' |];
    cbn [uint_of_char]; intros IH; try discriminate IH; try reflexivity.
  exact IH.
Qed.

Lemma digit_not_point (c : ascii) :
  Spec.is_digit c = true -> Ascii.eqb c "." = false.
Proof.
  destruct (Ascii.eqb_spec c ".") as [-> | _]; [| reflexivity].
  intros H. discriminate H.
Qed.

Lemma split_point_whole (a : string) :
  Spec.all_digits a = true -> Spec.split_point a = (a, None).
Proof.
  induction a as [| c a IH]; cbn [Spec.all_digits Spec.split_point];
    [reflexivity |].
  intros H. apply andb_true_iff in H as [Hc Ha].
  rewrite (digit_not_point c Hc), (IH Ha). reflexivity.
Qed.

Lemma split_point_fraction (a b : string) :
  Spec.all_digits a = true ->
  Spec.split_point (a ++ "." ++ b) = (a, Some b).
Proof.
  induction a as [| c a IH]; cbn [Spec.all_digits Spec.split_point append];
    [reflexivity |].
  intros H. apply andb_true_iff in H as [Hc Ha].
  rewrite (digit_not_point c Hc). cbn [append] in IH. rewrite (IH Ha).
  reflexivity.
Qed.

(** A minus sign in front of digits is read as the sign. *)
Lemma decimal_reading_signed (neg : bool) (m : string) :
  match m with
  | String c _ => Spec.is_digit c = true
  | EmptyString => False
  end ->
  Spec.decimal_reading ((if neg then "-" else EmptyString) ++ m) =
  match Spec.decimal_reading m with
  | Some (_, N, d) => Some (neg, N, d)
  | None => None
  end.
Proof.
  destruct m as [| c r]; [intros [] |]. intros Hc.
  assert (E : Spec.decimal_reading (String c r) =
              let '(whole, fraction) := Spec.split_point (String c r) in
              let fraction := match fraction with
                              | Some f => f
                              | None => EmptyString
                              end in
              match Spec.digits_value (whole ++ fraction) with
              | Some N => Some (false, N, slen fraction)
              | None => None
              end).
  { unfold Spec.decimal_reading.
    destruct c as [[] [] [] [] [] [] [] []]; try discriminate Hc;
      reflexivity. }
  rewrite E. destruct neg; cbn [append].
  - unfold Spec.decimal_reading.
    destruct (Spec.split_point (String c r)) as [whole fraction].
    cbv zeta.
    destruct (Spec.digits_value _); reflexivity.
  - rewrite E.
    destruct (Spec.split_point (String c r)) as [whole fraction].
    cbv zeta.
    destruct (Spec.digits_value _); reflexivity.
Qed.

Lemma nearest_scaled_nearest (x : Number) (f : Z) :
  0 <= f -> is_finite x = true ->
  0 <= nearest_scaled x f /\ Spec.nearest_to x f (nearest_scaled x f).
Proof.
  intros Hf Hx. unfold nearest_scaled, Spec.nearest_to, magnitude.
  assert (H10 : 0 < 10 ^ f) by (apply Z.pow_pos_nonneg; lia).
  destruct x as [s | s | | s m e]; try discriminate Hx.
  - split; [| reflexivity]. rewrite Z.mul_0_r, Z.mul_0_l. reflexivity.
  - destruct (Z.leb_spec 0 e) as [He | He].
    + assert (H2 : 0 < 2 ^ e) by (apply Z.pow_pos_nonneg; lia).
      set (a := Z.pos m * 2 ^ e) in *.
      assert (Ha : 0 < a) by (subst a; lia).
      pose proof (Z.div_mod (2 * a * 10 ^ f + 1) (2 * 1) ltac:(lia)) as D.
      pose proof (Z.mod_pos_bound (2 * a * 10 ^ f + 1) (2 * 1) ltac:(lia)) as B.
      set (q := (2 * a * 10 ^ f + 1) / (2 * 1)) in *.
      set (r := (2 * a * 10 ^ f + 1) mod (2 * 1)) in *.
      assert (Hp : 0 < a * 10 ^ f) by (apply Z.mul_pos_pos; lia).
      split; [| split]; nia.
    + assert (H2 : 0 < 2 ^ (- e)) by (apply Z.pow_pos_nonneg; lia).
      set (d := 2 ^ (- e)) in *.
      pose proof (Z.div_mod (2 * Z.pos m * 10 ^ f + d) (2 * d) ltac:(lia))
        as D.
      pose proof (Z.mod_pos_bound (2 * Z.pos m * 10 ^ f + d) (2 * d)
                    ltac:(lia)) as B.
      set (q := (2 * Z.pos m * 10 ^ f + d) / (2 * d)) in *.
      set (r := (2 * Z.pos m * 10 ^ f + d) mod (2 * d)) in *.
      assert (Hp : 0 < Z.pos m * 10 ^ f) by (apply Z.mul_pos_pos; lia).
      split; [| split]; nia.
Qed.

Example decimal_reading_examples :
  Spec.decimal_reading "12.34" = Some (false, 1234, 2) /\
  Spec.decimal_reading "-0.05" = Some (true, 5, 2) /\
  Spec.decimal_reading "5" = Some (false, 5, 0) /\
  Spec.decimal_reading "1e+21" = None.
Proof. repeat split. Qed.

(** What [toFixed] writes reads back as the sign of the Number and the
    integer nearest to its magnitude scaled by [10^f]. *)
Lemma toFixed_reading (x : Number) (f : Z) :
  0 <= f <= 100 -> Spec.below_ten21 x = true ->
  exists s : string,
    toFixed x f = Normal s /\
    Spec.decimal_reading s = Some (is_negative x, nearest_scaled x f, f).
Proof.
  intros Hf Hx. unfold Spec.below_ten21 in Hx.
  apply andb_true_iff in Hx as [Hfin Hmag].
  destruct (nearest_scaled_nearest x f (proj1 Hf) Hfin) as [Hn _].
  unfold toFixed. cbv zeta.
  destruct (Z.ltb_spec f 0); [lia |].
  destruct (Z.ltb_spec 100 f); [lia |]. cbn [orb].
  rewrite Hfin. cbn [negb].
  destruct (magnitude x) as [nx dx] eqn:Em.
  apply Z.ltb_lt in Hmag.
  destruct (Z.leb_spec (ten21 * dx) nx) as [Hge | _];
    [unfold ten21 in Hge; lia |].
  eexists. split; [reflexivity |].
  set (n := nearest_scaled x f) in *.
  set (m0 := if n =? 0 then "0"%string else digits n).
  assert (Hd0 : Spec.all_digits m0 = true).
  { subst m0. destruct (n =? 0); [reflexivity | apply all_digits_digits]. }
  assert (Hl0 : (1 <= String.length m0)%nat).
  { subst m0. destruct (n =? 0); [cbn; lia | apply digits_nonempty]. }
  assert (Hv0 : Spec.digits_value m0 = Some n).
  { subst m0. destruct (Z.eqb_spec n 0) as [-> | _]; [reflexivity |].
    apply digits_value_digits, Hn. }
  assert (Hsign : forall m N d,
            Spec.all_digits (firstn_string 1 m) = true ->
            (1 <= String.length m)%nat ->
            Spec.decimal_reading m = Some (false, N, d) ->
            Spec.decimal_reading
              ((if is_negative x then "-" else EmptyString) ++ m)%string =
            Some (is_negative x, N, d)).
  { intros m N d Hm Hl Hr. rewrite decimal_reading_signed, Hr; [reflexivity |].
    destruct m as [| c r]; [cbn in Hl; lia |].
    cbn in Hm. apply andb_true_iff in Hm as [Hc _]. exact Hc. }
  destruct (Z.eqb_spec f 0) as [-> | Hnz].
  - apply Hsign; [apply all_digits_firstn, Hd0 | exact Hl0 |].
    unfold Spec.decimal_reading.
    assert (Hnm : match m0 with
                  | String "-" _ => False
                  | _ => True
                  end).
    { destruct m0 as [| c r]; [exact I |].
      cbn in Hd0. apply andb_true_iff in Hd0 as [Hc _].
      destruct c as [[] [] [] [] [] [] [] []]; try exact I.
      discriminate Hc. }
    replace (match m0 with
             | String "-" r => (true, r)
             | _ => (false, m0)
             end) with (false, m0).
    2:{ destruct m0 as [| c r]; [reflexivity |].
        destruct c as [[] [] [] [] [] [] [] []]; try reflexivity.
        contradiction. }
    rewrite (split_point_whole m0 Hd0), append_empty_r, Hv0. reflexivity.
  - set (k := slen m0).
    set (m1 := if k <=? f then (zeros (Z.to_nat (f + 1 - k)) ++ m0)%string
               else m0).
    set (k' := if k <=? f then f + 1 else k).
    assert (Hd1 : Spec.all_digits m1 = true).
    { subst m1. destruct (k <=? f); [| exact Hd0].
      rewrite all_digits_app, all_digits_zeros, Hd0. reflexivity. }
    assert (Hl1 : slen m1 = k' /\ f + 1 <= k').
    { subst m1 k'. unfold slen in *. subst k.
      destruct (Z.leb_spec (Z.of_nat (String.length m0)) f).
      - rewrite length_append, length_zeros. lia.
      - lia. }
    assert (Hv1 : Spec.digits_value m1 = Some n).
    { subst m1. destruct (k <=? f); [| exact Hv0].
      rewrite digits_value_zeros. exact Hv0. }
    destruct Hl1 as [Hl1 Hk']. unfold slen in Hl1.
    assert (Ht : Spec.all_digits (take (k' - f) m1) = true)
      by (apply all_digits_firstn, Hd1).
    assert (Htl : String.length (take (k' - f) m1) = Z.to_nat (k' - f))
      by (unfold take; rewrite length_firstn_string; lia).
    apply Hsign.
    + destruct (take (k' - f) m1) as [| c r] eqn:Et; [cbn in Htl; lia |].
      cbn [append firstn_string Spec.all_digits] in *.
      apply andb_true_iff in Ht as [Hc _]. rewrite Hc. reflexivity.
    + rewrite length_append. lia.
    + unfold Spec.decimal_reading.
      replace (match (take (k' - f) m1 ++ "." ++ drop (k' - f) m1)%string with
               | String "-" r => (true, r)
               | _ => (false,
                       (take (k' - f) m1 ++ "." ++ drop (k' - f) m1)%string)
               end)
        with (false, (take (k' - f) m1 ++ "." ++ drop (k' - f) m1)%string).
      2:{ destruct (take (k' - f) m1) as [| c r] eqn:Et;
            [cbn in Htl; lia |].
          cbn [Spec.all_digits] in Ht.
          apply andb_true_iff in Ht as [Hc _]. cbn [append].
          destruct c as [[] [] [] [] [] [] [] []]; try reflexivity.
          discriminate Hc. }
      rewrite (split_point_fraction _ _ Ht).
      unfold take, drop. rewrite firstn_skipn_string, Hv1.
      unfold slen. rewrite length_skipn_string.
      do 3 f_equal. lia.
Qed.

Lemma decimal_places_clamp (e : Z) :
  (let numDecimals := - e in
   if numDecimals <? 0 then 0
   else if 100 <? numDecimals then 100 else numDecimals) =
  Spec.decimal_places e.
Proof.
  cbv zeta. unfold Spec.decimal_places.
  destruct (Z.ltb_spec (- e) 0); [lia |].
  destruct (Z.ltb_spec 100 (- e)); lia.
Qed.

Lemma decimal_places_range (e : Z) : 0 <= Spec.decimal_places e <= 100.
Proof. unfold Spec.decimal_places. lia. Qed.

(** C3, as it is stated, fails on a large reading: 10^21 held by a
    Float32 characteristic of exponent -2 is formatted as ["1e+21"], which
    is no fixed-point decimal of two digits after the point; a NaN is
    formatted as ["NaN"]; and the Float32 reading 1e30 (bytes CA F2 49 71),
    decoded and scaled by [readValue], is formatted in exponent notation. *)
Lemma formatValue_large_not_fixed_point :
  Glove.formatValue (DNum (of_Z (10 ^ 21))) Session.float_centi =
    Normal (VStr "1e+21") /\
  Spec.fixed_point
    (Spec.decimal_places (Glove.exponent Session.float_centi)) "1e+21" = false /\
  Glove.formatValue (DNum S754_nan) Session.float_centi = Normal (VStr "NaN") /\
  Spec.fixed_point
    (Spec.decimal_places (Glove.exponent Session.float_centi)) "NaN" = false /\
  (exists val : Decoded,
     Glove.readValue Host.exponentiate [xca; xf2; x49; x71]
                     Session.float_centi = (Normal val, []) /\
     Glove.formatValue val Session.float_centi =
       Normal (VStr "1.0000000150474662e+28")).
Proof.
  split; [vm_compute; reflexivity |].
  split; [vm_compute; reflexivity |].
  split; [vm_compute; reflexivity |].
  split; [vm_compute; reflexivity |].
  exists (DNum (S754_finite false 4547473577292595 41)).
  split; vm_compute; reflexivity.
Qed.

(** C3, amended. With the Boolean format [formatValue] hands its argument
    back, whatever the exponent.  With any other format a finite Number of
    magnitude below 10^21 is rendered as a fixed-point decimal with exactly
    max(0, min(100, -exponent)) digits after the point: the string has that
    shape, it bears a minus sign exactly when the Number is negative, and
    its digits, the point taken out, write the integer nearest to the
    magnitude of the Number scaled by ten to that many digits (the larger of
    two equally near).  12.34 (the reading 1234 scaled by 10^-2) with
    exponent -2 gives ["12.34"] and 5 with exponent 0 gives ["5"]. *)
Theorem formatValue_fixed_point (val : Decoded) (p : Glove.PresInfo) :
  (Glove.format p = Glove.BLE_FORMAT_BOOLEAN ->
     Glove.formatValue val p = Normal (inject val)) /\
  (Glove.format p <> Glove.BLE_FORMAT_BOOLEAN ->
     forall x : Number,
       val = DNum x -> Spec.below_ten21 x = true ->
       exists (s : string) (N : Z),
         Glove.formatValue val p = Normal (VStr s) /\
         Spec.fixed_point (Spec.decimal_places (Glove.exponent p)) s = true /\
         Spec.decimal_reading s =
           Some (is_negative x, N, Spec.decimal_places (Glove.exponent p)) /\
         Spec.nearest_to x (Spec.decimal_places (Glove.exponent p)) N) /\
  Glove.formatValue (DNum Host.twelve_point_three_four)
    {| Glove.format := Glove.BLE_FORMAT_SINT16; Glove.exponent := -2;
       Glove.unit := 0x272F |} = Normal (VStr "12.34") /\
  Glove.formatValue (DNum (of_Z 5))
    {| Glove.format := Glove.BLE_FORMAT_UINT8; Glove.exponent := 0;
       Glove.unit := 0x27AD |} = Normal (VStr "5").
Proof.
  split; [| split; [| split; vm_compute; reflexivity]].
  - intros Hb. unfold Glove.formatValue. rewrite Hb, Z.eqb_refl. reflexivity.
  - intros Hb x -> Hx. unfold Glove.formatValue.
    destruct (Z.eqb_spec (Glove.format p) Glove.BLE_FORMAT_BOOLEAN);
      [contradiction |].
    rewrite decimal_places_clamp.
    destruct (toFixed_fixed_point x (Spec.decimal_places (Glove.exponent p))
                (decimal_places_range _) Hx) as (s & Hs & Hfp).
    destruct (toFixed_reading x (Spec.decimal_places (Glove.exponent p))
                (decimal_places_range _) Hx) as (s' & Hs' & Hrd).
    rewrite Hs in Hs'. injection Hs' as <-.
    assert (Hfin : is_finite x = true).
    { unfold Spec.below_ten21 in Hx. apply andb_true_iff in Hx. tauto. }
    exists s, (nearest_scaled x (Spec.decimal_places (Glove.exponent p))).
    rewrite Hs. split; [reflexivity |]. split; [exact Hfp |].
    split; [exact Hrd |].
    apply nearest_scaled_nearest;
      [apply decimal_places_range | exact Hfin].
Qed.

Lemma formatValue_fixed_point_witness :
  (Glove.format {| Glove.format := 0x01; Glove.exponent := -2;
                   Glove.unit := 0x2700 |} = Glove.BLE_FORMAT_BOOLEAN /\
   Glove.formatValue (DBool true)
     {| Glove.format := 0x01; Glove.exponent := -2; Glove.unit := 0x2700 |} =
   Normal (VBool true)) /\
  (Glove.format {| Glove.format := 0x0E; Glove.exponent := -2;
                   Glove.unit := 0x272F |} <> Glove.BLE_FORMAT_BOOLEAN /\
   Spec.below_ten21 Host.twelve_point_three_four = true /\
   exists (s : string) (N : Z),
     Glove.formatValue (DNum Host.twelve_point_three_four)
       {| Glove.format := 0x0E; Glove.exponent := -2; Glove.unit := 0x272F |} =
     Normal (VStr s) /\
     Spec.fixed_point 2 s = true /\
     Spec.decimal_reading s = Some (false, N, 2) /\
     Spec.nearest_to Host.twelve_point_three_four 2 N).
Proof.
  split.
  - split; [reflexivity |].
    exact (proj1 (formatValue_fixed_point (DBool true)
                    {| Glove.format := 0x01; Glove.exponent := -2;
                       Glove.unit := 0x2700 |}) eq_refl).
  - split; [vm_compute; discriminate |]. split; [vm_compute; reflexivity |].
    refine (proj1 (proj2 (formatValue_fixed_point
                            (DNum Host.twelve_point_three_four)
                            {| Glove.format := 0x0E; Glove.exponent := -2;
                               Glove.unit := 0x272F |}))
                  _ Host.twelve_point_three_four eq_refl _).
    + vm_compute; discriminate.
    + vm_compute; reflexivity.
Defined.

(** ** Units *)

(** The lookup never fails: a code of the table gives its label and logs
    nothing, any other code gives the empty string and logs a warning. *)
Lemma getUnitString_total (p : Glove.PresInfo) :
  (exists label : string,
     map_get Z.eqb Glove.BLE_UNITS (Glove.unit p) = Some label /\
     Glove.getUnitString p = (Normal label, [])) \/
  (map_get Z.eqb Glove.BLE_UNITS (Glove.unit p) = None /\
   Glove.getUnitString p =
   (Normal EmptyString, [Spec.unknown_unit (Glove.unit p)])).
Proof.
  unfold Glove.getUnitString.
  destruct (map_get Z.eqb Glove.BLE_UNITS (Glove.unit p)) as [label |].
  - left. exists label. split; reflexivity.
  - right. split; reflexivity.
Qed.

Lemma getUnitString_known_labels (f e : Z) :
  let labelled u := {| Glove.format := f; Glove.exponent := e;
                       Glove.unit := u |} in
  Glove.getUnitString (labelled 0x2700) = (Normal EmptyString, []) /\
  Glove.getUnitString (labelled 0x272D) = (Normal "uT"%string, []) /\
  Glove.getUnitString (labelled 0x27AD) = (Normal "%"%string, []) /\
  Glove.getUnitString (labelled 0xFFFF) =
    (Normal EmptyString, [Spec.unknown_unit 0xFFFF]).
Proof. repeat split. Qed.

(** C5, at the Celsius code.  The table of both revisions holds for 0x272F
    a label of five bytes, C3 82 C2 B0 43: the degree sign encoded twice,
    which reads "Â°C".  The label of the unit, "°C", is the three bytes
    C2 B0 43. *)
Theorem getUnitString_celsius (f e : Z) :
  let p := {| Glove.format := f; Glove.exponent := e; Glove.unit := 0x272F |} in
  exists label : string,
    Glove.getUnitString p = (Normal label, []) /\
    Part000.getUnitString p = (Normal label, []) /\
    list_byte_of_string label = [xc3; x82; xc2; xb0; x43] /\
    list_byte_of_string "°C" = [xc2; xb0; x43] /\
    label <> "°C"%string.
Proof.
  exists "Â°C"%string. repeat split. discriminate.
Qed.

(** ** Insertion-ordered maps *)

Section MapFacts.
Context {V : Type}.
Implicit Types (m : Map string V) (k : string) (v : V).

Lemma add_new_present (keys : list string) (k : string) :
  existsb (String.eqb k) keys = true -> Spec.add_new keys k = keys.
Proof. intros H. unfold Spec.add_new. rewrite H. reflexivity. Qed.

Lemma map_keys_set m k v :
  map_keys (map_set String.eqb m k v) = Spec.add_new (map_keys m) k.
Proof.
  unfold Spec.add_new, map_keys.
  induction m as [| [k' v'] m IH]; cbn [map_set map fst existsb];
    [reflexivity |].
  rewrite (String.eqb_sym k k').
  destruct (String.eqb k' k); cbn [orb map fst]; [reflexivity |].
  rewrite IH. destruct (existsb (String.eqb k) (map fst m)); reflexivity.
Qed.

Lemma map_get_keys m k :
  existsb (String.eqb k) (map_keys m) =
  match map_get String.eqb m k with Some _ => true | None => false end.
Proof.
  unfold map_keys.
  induction m as [| [k' v'] m IH]; cbn [map_get map fst existsb];
    [reflexivity |].
  rewrite (String.eqb_sym k k').
  destruct (String.eqb k' k); [reflexivity | exact IH].
Qed.

Lemma map_keys_set_present m k v v' :
  map_get String.eqb m k = Some v' ->
  map_keys (map_set String.eqb m k v) = map_keys m.
Proof.
  intros H. rewrite map_keys_set. apply add_new_present.
  rewrite map_get_keys, H. reflexivity.
Qed.

Lemma map_get_set_same m k v :
  map_get String.eqb (map_set String.eqb m k v) k = Some v.
Proof.
  induction m as [| [k' v'] m IH]; cbn [map_set map_get].
  - rewrite String.eqb_refl. reflexivity.
  - destruct (String.eqb k' k) eqn:E; cbn [map_get]; rewrite E;
      [reflexivity | exact IH].
Qed.

Lemma map_get_set_other m k k' v :
  String.eqb k k' = false ->
  map_get String.eqb (map_set String.eqb m k v) k' = map_get String.eqb m k'.
Proof.
  intros Hk.
  induction m as [| [k0 v0] m IH]; cbn [map_set map_get].
  - rewrite Hk. reflexivity.
  - destruct (String.eqb_spec k0 k) as [-> | Hne]; cbn [map_get].
    + rewrite Hk. reflexivity.
    + rewrite IH. reflexivity.
Qed.


Lemma add_new_NoDup (keys : list string) (k : string) :
  NoDup keys -> NoDup (Spec.add_new keys k).
Proof.
  intros H. unfold Spec.add_new.
  destruct (existsb (String.eqb k) keys) eqn:E; [exact H |].
  apply NoDup_app; [exact H | repeat constructor; intros [] |].
  intros x Hx [Hk | []]. subst x.
  assert (existsb (String.eqb k) keys = true); [| congruence].
  apply existsb_exists. exists k. split; [exact Hx | apply String.eqb_refl].
Qed.

End MapFacts.

(** ** The export *)

Section ExportText.
Local Open Scope string_scope.

Lemma append_assoc (a b c : string) : (a ++ b) ++ c = a ++ (b ++ c).
Proof. induction a as [| x a IH]; cbn; congruence. Qed.

Lemma join_app (l1 l2 : list string) :
  Spec.join (l1 ++ l2) = Spec.join l1 ++ Spec.join l2.
Proof.
  induction l1 as [| x l1 IH]; cbn [Spec.join fold_right app];
    [reflexivity |].
  fold (Spec.join (l1 ++ l2)). fold (Spec.join l1).
  rewrite IH, append_assoc. reflexivity.
Qed.

Lemma printHeader_columns (cache : Map string Glove.PresInfo)
  (cl : Map string Glove.CharacteristicInfo) (a1 a2 a3 : string) :
  Glove.printHeader cache cl (a1, a2, a3) =
  (Normal
     (a1 ++ Spec.join (map (fun c => Glove.serviceName (snd c) ++ ",") cl),
      a2 ++ Spec.join (map (fun c => Glove.name (snd c) ++ ",") cl),
      a3 ++ Spec.join (map (fun f => f ++ ",")
                           (map (Spec.column_unit cache) (map_keys cl)))),
   Spec.export_warnings cache cl).
Proof.
  revert a1 a2 a3.
  induction cl as [| [uuid info] cl IH]; intros a1 a2 a3.
  - cbn. rewrite !append_empty_r. reflexivity.
  - cbn [Glove.printHeader].
    unfold Spec.export_warnings, Spec.column_unit, Spec.unit_label,
      Glove.getUnitString in *.
    cbn [map_keys map fst snd flat_map Spec.join fold_right].
    destruct (map_get String.eqb cache uuid) as [p |];
      [destruct (map_get Z.eqb Glove.BLE_UNITS (Glove.unit p)) as [label |] |];
      cbn [bind ret console_log]; rewrite IH; cbn [app];
      rewrite ?append_assoc, ?append_empty_r; reflexivity.
Qed.

Lemma printRow_cells (cl : Map string Glove.CharacteristicInfo)
  (logEntry : Map string Value) (csv : string) :
  Glove.printRow cl logEntry csv =
  csv ++ Spec.join (map (fun f => f ++ ",")
                        (map (Spec.cell logEntry) (map_keys cl))).
Proof.
  unfold Glove.printRow. revert csv.
  induction cl as [| [uuid info] cl IH]; intros csv;
    cbn [fold_left map_keys map fst Spec.join fold_right].
  - rewrite append_empty_r. reflexivity.
  - rewrite IH. unfold Spec.cell at 2.
    destruct (map_get String.eqb logEntry uuid);
      rewrite ?append_assoc; reflexivity.
Qed.

Lemma printLog_rows (cl : Map string Glove.CharacteristicInfo)
  (log : Map string (Map string Value)) (csv : string) :
  fold_left (fun csv '(timestamp, logEntry) =>
               let csv := csv ++ newline ++ timestamp ++ "," in
               Glove.printRow cl logEntry csv) log csv ++ newline =
  csv ++ newline ++ Spec.csv_text (Spec.data_rows cl log).
Proof.
  revert csv. induction log as [| [ts row] log IH]; intros csv;
    cbn [fold_left Spec.data_rows map Spec.csv_text Spec.join fold_right].
  - rewrite append_empty_r. reflexivity.
  - cbv zeta. rewrite IH, printRow_cells. unfold Spec.csv_row. cbn [fst snd].
    rewrite !append_assoc. reflexivity.
Qed.

(** [printLog] writes the export and leaves the globals alone but for
    the warnings of unknown units. *)
Lemma printLog_export (st : Glove.State) :
  Glove.printLog st =
  (Normal (Spec.export (Glove.presInfoCache st) (Glove.characteristicList st)
                       (Glove.log st)),
   Glove.set_console
     (fun c => c ++ Spec.export_warnings (Glove.presInfoCache st)
                                         (Glove.characteristicList st))%list
     st).
Proof.
  unfold Glove.printLog, Glove.liftOut. rewrite printHeader_columns.
  cbn [bind ret fst snd]. f_equal.
  - f_equal. rewrite printLog_rows.
    unfold Spec.export, Spec.csv_text, Spec.header_rows, Spec.csv_row.
    rewrite map_app, join_app.
    cbn [map Spec.join fold_right].
    rewrite ?append_assoc, ?append_empty_r.
    rewrite !map_map. reflexivity.
  - rewrite app_nil_r. reflexivity.
Qed.

End ExportText.

(** ** The registry and the log, handler by handler *)

Ltac run_handler :=
  unfold Glove.bindM, Glove.gets, Glove.modify, Glove.liftOut, Glove.liftC,
    Glove.retM, Glove.throwM;
  cbn [fst snd].

Ltac fields :=
  cbn [Glove.presInfoCache Glove.characteristicList Glove.log Glove.logTimer
       Glove.intervals Glove.nextTimer Glove.cells Glove.console
       Glove.downloads Glove.pending
       Glove.set_presInfoCache Glove.set_characteristicList Glove.set_log
       Glove.set_timers Glove.set_cells Glove.set_console Glove.set_downloads
       Glove.set_pending fst snd].

(** A value update touches the cells, the console and the last entry of
    a registered characteristic, and nothing else. *)
Lemma updateVal_frame (pow : Number -> Number -> Number) (uuid : string)
  (dv : DataView) (p : Glove.PresInfo) (st : Glove.State) :
  let st' := snd (Glove.updateVal pow uuid dv p st) in
  map_keys (Glove.characteristicList st') =
    map_keys (Glove.characteristicList st) /\
  Glove.log st' = Glove.log st /\
  Glove.intervals st' = Glove.intervals st /\
  Glove.logTimer st' = Glove.logTimer st /\
  Glove.downloads st' = Glove.downloads st /\
  Glove.pending st' = Glove.pending st /\
  Glove.presInfoCache st' = Glove.presInfoCache st.
Proof.
  unfold Glove.updateVal, Glove.cacheValue. run_handler.
  destruct (map_get String.eqb (Glove.cells st) uuid); [| repeat split].
  destruct (Glove.readValue pow dv p) as [[val | e] msgs]; fields;
    [| repeat split].
  destruct (Glove.formatValue val p) as [v | e]; fields; [| repeat split].
  destruct (map_get String.eqb (Glove.characteristicList st) uuid)
    as [info |] eqn:E; fields;
    destruct (Glove.getUnitString p) as [[u | e] msgs']; fields;
    repeat split;
    apply (map_keys_set_present _ _ _ _ E).
Qed.

Lemma logStop_effect (st : Glove.State) :
  Glove.logStop st =
  (Normal tt,
   let stopped :=
     match Glove.logTimer st with
     | Some id =>
         Glove.set_timers (Glove.logTimer st)
           (filter (fun i => negb (Nat.eqb i id))) (Glove.nextTimer st) st
     | None => st
     end in
   if 0 <? map_size (Glove.log st) then
     Glove.set_downloads
       (fun d => d ++ [Spec.export (Glove.presInfoCache st)
                                   (Glove.characteristicList st)
                                   (Glove.log st)])
       (Glove.set_console
          (fun c => c ++ Spec.export_warnings (Glove.presInfoCache st)
                                              (Glove.characteristicList st))
          stopped)
   else stopped).
Proof.
  unfold Glove.logStop, Glove.clearInterval, Glove.saveLog. run_handler.
  destruct (Glove.logTimer st) as [id |]; fields;
    destruct (0 <? map_size (Glove.log st)); try reflexivity;
    rewrite printLog_export; fields; reflexivity.
Qed.

Lemma logStop_frame (st : Glove.State) :
  let st' := snd (Glove.logStop st) in
  Glove.characteristicList st' = Glove.characteristicList st /\
  Glove.log st' = Glove.log st /\
  Glove.pending st' = Glove.pending st /\
  Glove.presInfoCache st' = Glove.presInfoCache st.
Proof.
  rewrite logStop_effect. cbn [snd].
  destruct (Glove.logTimer st), (0 <? map_size (Glove.log st)); fields;
    repeat split.
Qed.

Lemma step_registry (pow : Number -> Number -> Number) (st : Glove.State)
  (ev : Glove.Event) :
  map_keys (Glove.characteristicList (Glove.step pow st ev)) =
  fold_left Spec.first_seen (Spec.registry_op st ev)
            (map_keys (Glove.characteristicList st)).
Proof.
  unfold Glove.step.
  destruct ev as [uuid n sn dv | i dv | uuid dv | t now | | | | device];
    cbn [Glove.handler Spec.registry_op].
  - unfold Glove.onPresDescriptor. run_handler.
    destruct (Glove.readPresInfo dv) as [[[p |] | e] msgs]; reflexivity.
  - run_handler. destruct (nth_error (Glove.pending st) i) as [r |];
      [| reflexivity].
    unfold Glove.onValueRead, Glove.showCharacteristic. run_handler.
    match goal with
    | |- context [Glove.updateVal pow ?u ?d ?p ?s] =>
        pose proof (updateVal_frame pow u d p s) as F;
        destruct (Glove.updateVal pow u d p s) as [[[] | e] st1]
    end; cbn [snd] in F; destruct F as (F & _); fields; rewrite F; fields;
      apply map_keys_set.
  - unfold Glove.onNotify. run_handler.
    destruct (map_get String.eqb (Glove.presInfoCache st) uuid) as [p |];
      [| reflexivity].
    apply updateVal_frame.
  - run_handler. unfold Glove.updateLog. run_handler.
    destruct (existsb (Nat.eqb t) (Glove.intervals st)); reflexivity.
  - reflexivity.
  - cbn [fold_left]. f_equal. apply logStop_frame.
  - reflexivity.
  - unfold Glove.onDisconnect. run_handler. cbn [fold_left]. f_equal.
    match goal with
    | |- context [Glove.logStop ?s] => apply (logStop_frame s)
    end.
Qed.

Lemma step_log (pow : Number -> Number -> Number) (st : Glove.State)
  (ev : Glove.Event) :
  Glove.log (Glove.step pow st ev) =
  match Spec.log_op st ev with
  | [Spec.Logged timestamp row] =>
      map_set String.eqb (Glove.log st) timestamp row
  | [Spec.Restarted] => []
  | _ => Glove.log st
  end.
Proof.
  unfold Glove.step.
  destruct ev as [uuid n sn dv | i dv | uuid dv | t now | | | | device];
    cbn [Glove.handler Spec.log_op].
  - unfold Glove.onPresDescriptor. run_handler.
    destruct (Glove.readPresInfo dv) as [[[p |] | e] msgs]; reflexivity.
  - run_handler. destruct (nth_error (Glove.pending st) i) as [r |];
      [| reflexivity].
    unfold Glove.onValueRead, Glove.showCharacteristic. run_handler.
    match goal with
    | |- context [Glove.updateVal pow ?u ?d ?p ?s] =>
        pose proof (updateVal_frame pow u d p s) as F;
        destruct (Glove.updateVal pow u d p s) as [[[] | e] st1]
    end; cbn [snd] in F; destruct F as (_ & F & _); fields; rewrite F;
      reflexivity.
  - unfold Glove.onNotify. run_handler.
    destruct (map_get String.eqb (Glove.presInfoCache st) uuid) as [p |];
      [| reflexivity].
    apply updateVal_frame.
  - run_handler. unfold Glove.updateLog. run_handler.
    destruct (existsb (Nat.eqb t) (Glove.intervals st)); reflexivity.
  - reflexivity.
  - apply logStop_frame.
  - reflexivity.
  - unfold Glove.onDisconnect. run_handler.
    match goal with
    | |- context [Glove.logStop ?s] => apply (logStop_frame s)
    end.
Qed.

(** ** The registry *)

Lemma run_cons (pow : Number -> Number -> Number) (st : Glove.State)
  (ev : Glove.Event) (evs : list Glove.Event) :
  Glove.run pow st (ev :: evs) = Glove.run pow (Glove.step pow st ev) evs.
Proof. reflexivity. Qed.

Lemma run_registry (pow : Number -> Number -> Number)
  (evs : list Glove.Event) (st : Glove.State) :
  map_keys (Glove.characteristicList (Glove.run pow st evs)) =
  fold_left Spec.first_seen (Spec.registry_ops pow st evs)
            (map_keys (Glove.characteristicList st)).
Proof.
  revert st. induction evs as [| ev evs IH]; intros st; [reflexivity |].
  rewrite (run_cons pow st ev evs). cbn [Spec.registry_ops].
  rewrite fold_left_app, <- (step_registry pow). apply IH.
Qed.

Lemma first_seen_NoDup (ops : list Spec.RegistryOp) (keys : list string) :
  NoDup keys -> NoDup (fold_left Spec.first_seen ops keys).
Proof.
  revert keys. induction ops as [| op ops IH]; intros keys H; [exact H |].
  cbn [fold_left]. apply IH.
  destruct op; cbn [Spec.first_seen];
    [apply add_new_NoDup; exact H | constructor].
Qed.

Lemma map_set_fresh {V : Type} (m : Map string V) (k : string) (v : V) :
  ~ In k (map_keys m) -> map_set String.eqb m k v = (m ++ [(k, v)])%list.
Proof.
  unfold map_keys.
  induction m as [| [k' v'] m IH]; intros H; cbn [map_set app];
    [reflexivity |].
  cbn [map fst In] in H.
  destruct (String.eqb_spec k' k) as [-> | Hne]; [tauto |].
  rewrite IH by tauto. reflexivity.
Qed.

Lemma snapshot_entries (cl : Map string Glove.CharacteristicInfo) :
  NoDup (map_keys cl) ->
  Glove.snapshot cl = map (fun c => (fst c, Glove.lastEntry (snd c))) cl.
Proof.
  unfold Glove.snapshot.
  assert (G : forall acc : Map string Value,
             NoDup (map_keys acc ++ map_keys cl) ->
             fold_left
               (fun logEntry '(uuid, characteristicInfo) =>
                  map_set String.eqb logEntry uuid
                          (Glove.lastEntry characteristicInfo)) cl acc =
             (acc ++ map (fun c => (fst c, Glove.lastEntry (snd c))) cl)%list).
  { induction cl as [| [uuid info] cl IH]; intros acc H; cbn [fold_left map].
    - rewrite app_nil_r. reflexivity.
    - cbn [map_keys map fst] in H. fold (map_keys cl) in H.
      rewrite map_set_fresh.
      + rewrite IH.
        * rewrite <- app_assoc. reflexivity.
        * unfold map_keys in *. rewrite map_app, <- app_assoc. exact H.
      + apply NoDup_remove_2 in H. intros Hin. apply H.
        apply in_or_app. left. exact Hin. }
  intros H. apply (G []). exact H.
Qed.

Lemma snapshot_keys (cl : Map string Glove.CharacteristicInfo) :
  NoDup (map_keys cl) -> map_keys (Glove.snapshot cl) = map_keys cl.
Proof.
  intros H. rewrite snapshot_entries by exact H.
  unfold map_keys. rewrite map_map. reflexivity.
Qed.

Lemma updateVal_registry (pow : Number -> Number -> Number) (uuid : string)
  (dv : DataView) (p : Glove.PresInfo) (st : Glove.State) :
  let st' := snd (Glove.updateVal pow uuid dv p st) in
  Glove.characteristicList st' = Glove.characteristicList st \/
  exists (info : Glove.CharacteristicInfo) (v : Value),
    map_get String.eqb (Glove.characteristicList st) uuid = Some info /\
    Glove.characteristicList st' =
    map_set String.eqb (Glove.characteristicList st) uuid
      {| Glove.name := Glove.name info;
         Glove.serviceName := Glove.serviceName info;
         Glove.lastEntry := v |}.
Proof.
  unfold Glove.updateVal, Glove.cacheValue. run_handler.
  destruct (map_get String.eqb (Glove.cells st) uuid); [| left; reflexivity].
  destruct (Glove.readValue pow dv p) as [[val | e] msgs]; fields;
    [| left; reflexivity].
  destruct (Glove.formatValue val p) as [v | e]; fields;
    [| left; reflexivity].
  destruct (map_get String.eqb (Glove.characteristicList st) uuid)
    as [info |] eqn:E; fields;
    destruct (Glove.getUnitString p) as [[u | e] msgs']; fields;
    try (left; reflexivity);
    right; exists info, v; split; reflexivity.
Qed.

Lemma onValueRead_registers (pow : Number -> Number -> Number)
  (r : Glove.PendingRead) (dv : DataView) (st : Glove.State) :
  let st' := snd (Glove.onValueRead pow r dv st) in
  map_keys (Glove.characteristicList st') =
    Spec.add_new (map_keys (Glove.characteristicList st)) (Glove.p_uuid r) /\
  exists entry : Value,
    map_get String.eqb (Glove.characteristicList st') (Glove.p_uuid r) =
    Some {| Glove.name := Glove.p_name r;
            Glove.serviceName := Glove.p_serviceName r;
            Glove.lastEntry := entry |}.
Proof.
  unfold Glove.onValueRead, Glove.showCharacteristic. run_handler.
  match goal with
  | |- context [Glove.updateVal pow ?u ?d ?p ?s] =>
      pose proof (updateVal_frame pow u d p s) as F;
      pose proof (updateVal_registry pow u d p s) as G;
      destruct (Glove.updateVal pow u d p s) as [[[] | e] st1]
  end; cbn [snd] in F, G; destruct F as (F & _);
    cbn [Glove.characteristicList Glove.set_cells
         Glove.set_characteristicList] in F, G; fields;
    (split; [rewrite F; apply map_keys_set |]);
    (destruct G as [G | (info & v & Hget & G)]; rewrite G; fields;
     [ rewrite map_get_set_same; eexists; reflexivity
     | rewrite map_get_set_same in Hget; injection Hget as <-;
       rewrite map_get_set_same; eexists; reflexivity ]).
Qed.

(** C6. The keys of the registry are the identifiers registered, in the
    order of their first registration since the registry was last emptied:
    notifications, ticks and every other event leave the order alone, and a
    repeated registration replaces the record where it stands.  The row a
    tick logs and the columns of the export list the registry in that very
    order. *)
Theorem registry_keeps_registration_order
  (pow : Number -> Number -> Number) (evs : list Glove.Event) :
  (forall st : Glove.State,
     map_keys (Glove.characteristicList (Glove.run pow st evs)) =
     fold_left Spec.first_seen (Spec.registry_ops pow st evs)
               (map_keys (Glove.characteristicList st))) /\
  (forall (st : Glove.State) (uuid : string) (value : DataView),
     map_keys (Glove.characteristicList
                 (Glove.step pow st (Glove.Notification uuid value))) =
     map_keys (Glove.characteristicList st)) /\
  (forall (st : Glove.State) (r : Glove.PendingRead) (dv : DataView),
     let st' := snd (Glove.onValueRead pow r dv st) in
     (existsb (String.eqb (Glove.p_uuid r))
              (map_keys (Glove.characteristicList st)) = true ->
      map_keys (Glove.characteristicList st') =
      map_keys (Glove.characteristicList st)) /\
     exists entry : Value,
       map_get String.eqb (Glove.characteristicList st') (Glove.p_uuid r) =
       Some {| Glove.name := Glove.p_name r;
               Glove.serviceName := Glove.p_serviceName r;
               Glove.lastEntry := entry |}) /\
  (let st := Glove.run pow Glove.initial evs in
   NoDup (map_keys (Glove.characteristicList st)) /\
   map_keys (Glove.snapshot (Glove.characteristicList st)) =
     map_keys (Glove.characteristicList st) /\
   fst (Glove.printLog st) =
     Normal (Spec.export (Glove.presInfoCache st)
                         (Glove.characteristicList st) (Glove.log st))).
Proof.
  split; [intros st; apply run_registry |].
  split; [intros st uuid value; apply (step_registry pow st) |].
  split.
  - intros st r dv st'. subst st'.
    destruct (onValueRead_registers pow r dv st) as [Hk He].
    split; [| exact He].
    intros Hin. rewrite Hk. apply add_new_present, Hin.
  - cbv zeta.
    assert (N : NoDup (map_keys (Glove.characteristicList
                                   (Glove.run pow Glove.initial evs)))).
    { rewrite run_registry. apply first_seen_NoDup. constructor. }
    split; [exact N |].
    split; [apply snapshot_keys, N |].
    rewrite printLog_export. reflexivity.
Qed.

Lemma registry_keeps_registration_order_witness :
  existsb (String.eqb (Glove.p_uuid Session.battery_read))
          (map_keys (Glove.characteristicList Session.battery_registered)) =
    true /\
  map_keys (Glove.characteristicList
              (snd (Glove.onValueRead Host.exponentiate Session.battery_read
                      [x4f] Session.battery_registered))) =
  map_keys (Glove.characteristicList Session.battery_registered).
Proof.
  split; [reflexivity |].
  apply (proj1 (proj2 (proj2 (registry_keeps_registration_order
                                Host.exponentiate [])))
               Session.battery_registered Session.battery_read [x4f]).
  reflexivity.
Defined.

(** ** The log accumulator of the later revision *)

Section Later.
Local Open Scope string_scope.

Lemma map_get_cache_of (rl : Map string Part000.CharacteristicInfo)
  (uuid : string) :
  map_get String.eqb (Spec.cache_of rl) uuid =
  match map_get String.eqb rl uuid with
  | Some info => Some (Part000.presInfo info)
  | None => None
  end.
Proof.
  unfold Spec.cache_of.
  induction rl as [| [k info] rl IH]; cbn [map map_get fst snd];
    [reflexivity |].
  destruct (String.eqb k uuid); [reflexivity | exact IH].
Qed.

Lemma map_keys_registry_of (rl : Map string Part000.CharacteristicInfo) :
  map_keys (Spec.registry_of rl) = map_keys rl.
Proof.
  unfold Spec.registry_of, map_keys. rewrite map_map. reflexivity.
Qed.

Lemma printHeader_columns_later
  (registry cl : Map string Part000.CharacteristicInfo) (a1 a2 a3 : string) :
  Part000.printHeader registry cl (a1, a2, a3) =
  (Normal
     (a1 ++ Spec.join (map (fun c => Part000.serviceName (snd c) ++ ",") cl),
      a2 ++ Spec.join (map (fun c => Part000.name (snd c) ++ ",") cl),
      a3 ++ Spec.join (map (fun f => f ++ ",")
                           (map (Spec.column_unit (Spec.cache_of registry))
                                (map_keys cl)))),
   Spec.export_warnings (Spec.cache_of registry) (Spec.registry_of cl)).
Proof.
  revert a1 a2 a3.
  induction cl as [| [uuid info] cl IH]; intros a1 a2 a3.
  - cbn. rewrite !append_empty_r. reflexivity.
  - cbn [Part000.printHeader].
    unfold Spec.export_warnings in *. rewrite map_keys_registry_of in *.
    unfold Spec.column_unit, Spec.unit_label, Part000.getUnitString,
      Part000.unit.
    cbn [map_keys map fst snd flat_map Spec.join fold_right].
    rewrite map_get_cache_of.
    destruct (map_get String.eqb registry uuid) as [p |];
      [destruct (map_get Z.eqb Part000.BLE_UNITS
                         (Glove.unit (Part000.presInfo p))) as [label |] eqn:E;
       change Part000.BLE_UNITS with Glove.BLE_UNITS in E; rewrite E |];
      cbn [bind ret console_log]; rewrite IH; cbn [app];
      rewrite ?append_assoc, ?append_empty_r; reflexivity.
Qed.

Lemma printRow_cells_later (cl : Map string Part000.CharacteristicInfo)
  (logEntry : Map string Value) (csv : string) :
  Part000.printRow cl logEntry csv =
  csv ++ Spec.join (map (fun f => f ++ ",")
                        (map (Spec.cell logEntry) (map_keys cl))).
Proof.
  unfold Part000.printRow. revert csv.
  induction cl as [| [uuid info] cl IH]; intros csv;
    cbn [fold_left map_keys map fst Spec.join fold_right].
  - rewrite append_empty_r. reflexivity.
  - rewrite IH. unfold Spec.cell at 2.
    destruct (map_get String.eqb logEntry uuid);
      rewrite ?append_assoc; reflexivity.
Qed.

Lemma printLog_rows_later (cl : Map string Part000.CharacteristicInfo)
  (log : Map string (Map string Value)) (csv : string) :
  fold_left (fun csv '(timestamp, logEntry) =>
               let csv := csv ++ newline ++ timestamp ++ "," in
               Part000.printRow cl logEntry csv) log csv ++ newline =
  csv ++ newline ++ Spec.csv_text (Spec.data_rows (Spec.registry_of cl) log).
Proof.
  revert csv. induction log as [| [ts row] log IH]; intros csv;
    cbn [fold_left Spec.data_rows map Spec.csv_text Spec.join fold_right].
  - rewrite append_empty_r. reflexivity.
  - cbv zeta. rewrite IH, printRow_cells_later.
    unfold Spec.csv_row, Spec.csv_text, Spec.data_rows.
    cbn [fst snd]. rewrite !map_keys_registry_of.
    rewrite !append_assoc. reflexivity.
Qed.

Lemma printLog_export_later (st : Part000.State) :
  let rl := Part000.readCharacteristicList st in
  Part000.printLog st =
  (Normal (Spec.export (Spec.cache_of rl) (Spec.registry_of rl)
                       (Part000.log st)),
   Spec.export_warnings (Spec.cache_of rl) (Spec.registry_of rl)).
Proof.
  cbv zeta. unfold Part000.printLog. rewrite printHeader_columns_later.
  cbn [bind ret fst snd]. f_equal.
  - f_equal. rewrite printLog_rows_later.
    unfold Spec.export, Spec.csv_text, Spec.header_rows, Spec.csv_row.
    rewrite map_app, join_app.
    cbn [map Spec.join fold_right].
    rewrite ?append_assoc, ?append_empty_r.
    rewrite map_keys_registry_of. unfold Spec.registry_of.
    rewrite !map_map. reflexivity.
  - rewrite app_nil_r. reflexivity.
Qed.

Lemma logStop_effect_later (st : Part000.State) :
  let rl := Part000.readCharacteristicList st in
  Part000.logStop st =
  let running := Part000.clearInterval (Part000.logTimer st)
                                       (Part000.intervals st) in
  if (0 <? map_size (Part000.log st))%Z then
    {| Part000.readCharacteristicList := rl;
       Part000.log := Part000.log st;
       Part000.logTimer := Part000.logTimer st;
       Part000.intervals := running;
       Part000.nextTimer := Part000.nextTimer st;
       Part000.console :=
         (Part000.console st ++
          Spec.export_warnings (Spec.cache_of rl) (Spec.registry_of rl))%list;
       Part000.downloads :=
         (Part000.downloads st ++
          [Spec.export (Spec.cache_of rl) (Spec.registry_of rl)
                       (Part000.log st)])%list |}
  else
    {| Part000.readCharacteristicList := rl;
       Part000.log := Part000.log st;
       Part000.logTimer := Part000.logTimer st;
       Part000.intervals := running;
       Part000.nextTimer := Part000.nextTimer st;
       Part000.console := Part000.console st;
       Part000.downloads := Part000.downloads st |}.
Proof.
  cbv zeta. unfold Part000.logStop. rewrite printLog_export_later.
  reflexivity.
Qed.

End Later.

(** ** The export, row by row *)

Lemma csv_text_ends_with_newline (rows : list string) :
  rows <> [] -> exists body : string, Spec.csv_text rows = (body ++ newline)%string.
Proof.
  intros H. destruct (exists_last H) as (front & last & ->).
  exists (Spec.csv_text front ++ last)%string.
  unfold Spec.csv_text. rewrite map_app, join_app.
  cbn [map Spec.join fold_right].
  rewrite append_empty_r, append_assoc. reflexivity.
Qed.

Lemma count_char_app (c : ascii) (a b : string) :
  Spec.count_char c (a ++ b) =
  (Spec.count_char c a + Spec.count_char c b)%nat.
Proof.
  induction a as [| x a IH]; cbn [append Spec.count_char]; [reflexivity |].
  rewrite IH. lia.
Qed.

Lemma plain_counts (s : string) :
  Spec.plain s = true ->
  Spec.count_char ","%char s = 0%nat /\
  Spec.count_char (ascii_of_nat 10) s = 0%nat.
Proof.
  unfold Spec.plain. intros H. apply andb_true_iff in H as [H1 H2].
  apply Nat.eqb_eq in H1, H2. split; assumption.
Qed.

Lemma csv_row_counts (timestamp : string) (fields : list string) :
  Spec.plain timestamp = true ->
  forallb Spec.plain fields = true ->
  Spec.count_char ","%char (Spec.csv_row timestamp fields) =
    S (List.length fields) /\
  Spec.count_char (ascii_of_nat 10) (Spec.csv_row timestamp fields) = 0%nat.
Proof.
  intros Ht Hf. apply plain_counts in Ht as [T1 T2].
  unfold Spec.csv_row. rewrite !count_char_app, T1, T2.
  change (Spec.count_char ","%char ","%string) with 1%nat.
  change (Spec.count_char (ascii_of_nat 10) ","%string) with 0%nat.
  induction fields as [| f fields IH];
    cbn [map Spec.join fold_right List.length forallb] in *;
    [split; reflexivity |].
  apply andb_true_iff in Hf as [Hf Hfs].
  apply plain_counts in Hf as [F1 F2].
  destruct (IH Hfs) as [IH1 IH2].
  rewrite !count_char_app, F1, F2.
  change (Spec.count_char ","%char ","%string) with 1%nat.
  change (Spec.count_char (ascii_of_nat 10) ","%string) with 0%nat.
  unfold Spec.join in IH1, IH2. split; lia.
Qed.

Lemma map_get_In {K V : Type} (eqb : K -> K -> bool) (m : Map K V) (k : K)
  (v : V) :
  map_get eqb m k = Some v -> In v (map snd m).
Proof.
  induction m as [| [k0 v0] m IH]; cbn [map_get map snd]; [discriminate |].
  destruct (eqb k0 k).
  - intros [= ->]. left. reflexivity.
  - intros H. right. apply IH, H.
Qed.

Lemma plain_unit_label (u : Z) : Spec.plain (Spec.unit_label u) = true.
Proof.
  assert (E : forallb Spec.plain (map snd Glove.BLE_UNITS) = true)
    by (vm_compute; reflexivity).
  rewrite forallb_forall in E. unfold Spec.unit_label.
  destruct (map_get Z.eqb Glove.BLE_UNITS u) as [label |] eqn:H;
    [| reflexivity].
  apply E, (map_get_In _ _ _ _ H).
Qed.

Lemma plain_column_unit (cache : Map string Glove.PresInfo) (uuid : string) :
  Spec.plain (Spec.column_unit cache uuid) = true.
Proof.
  unfold Spec.column_unit.
  destruct (map_get String.eqb cache uuid);
    [apply plain_unit_label | reflexivity].
Qed.

Lemma plain_cell (logEntry : Map string Value) (uuid : string) :
  forallb (fun e => Spec.plain (ToString (snd e))) logEntry = true ->
  Spec.plain (Spec.cell logEntry uuid) = true.
Proof.
  intros H. rewrite forallb_forall in H. unfold Spec.cell.
  destruct (map_get String.eqb logEntry uuid) as [v |] eqn:E;
    [| reflexivity].
  apply map_get_In, in_map_iff in E as ([k v'] & Hv & Hin).
  cbn [snd] in Hv. subst v'. apply (H _ Hin).
Qed.

Lemma forallb_map {A B : Type} (f : B -> bool) (g : A -> B) (l : list A) :
  forallb f (map g l) = forallb (fun x => f (g x)) l.
Proof.
  induction l as [| x l IH]; cbn [map forallb]; [reflexivity |].
  rewrite IH. reflexivity.
Qed.

Lemma export_rows_rectangular (cache : Map string Glove.PresInfo)
  (registry : Map string Glove.CharacteristicInfo)
  (log : Map string (Map string Value)) :
  forallb (fun c => Spec.plain (Glove.name (snd c)) &&
                    Spec.plain (Glove.serviceName (snd c))) registry = true ->
  forallb (fun row => Spec.plain (fst row) &&
                      forallb (fun e => Spec.plain (ToString (snd e)))
                              (snd row)) log = true ->
  Forall (fun r => Spec.count_char ","%char r = S (List.length registry) /\
                   Spec.count_char (ascii_of_nat 10) r = 0%nat)
         (Spec.header_rows cache registry ++ Spec.data_rows registry log).
Proof.
  intros Hreg Hlog. rewrite forallb_forall in Hreg.
  assert (Hn : forallb Spec.plain
                 (map (fun c => Glove.name (snd c)) registry) = true).
  { rewrite forallb_map. apply forallb_forall. intros c Hc.
    apply Hreg in Hc. apply andb_true_iff in Hc. tauto. }
  assert (Hs : forallb Spec.plain
                 (map (fun c => Glove.serviceName (snd c)) registry) = true).
  { rewrite forallb_map. apply forallb_forall. intros c Hc.
    apply Hreg in Hc. apply andb_true_iff in Hc. tauto. }
  assert (Hu : forallb Spec.plain
                 (map (Spec.column_unit cache) (map_keys registry)) = true).
  { rewrite forallb_map. apply forallb_forall. intros c _.
    apply plain_column_unit. }
  apply Forall_app. split.
  - unfold Spec.header_rows. repeat constructor.
    + rewrite (proj1 (csv_row_counts "Timestamp"%string _ eq_refl Hs)).
      rewrite length_map. reflexivity.
    + apply (csv_row_counts "Timestamp"%string _ eq_refl Hs).
    + rewrite (proj1 (csv_row_counts EmptyString _ eq_refl Hn)), length_map.
      reflexivity.
    + apply (csv_row_counts EmptyString _ eq_refl Hn).
    + rewrite (proj1 (csv_row_counts EmptyString _ eq_refl Hu)).
      unfold map_keys. rewrite !length_map. reflexivity.
    + apply (csv_row_counts EmptyString _ eq_refl Hu).
  - unfold Spec.data_rows. apply Forall_map, Forall_forall.
    intros row Hrow. rewrite forallb_forall in Hlog.
    apply Hlog in Hrow. apply andb_true_iff in Hrow as [Ht Hv].
    assert (Hc : forallb Spec.plain
                   (map (Spec.cell (snd row)) (map_keys registry)) = true).
    { rewrite forallb_map. apply forallb_forall. intros c _.
      apply plain_cell, Hv. }
    destruct (csv_row_counts _ _ Ht Hc) as [C1 C2]. cbv beta.
    split; [| exact C2]. etransitivity; [exact C1 |]. unfold map_keys.
    rewrite !length_map. reflexivity.
Qed.

Lemma split_on_cons (c : ascii) (x rest : string) :
  Spec.count_char c x = 0%nat ->
  Spec.split_on c (x ++ String c rest) = x :: Spec.split_on c rest.
Proof.
  induction x as [| a x IH]; cbn [append Spec.split_on Spec.count_char].
  - intros _. rewrite Ascii.eqb_refl. reflexivity.
  - destruct (Ascii.eqb a c); [intros H; lia |].
    intros H. rewrite IH by exact H. reflexivity.
Qed.

(** Pieces each ended by the separator and free of it are what the split
    finds, with one empty piece after the last separator. *)
Lemma split_on_terminated (c : ascii) (items : list string) :
  Forall (fun x => Spec.count_char c x = 0%nat) items ->
  Spec.split_on c
    (Spec.join (map (fun x => (x ++ String c EmptyString)%string) items)) =
  (items ++ [EmptyString])%list.
Proof.
  induction 1 as [| x items Hx _ IH]; [reflexivity |].
  cbn [map Spec.join fold_right app].
  fold (Spec.join (map (fun x => (x ++ String c EmptyString)%string) items)).
  rewrite append_assoc. cbn [append].
  rewrite (split_on_cons c x _ Hx), IH. reflexivity.
Qed.

Lemma read_row (timestamp : string) (fields : list string) :
  Spec.plain timestamp = true ->
  forallb Spec.plain fields = true ->
  removelast (Spec.split_on ","%char (Spec.csv_row timestamp fields)) =
  timestamp :: fields.
Proof.
  intros Ht Hf.
  assert (E : Spec.csv_row timestamp fields =
              Spec.join (map (fun x => (x ++ String ","%char EmptyString)%string)
                             (timestamp :: fields))).
  { unfold Spec.csv_row. cbn [map Spec.join fold_right].
    rewrite append_assoc. reflexivity. }
  rewrite E, split_on_terminated.
  - apply (removelast_last (timestamp :: fields)).
  - constructor; [apply plain_counts, Ht |].
    apply Forall_forall. intros f Hin. rewrite forallb_forall in Hf.
    apply plain_counts, Hf, Hin.
Qed.

(** The export of plain fields reads back as the table. *)
Lemma read_csv_export (cache : Map string Glove.PresInfo)
  (registry : Map string Glove.CharacteristicInfo)
  (log : Map string (Map string Value)) :
  Spec.plain_registry registry = true ->
  Spec.plain_log log = true ->
  Spec.read_csv (Spec.export cache registry log) =
  Spec.csv_table cache registry log.
Proof.
  intros Hreg Hlog.
  pose proof (export_rows_rectangular cache registry log Hreg Hlog) as Hrect.
  unfold Spec.read_csv, Spec.export, Spec.csv_text, newline.
  rewrite split_on_terminated.
  2:{ eapply Forall_impl; [| exact Hrect]. intros r [_ Hr]. exact Hr. }
  rewrite removelast_last, map_app. unfold Spec.csv_table. f_equal.
  - unfold Spec.plain_registry in Hreg. rewrite forallb_forall in Hreg.
    unfold Spec.header_rows. cbn [map].
    rewrite !read_row; try reflexivity.
    + rewrite forallb_map. apply forallb_forall. intros c _.
      apply plain_column_unit.
    + rewrite forallb_map. apply forallb_forall. intros c Hc.
      apply Hreg in Hc. apply andb_true_iff in Hc. tauto.
    + rewrite forallb_map. apply forallb_forall. intros c Hc.
      apply Hreg in Hc. apply andb_true_iff in Hc. tauto.
  - unfold Spec.data_rows. rewrite map_map. apply map_ext_in.
    intros row Hrow. unfold Spec.plain_log in Hlog.
    rewrite forallb_forall in Hlog. apply Hlog in Hrow.
    apply andb_true_iff in Hrow as [Ht Hv].
    apply read_row; [exact Ht |].
    rewrite forallb_map. apply forallb_forall. intros c _.
    apply plain_cell, Hv.
Qed.

(** C7, as it is stated, fails on a registry whose device names a
    characteristic with a comma in it: the battery level named
    "Level, battery", registered and logged once, is exported with the name
    unquoted, so the second header row reads as three fields where the
    table has two, and the columns no longer line up. *)
Lemma printLog_comma_shifts_columns :
  Spec.plain_fields Session.comma_named = false /\
  exists text : string,
    fst (Glove.printLog Session.comma_named) = Normal text /\
    Spec.read_csv text <>
      Spec.csv_table (Glove.presInfoCache Session.comma_named)
                     (Glove.characteristicList Session.comma_named)
                     (Glove.log Session.comma_named) /\
    Spec.read_csv text =
      [ ["Timestamp"; "Battery"];
        [""; "Level"; " battery"];
        [""; "%"];
        ["2025/01/05 09:03:07"; "80"] ]%string.
Proof.
  split; [vm_compute; reflexivity |].
  exists (Spec.csv_text
            [ "Timestamp,Battery,"; ",Level, battery,"; ",%,";
              "2025/01/05 09:03:07,80," ]%string).
  split; [vm_compute; reflexivity |].
  split; [vm_compute; discriminate | vm_compute; reflexivity].
Qed.

(** C7, amended. The text [printLog] returns is the three header rows (the
    first led by "Timestamp" and listing the service names, the second and
    the third led by an empty field and listing the characteristic names and
    the unit labels), then one row for each timestamp of the log in the
    order of the log; every row lists the columns in the order of the
    registry, a characteristic missing from a row leaves its field empty,
    and every row, the last one too, ends with a newline.  [printLog]
    completes normally and leaves the registry and the log as they were.
    Where no name, no timestamp and no value holds a comma or a newline, the
    text read as CSV is that table, row for row and field for field;
    [printLog] quotes nothing, so no more can be said of other fields.
    Both revisions of the script. *)
Theorem printLog_csv :
  (forall st : Glove.State,
     fst (Glove.printLog st) =
       Normal (Spec.export (Glove.presInfoCache st)
                           (Glove.characteristicList st) (Glove.log st)) /\
     Glove.characteristicList (snd (Glove.printLog st)) =
       Glove.characteristicList st /\
     Glove.log (snd (Glove.printLog st)) = Glove.log st) /\
  (forall st : Part000.State,
     let rl := Part000.readCharacteristicList st in
     fst (Part000.printLog st) =
       Normal (Spec.export (Spec.cache_of rl) (Spec.registry_of rl)
                           (Part000.log st))) /\
  (forall (cache : Map string Glove.PresInfo)
          (registry : Map string Glove.CharacteristicInfo)
          (log : Map string (Map string Value)),
     let ids := map_keys registry in
     Spec.export cache registry log =
       Spec.csv_text
         ([ Spec.csv_row "Timestamp"
              (map (fun c => Glove.serviceName (snd c)) registry);
            Spec.csv_row EmptyString
              (map (fun c => Glove.name (snd c)) registry);
            Spec.csv_row EmptyString (map (Spec.column_unit cache) ids) ]
          ++ map (fun row =>
                    Spec.csv_row (fst row) (map (Spec.cell (snd row)) ids))
                 log) /\
     List.length (Spec.data_rows registry log) = List.length log /\
     exists body : string,
       Spec.export cache registry log = (body ++ newline)%string) /\
  (forall (logEntry : Map string Value) (uuid : string),
     map_get String.eqb logEntry uuid = None ->
     Spec.cell logEntry uuid = EmptyString) /\
  (forall st : Glove.State,
     Spec.plain_fields st = true ->
     exists text : string,
       fst (Glove.printLog st) = Normal text /\
       Spec.read_csv text =
         Spec.csv_table (Glove.presInfoCache st) (Glove.characteristicList st)
                        (Glove.log st) /\
       List.length (Spec.read_csv text) = (3 + List.length (Glove.log st))%nat) /\
  (forall st : Part000.State,
     let rl := Part000.readCharacteristicList st in
     Spec.plain_registry (Spec.registry_of rl) = true ->
     Spec.plain_log (Part000.log st) = true ->
     exists text : string,
       fst (Part000.printLog st) = Normal text /\
       Spec.read_csv text =
         Spec.csv_table (Spec.cache_of rl) (Spec.registry_of rl)
                        (Part000.log st)).
Proof.
  split; [| split; [| split; [| split; [| split]]]].
  - intros st. rewrite printLog_export. cbn [fst snd]. repeat split.
  - intros st rl. subst rl. rewrite printLog_export_later. reflexivity.
  - intros cache registry log ids. split; [reflexivity |]. split.
    + unfold Spec.data_rows. apply length_map.
    + apply csv_text_ends_with_newline. discriminate.
  - intros logEntry uuid H. unfold Spec.cell. rewrite H. reflexivity.
  - intros st H. unfold Spec.plain_fields in H.
    apply andb_true_iff in H as [Hreg Hlog].
    exists (Spec.export (Glove.presInfoCache st) (Glove.characteristicList st)
                        (Glove.log st)).
    rewrite printLog_export. cbn [fst]. split; [reflexivity |].
    rewrite (read_csv_export _ _ _ Hreg Hlog).
    split; [reflexivity |].
    unfold Spec.csv_table. rewrite length_app, length_map. reflexivity.
  - intros st rl Hreg Hlog. subst rl.
    exists (Spec.export
              (Spec.cache_of (Part000.readCharacteristicList st))
              (Spec.registry_of (Part000.readCharacteristicList st))
              (Part000.log st)).
    rewrite printLog_export_later. cbn [fst]. split; [reflexivity |].
    apply read_csv_export; assumption.
Qed.

Lemma printLog_csv_witness :
  Spec.plain_fields Session.stopped = true /\
  exists text : string,
    fst (Glove.printLog Session.stopped) = Normal text /\
    Spec.read_csv text =
      [ ["Timestamp"; "Battery"; "Env"];
        [""; "Level"; "Temperature"];
        [""; "%"; "Â°C"];
        ["2025/01/05 09:03:07"; "80"; "23.45"];
        ["2025/01/05 09:03:08"; "80"; "23.45"] ]%string.
Proof.
  assert (H : Spec.plain_fields Session.stopped = true)
    by (vm_compute; reflexivity).
  split; [exact H |].
  destruct (proj1 (proj2 (proj2 (proj2 (proj2 printLog_csv))))
              Session.stopped H) as (text & Ht & Hr & _).
  exists text. split; [exact Ht |]. rewrite Hr. vm_compute. reflexivity.
Defined.

(** ** The log *)

Lemma printTimestamp_same_second (a b : Date) :
  Spec.same_second a b -> Glove.printTimestamp a = Glove.printTimestamp b.
Proof.
  destruct a, b. unfold Spec.same_second. cbn.
  intros (-> & -> & -> & -> & -> & ->). reflexivity.
Qed.


Lemma step_log_row (pow : Number -> Number -> Number) (st : Glove.State)
  (ev : Glove.Event) (timestamp : string) :
  map_get String.eqb (Glove.log (Glove.step pow st ev)) timestamp =
  fold_left (Spec.row_after timestamp) (Spec.log_op st ev)
            (map_get String.eqb (Glove.log st) timestamp).
Proof.
  rewrite step_log.
  destruct ev; cbn [Spec.log_op fold_left]; try reflexivity.
  destruct (existsb (Nat.eqb timer) (Glove.intervals st));
    cbn [fold_left Spec.row_after]; [| reflexivity].
  destruct (String.eqb_spec (Glove.printTimestamp now) timestamp) as [<- | Hne].
  - apply map_get_set_same.
  - apply map_get_set_other. apply String.eqb_neq. exact Hne.
Qed.







(** ** Start and stop *)

Lemma clearInterval_cancels (id : nat) (l : list nat) :
  ~ In id (filter (fun i => negb (Nat.eqb i id)) l).
Proof.
  intros H. apply filter_In in H as [_ H].
  rewrite Nat.eqb_refl in H. discriminate.
Qed.

(** C9, as it is stated, fails on the log of a session: the stop exports
    it and leaves its two rows in place. *)
Lemma logStop_leaves_log_populated :
  List.length (Glove.downloads Session.stopped) = 1%nat /\
  map_size (Glove.log Session.stopped) = 2 /\
  Glove.log Session.stopped <> map_clear (Glove.log Session.stopped).
Proof. vm_compute. repeat split. discriminate. Qed.

(** C9, amended. [logStop] completes normally and ends the interval of
    [logTimer]; a log that is not empty is rendered by [printLog] and handed
    to [saveLog], an empty one is not; the stop leaves the log as it is, and
    it is the next [logStart] that empties it before it starts a fresh
    interval.  Both revisions of the script. *)
Theorem logStop_cancels_and_exports (st : Glove.State) :
  let st' := snd (Glove.logStop st) in
  fst (Glove.logStop st) = Normal tt /\
  (forall t : nat, Glove.logTimer st = Some t -> ~ In t (Glove.intervals st')) /\
  (0 < map_size (Glove.log st) ->
     Glove.downloads st' =
     (Glove.downloads st ++
      [Spec.export (Glove.presInfoCache st) (Glove.characteristicList st)
                   (Glove.log st)])%list) /\
  (map_size (Glove.log st) = 0 -> Glove.downloads st' = Glove.downloads st) /\
  Glove.log st' = Glove.log st /\
  (let started := snd (Glove.logStart st) in
   Glove.log started = [] /\
   Glove.logTimer started = Some (Glove.nextTimer st) /\
   In (Glove.nextTimer st) (Glove.intervals started)) /\
  (forall later : Part000.State,
     let rl := Part000.readCharacteristicList later in
     let later' := Part000.logStop later in
     (forall t : nat,
        Part000.logTimer later = Some t -> ~ In t (Part000.intervals later')) /\
     (0 < map_size (Part000.log later) ->
        Part000.downloads later' =
        (Part000.downloads later ++
         [Spec.export (Spec.cache_of rl) (Spec.registry_of rl)
                      (Part000.log later)])%list) /\
     (map_size (Part000.log later) = 0 ->
        Part000.downloads later' = Part000.downloads later) /\
     Part000.log later' = Part000.log later /\
     Part000.log (Part000.logStart later) = []).
Proof.
  cbv zeta. rewrite logStop_effect. cbn [fst snd].
  split; [reflexivity |]. split; [| split; [| split; [| split; [| split]]]];
    [| | | | |
     intros later; rewrite logStop_effect_later; cbv zeta;
     split; [| split; [| split; [| split]]];
     [ intros t Ht; rewrite Ht;
       destruct (0 <? map_size (Part000.log later)); cbn;
       apply clearInterval_cancels
     | intros H; apply Z.ltb_lt in H; rewrite H; reflexivity
     | intros H; rewrite H; reflexivity
     | destruct (0 <? map_size (Part000.log later)); reflexivity
     | reflexivity ] ].
  - intros t Ht. rewrite Ht.
    destruct (0 <? map_size (Glove.log st)); fields;
      apply clearInterval_cancels.
  - intros H. apply Z.ltb_lt in H. rewrite H.
    destruct (Glove.logTimer st); reflexivity.
  - intros H. rewrite H.
    destruct (Glove.logTimer st); reflexivity.
  - destruct (Glove.logTimer st), (0 <? map_size (Glove.log st)); reflexivity.
  - unfold Glove.logStart, Glove.setInterval. run_handler. fields.
    repeat split. apply in_or_app. right. left. reflexivity.
Qed.

Lemma logStop_cancels_and_exports_witness :
  (Glove.logTimer Session.logged_once = Some 0%nat /\
   ~ In 0%nat (Glove.intervals (snd (Glove.logStop Session.logged_once)))) /\
  (0 < map_size (Glove.log Session.logged_once) /\
   Glove.downloads (snd (Glove.logStop Session.logged_once)) =
   (Glove.downloads Session.logged_once ++
    [Spec.export (Glove.presInfoCache Session.logged_once)
                 (Glove.characteristicList Session.logged_once)
                 (Glove.log Session.logged_once)])%list) /\
  (map_size (Glove.log Glove.initial) = 0 /\
   Glove.downloads (snd (Glove.logStop Glove.initial)) =
   Glove.downloads Glove.initial).
Proof.
  assert (Ht : Glove.logTimer Session.logged_once = Some 0%nat)
    by (vm_compute; reflexivity).
  assert (Hl : 0 < map_size (Glove.log Session.logged_once))
    by (vm_compute; reflexivity).
  assert (He : map_size (Glove.log Glove.initial) = 0) by reflexivity.
  split; [split; [exact Ht |] | split; [split; [exact Hl |] | split; [exact He |]]].
  - exact (proj1 (proj2 (logStop_cancels_and_exports Session.logged_once))
             0%nat Ht).
  - exact (proj1 (proj2 (proj2
             (logStop_cancels_and_exports Session.logged_once))) Hl).
  - exact (proj1 (proj2 (proj2 (proj2
             (logStop_cancels_and_exports Glove.initial)))) He).
Defined.

(** The session end to end: the battery level and the temperature
    register, 80 and 2345 are read, two ticks a second apart are logged, and
    the stop exports three header rows and two data rows. *)
Example session_export :
  Glove.downloads Session.stopped =
  [Spec.csv_text
     [ "Timestamp,Battery,Env,"%string;
       ",Level,Temperature,"%string;
       ",%,Â°C,"%string;
       "2025/01/05 09:03:07,80,23.45,"%string;
       "2025/01/05 09:03:08,80,23.45,"%string ]].
Proof. vm_compute. reflexivity. Qed.

(** ** Beyond the contracts: the codec on every input *)

Lemma supported_code (c : Z) :
  Spec.supported c = true -> exists f : Spec.Format, c = Spec.code f.
Proof.
  unfold Spec.supported. intros H. apply existsb_exists in H.
  destruct H as (f & _ & Hf). exists f. apply Z.eqb_eq in Hf. congruence.
Qed.

Lemma decoded_kind (pow : Number -> Number -> Number) (f : Spec.Format)
  (e : Z) (dv : DataView) (b : bool) :
  Spec.decoded pow f e dv = DBool b -> f = Spec.Boolean.
Proof. destruct f; cbn; congruence. Qed.

Lemma readValue_outcome (pow : Number -> Number -> Number)
  (dv : DataView) (p : Glove.PresInfo) :
  exists (d : Decoded) (msgs : list Message),
    Glove.readValue pow dv p = (Normal d, msgs) /\
    (List.length msgs <= 1)%nat /\
    match d with
    | DBool b =>
        Glove.format p = Glove.BLE_FORMAT_BOOLEAN /\ 1 <= byteLength dv /\
        msgs = [] /\ b = negb (Spec.byte_at dv 0 =? 0)
    | DNum _ => True
    end.
Proof.
  destruct (Spec.supported (Glove.format p)) eqn:Hs.
  - destruct (supported_code _ Hs) as [f Hf]. destruct p as [c e u].
    cbn [Glove.format] in *. subst c.
    destruct (Z.le_gt_cases (Spec.required_length f) (byteLength dv))
      as [Hl | Hl].
    + exists (Spec.decoded pow f e dv), [].
      split; [apply readValue_long_enough; exact Hl |].
      split; [cbn; lia |].
      destruct f; cbn [Spec.decoded]; try exact I.
      cbn [Spec.required_length] in Hl. repeat split; try assumption.
      f_equal. f_equal. unfold Spec.byte_at. change (Z.to_nat 1) with 1%nat.
      destruct dv; reflexivity.
    + exists (DNum (S754_zero false)), [Spec.length_mismatch].
      split; [apply readValue_too_short; lia |].
      split; [cbn; lia | exact I].
  - exists (DNum (S754_zero false)), [].
    split; [apply readValue_unsupported; exact Hs |].
    split; [cbn; lia | exact I].
Qed.

(** X1.  The guards of [readValue] keep every accessor within the view: whatever
    the format code and the buffer, it completes normally, with at most one
    line on the console, and it hands back a Boolean only when the format is
    Boolean and the buffer holds a byte. *)
Theorem readValue_never_throws (pow : Number -> Number -> Number)
  (dv : DataView) (p : Glove.PresInfo) :
  exists (d : Decoded) (msgs : list Message),
    Glove.readValue pow dv p = (Normal d, msgs) /\
    (List.length msgs <= 1)%nat /\
    match d with
    | DBool b =>
        Glove.format p = Glove.BLE_FORMAT_BOOLEAN /\ 1 <= byteLength dv /\
        msgs = [] /\ b = negb (Spec.byte_at dv 0 =? 0)
    | DNum _ => True
    end.
Proof. exact (readValue_outcome pow dv p). Qed.

Lemma toFixed_in_range (x : Number) (f : Z) :
  0 <= f <= 100 -> exists s : string, toFixed x f = Normal s.
Proof.
  intros Hf. unfold toFixed. cbv zeta.
  destruct (Z.ltb_spec f 0); [lia |].
  destruct (Z.ltb_spec 100 f); [lia |]. cbn [orb].
  destruct (negb (is_finite x)); [eexists; reflexivity |].
  destruct (magnitude x) as [nx dx].
  destruct (ten21 * dx <=? nx); eexists; reflexivity.
Qed.

Lemma formatValue_never_out_of_range_aux (p : Glove.PresInfo) :
  Glove.format p <> Glove.BLE_FORMAT_BOOLEAN ->
  (forall x : Number,
     exists s : string, Glove.formatValue (DNum x) p = Normal (VStr s)) /\
  (forall b : bool, Glove.formatValue (DBool b) p = Throw TypeError).
Proof.
  intros Hb. unfold Glove.formatValue.
  destruct (Z.eqb_spec (Glove.format p) Glove.BLE_FORMAT_BOOLEAN);
    [contradiction |].
  split; [| reflexivity].
  intros x. rewrite decimal_places_clamp.
  destruct (toFixed_in_range x (Spec.decimal_places (Glove.exponent p))
              (decimal_places_range _)) as [s Hs].
  exists s. rewrite Hs. reflexivity.
Qed.

(** X2.  The clamp of [formatValue] keeps [toFixed] within the digits it
    accepts: a Number is formatted to a string whatever the exponent and
    whatever the Number, an infinity or a NaN too.  A Boolean under a
    format that is not Boolean has no [toFixed] to call: a TypeError. *)
Theorem formatValue_never_out_of_range (p : Glove.PresInfo) :
  Glove.format p <> Glove.BLE_FORMAT_BOOLEAN ->
  (forall x : Number,
     exists s : string, Glove.formatValue (DNum x) p = Normal (VStr s)) /\
  (forall b : bool, Glove.formatValue (DBool b) p = Throw TypeError).
Proof. exact (formatValue_never_out_of_range_aux p). Qed.

Lemma formatValue_never_out_of_range_witness :
  Glove.format {| Glove.format := 0x14; Glove.exponent := -128;
                  Glove.unit := 0 |} <> Glove.BLE_FORMAT_BOOLEAN /\
  (exists s : string,
     Glove.formatValue (DNum (S754_infinity true))
       {| Glove.format := 0x14; Glove.exponent := -128; Glove.unit := 0 |} =
     Normal (VStr s)) /\
  Glove.formatValue (DBool true)
    {| Glove.format := 0x14; Glove.exponent := -128; Glove.unit := 0 |} =
  Throw TypeError.
Proof.
  assert (H : Glove.format {| Glove.format := 0x14; Glove.exponent := -128;
                              Glove.unit := 0 |} <> Glove.BLE_FORMAT_BOOLEAN)
    by (vm_compute; discriminate).
  split; [exact H |]. split.
  - exact (proj1 (formatValue_never_out_of_range _ H) (S754_infinity true)).
  - exact (proj2 (formatValue_never_out_of_range _ H) true).
Defined.

Lemma pipeline_outcome (pow : Number -> Number -> Number)
  (dv : DataView) (p : Glove.PresInfo) :
  exists (d : Decoded) (msgs : list Message) (v : Value),
    Glove.readValue pow dv p = (Normal d, msgs) /\
    Glove.formatValue d p = Normal v /\
    match v with
    | VStr _ => Glove.format p <> Glove.BLE_FORMAT_BOOLEAN
    | VBool b =>
        Glove.format p = Glove.BLE_FORMAT_BOOLEAN /\
        b = negb (Spec.byte_at dv 0 =? 0) /\ 1 <= byteLength dv
    | VNum x =>
        Glove.format p = Glove.BLE_FORMAT_BOOLEAN /\
        x = of_Z 0 /\ byteLength dv < 1
    end.
Proof.
  destruct (readValue_outcome pow dv p) as (d & msgs & Hr & _ & Hd).
  exists d, msgs.
  destruct (Z.eq_dec (Glove.format p) Glove.BLE_FORMAT_BOOLEAN) as [Hb | Hb].
  - exists (inject d). split; [exact Hr |].
    split; [unfold Glove.formatValue; rewrite Hb, Z.eqb_refl; reflexivity |].
    destruct d as [b | x]; cbn [inject].
    + destruct Hd as (_ & Hl & _ & Hbyte). repeat split; assumption.
    + split; [exact Hb |].
      destruct (Z.le_gt_cases 1 (byteLength dv)) as [Hl | Hl].
      * exfalso. destruct p as [c e u]. cbn [Glove.format] in Hb. subst c.
        pose proof (readValue_long_enough pow Spec.Boolean e u dv Hl) as E.
        change (Spec.code Spec.Boolean) with Glove.BLE_FORMAT_BOOLEAN in E.
        rewrite E in Hr. discriminate Hr.
      * split; [| lia]. destruct p as [c e u]. cbn [Glove.format] in Hb.
        subst c.
        assert (Hs : byteLength dv < Spec.required_length Spec.Boolean)
          by (cbn; lia).
        pose proof (readValue_too_short pow Spec.Boolean e u dv Hs) as E.
        change (Spec.code Spec.Boolean) with Glove.BLE_FORMAT_BOOLEAN in E.
        rewrite E in Hr. injection Hr as <- _. reflexivity.
  - destruct d as [b | x].
    + destruct Hd as (Hd & _). contradiction.
    + destruct (proj1 (formatValue_never_out_of_range_aux p Hb) x) as [s Hs].
      exists (VStr s). repeat split; assumption.
Qed.

(** X3.  [updateVal] formats what it has just read with the same presentation:
    the two never fail together.  The value shown is a string for every
    format but Boolean, a Boolean for a Boolean that could be read, and the
    Number 0 for a Boolean whose buffer was empty. *)
Theorem readValue_then_formatValue (pow : Number -> Number -> Number)
  (dv : DataView) (p : Glove.PresInfo) :
  exists (d : Decoded) (msgs : list Message) (v : Value),
    Glove.readValue pow dv p = (Normal d, msgs) /\
    Glove.formatValue d p = Normal v /\
    match v with
    | VStr _ => Glove.format p <> Glove.BLE_FORMAT_BOOLEAN
    | VBool b =>
        Glove.format p = Glove.BLE_FORMAT_BOOLEAN /\
        b = negb (Spec.byte_at dv 0 =? 0) /\ 1 <= byteLength dv
    | VNum x =>
        Glove.format p = Glove.BLE_FORMAT_BOOLEAN /\
        x = of_Z 0 /\ byteLength dv < 1
    end.
Proof. exact (pipeline_outcome pow dv p). Qed.

(** ** Round trips *)

Lemma byte_value_byte_of (z : Z) : byte_value (Spec.byte_of z) = z mod 256.
Proof.
  unfold Spec.byte_of, byte_value.
  pose proof (Z.mod_pos_bound z 256 ltac:(lia)) as Hm.
  destruct (Byte.of_N (Z.to_N (z mod 256))) as [b |] eqn:E.
  - apply Byte.to_of_N in E. rewrite E. lia.
  - apply Byte.of_N_None_iff in E. lia.
Qed.

Lemma byte_of_byte_value (b : byte) : Spec.byte_of (byte_value b) = b.
Proof.
  unfold Spec.byte_of.
  rewrite Z.mod_small by apply byte_value_range.
  unfold byte_value. rewrite N2Z.id, Byte.of_to_N. reflexivity.
Qed.

Lemma encode_le_cons (n : nat) (v : Z) :
  Spec.encode_le (S n) v = Spec.byte_of v :: Spec.encode_le n (v / 256).
Proof.
  unfold Spec.encode_le. rewrite <- cons_seq, <- seq_shift.
  cbn [map]. change (256 ^ Z.of_nat 0) with 1. rewrite Z.div_1_r. f_equal.
  rewrite map_map. apply map_ext. intros i.
  rewrite Nat2Z.inj_succ, Z.pow_succ_r by lia.
  rewrite Z.div_div by (try apply Z.pow_pos_nonneg; lia). reflexivity.
Qed.

Lemma length_encode_le (n : nat) (v : Z) :
  List.length (Spec.encode_le n v) = n.
Proof. unfold Spec.encode_le. rewrite length_map, length_seq. reflexivity. Qed.

(** Decoding the [n] low bytes of [v] gives [v] modulo [256^n]. *)
Lemma unsigned_le_encode (n : nat) (v : Z) :
  Spec.unsigned_le n (Spec.encode_le n v) = v mod 256 ^ Z.of_nat n.
Proof.
  revert v. induction n as [| n IH]; intros v.
  - cbn. rewrite Z.mod_1_r. reflexivity.
  - rewrite encode_le_cons, unsigned_le_cons, IH, byte_value_byte_of.
    rewrite Nat2Z.inj_succ, Z.pow_succ_r by lia.
    rewrite Z.rem_mul_r by (try apply Z.pow_nonzero; lia). reflexivity.
Qed.

(** Encoding what was decoded gives the bytes back. *)
Lemma encode_unsigned_le (bs : list byte) :
  Spec.encode_le (List.length bs) (le_unsigned bs) = bs.
Proof.
  induction bs as [| b bs IH]; [reflexivity |].
  cbn [List.length le_unsigned]. rewrite encode_le_cons. f_equal.
  - unfold Spec.byte_of.
    replace ((byte_value b + 256 * le_unsigned bs) mod 256)
      with (byte_value b).
    + unfold byte_value. rewrite N2Z.id, Byte.of_to_N. reflexivity.
    + pose proof (byte_value_range b).
      apply (Z.mod_unique_pos _ 256 (le_unsigned bs)); lia.
  - replace ((byte_value b + 256 * le_unsigned bs) / 256)
      with (le_unsigned bs); [exact IH |].
    pose proof (byte_value_range b).
    apply (Z.div_unique_pos _ 256 _ (byte_value b)); lia.
Qed.

Lemma twos_complement_mod (bits v : Z) :
  0 < bits -> - 2 ^ (bits - 1) <= v < 2 ^ (bits - 1) ->
  Spec.twos_complement bits (v mod 2 ^ bits) = v.
Proof.
  intros Hb Hv. unfold Spec.twos_complement.
  assert (Hp : 2 ^ bits = 2 * 2 ^ (bits - 1)).
  { replace bits with (Z.succ (bits - 1)) at 1 by lia.
    rewrite Z.pow_succ_r by lia. reflexivity. }
  rewrite Zplus_mod_idemp_l.
  rewrite Z.mod_small by lia. lia.
Qed.

Lemma twos_complement_range (bits u : Z) :
  0 < bits -> 0 <= u < 2 ^ bits ->
  - 2 ^ (bits - 1) <= Spec.twos_complement bits u < 2 ^ (bits - 1) /\
  Spec.twos_complement bits u mod 2 ^ bits = u.
Proof.
  intros Hb Hu.
  assert (Hp : 2 ^ bits = 2 * 2 ^ (bits - 1)).
  { replace bits with (Z.succ (bits - 1)) at 1 by lia.
    rewrite Z.pow_succ_r by lia. reflexivity. }
  rewrite twos_complement_cases by assumption.
  destruct (Z.leb_spec (2 ^ (bits - 1)) u).
  - split; [lia |].
    rewrite <- (Z.mod_unique_pos (u - 2 ^ bits) (2 ^ bits) (-1) u); lia.
  - split; [lia |]. apply Z.mod_small. lia.
Qed.

Lemma unsigned_le_nil (bs : list byte) : Spec.unsigned_le 0 bs = 0.
Proof. reflexivity. Qed.

Lemma encode_le_zero (v : Z) : Spec.encode_le 0 v = [].
Proof. reflexivity. Qed.

Lemma byte_of_mod (z : Z) : Spec.byte_of (z mod 256) = Spec.byte_of z.
Proof. unfold Spec.byte_of. rewrite Z.mod_mod by lia. reflexivity. Qed.

Lemma descriptor_fields_cons (b0 b1 b2 b3 : byte) (rest : list byte) :
  Spec.descriptor_fields (b0 :: b1 :: b2 :: b3 :: rest) =
  {| Glove.format := byte_value b0;
     Glove.exponent := Spec.twos_complement 8 (byte_value b1);
     Glove.unit := byte_value b2 + 256 * byte_value b3 |}.
Proof.
  unfold Spec.descriptor_fields. cbn [firstn skipn].
  change 2%nat with (S (S O)). change 1%nat with (S O).
  rewrite !unsigned_le_cons, !unsigned_le_nil.
  f_equal; try f_equal; lia.
Qed.

Lemma descriptor_round_trip_decode (dv : DataView) :
  7 <= byteLength dv ->
  exists p : Glove.PresInfo,
    Glove.readPresInfo dv = (Normal (Some p), []) /\
    0 <= Glove.format p <= 255 /\
    -128 <= Glove.exponent p <= 127 /\
    0 <= Glove.unit p <= 65535 /\
    Spec.encode_descriptor p = firstn 4 dv.
Proof.
  intros Hl. exists (Spec.descriptor_fields dv).
  split; [apply readPresInfo_long; exact Hl |].
  destruct dv as [| b0 [| b1 [| b2 [| b3 rest]]]];
    try (unfold byteLength in Hl; cbn in Hl; lia).
  rewrite descriptor_fields_cons. cbn [Glove.format Glove.exponent Glove.unit].
  pose proof (byte_value_range b0). pose proof (byte_value_range b1).
  pose proof (byte_value_range b2). pose proof (byte_value_range b3).
  destruct (twos_complement_range 8 (byte_value b1)) as [Hr Hm];
    [lia | change (2 ^ 8) with 256; lia |].
  change (2 ^ (8 - 1)) with 128 in Hr. change (2 ^ 8) with 256 in Hm.
  repeat (split; [lia |]).
  unfold Spec.encode_descriptor.
  cbn [Glove.format Glove.exponent Glove.unit].
  change 2%nat with (S (S O)). change 1%nat with (S O).
  rewrite !encode_le_cons, !encode_le_zero. cbn [app firstn].
  rewrite byte_of_byte_value.
  rewrite <- (byte_of_mod (Spec.twos_complement 8 (byte_value b1))), Hm.
  rewrite byte_of_byte_value.
  replace (Spec.byte_of (byte_value b2 + 256 * byte_value b3))
    with b2.
  - replace ((byte_value b2 + 256 * byte_value b3) / 256)
      with (byte_value b3).
    + rewrite byte_of_byte_value. reflexivity.
    + apply (Z.div_unique_pos _ 256 _ (byte_value b2)); lia.
  - rewrite <- byte_of_mod.
    replace ((byte_value b2 + 256 * byte_value b3) mod 256)
      with (byte_value b2).
    + rewrite byte_of_byte_value. reflexivity.
    + apply (Z.mod_unique_pos _ 256 (byte_value b3)); lia.
Qed.

Lemma descriptor_round_trip_encode (p : Glove.PresInfo) (rest : list byte) :
  0 <= Glove.format p <= 255 ->
  -128 <= Glove.exponent p <= 127 ->
  0 <= Glove.unit p <= 65535 ->
  (3 <= List.length rest)%nat ->
  Glove.readPresInfo (Spec.encode_descriptor p ++ rest) = (Normal (Some p), []).
Proof.
  intros Hf He Hu Hr.
  rewrite readPresInfo_long.
  2:{ unfold byteLength, Spec.encode_descriptor.
      rewrite !length_app, !length_encode_le. lia. }
  destruct p as [f e u]. cbn [Glove.format Glove.exponent Glove.unit] in *.
  unfold Spec.encode_descriptor.
  cbn [Glove.format Glove.exponent Glove.unit].
  change 2%nat with (S (S O)). change 1%nat with (S O).
  rewrite !encode_le_cons, !encode_le_zero. cbn [app].
  rewrite descriptor_fields_cons, !byte_value_byte_of.
  do 3 f_equal; f_equal.
  - apply Z.mod_small. lia.
  - apply (twos_complement_mod 8 e); [lia |].
    change (2 ^ (8 - 1)) with 128. lia.
  - rewrite <- Z.rem_mul_r by lia. apply Z.mod_small. lia.
Qed.

(** X4.  The three fields [readPresInfo] returns are a Uint8, an Int8 and a
    Uint16, and they hold the first four bytes of the descriptor and nothing
    else: encoding them gives those bytes back, and a descriptor that starts
    with the encoding of three such fields decodes to them. *)
Theorem readPresInfo_round_trip (dv : DataView) :
  7 <= byteLength dv ->
  (exists p : Glove.PresInfo,
     Glove.readPresInfo dv = (Normal (Some p), []) /\
     0 <= Glove.format p <= 255 /\
     -128 <= Glove.exponent p <= 127 /\
     0 <= Glove.unit p <= 65535 /\
     Spec.encode_descriptor p = firstn 4 dv) /\
  (forall p : Glove.PresInfo,
     0 <= Glove.format p <= 255 ->
     -128 <= Glove.exponent p <= 127 ->
     0 <= Glove.unit p <= 65535 ->
     Glove.readPresInfo (Spec.encode_descriptor p ++ skipn 4 dv) =
     (Normal (Some p), [])).
Proof.
  intros Hl. split; [apply descriptor_round_trip_decode; exact Hl |].
  intros p Hf He Hu. apply descriptor_round_trip_encode; try assumption.
  rewrite length_skipn. unfold byteLength in Hl. lia.
Qed.

Lemma readPresInfo_round_trip_witness :
  7 <= byteLength Session.temperature /\
  (exists p : Glove.PresInfo,
     Glove.readPresInfo Session.temperature = (Normal (Some p), []) /\
     0 <= Glove.format p <= 255 /\
     -128 <= Glove.exponent p <= 127 /\
     0 <= Glove.unit p <= 65535 /\
     Spec.encode_descriptor p = firstn 4 Session.temperature).
Proof.
  assert (H : 7 <= byteLength Session.temperature)
    by (vm_compute; discriminate).
  split; [exact H |].
  exact (proj1 (readPresInfo_round_trip Session.temperature H)).
Defined.

Lemma firstn_encode_le (n : nat) (v : Z) (extra : list byte) :
  firstn n (Spec.encode_le n v ++ extra) = Spec.encode_le n v.
Proof.
  rewrite firstn_app, length_encode_le, Nat.sub_diag, firstn_O, app_nil_r.
  apply firstn_all2. rewrite length_encode_le. lia.
Qed.

(** X5.  An integer within the range of its format, laid out little-endian in
    the bytes the format requires, is what [readValue] reads back, scaled;
    the bytes that follow play no part. *)
Theorem readValue_integer_round_trip (pow : Number -> Number -> Number)
  (f : Spec.Format) (lo hi e u v : Z) (extra : list byte) :
  Spec.integer_range f = Some (lo, hi) ->
  lo <= v <= hi ->
  Glove.readValue pow
    (Spec.encode_le (Z.to_nat (Spec.required_length f)) v ++ extra)
    {| Glove.format := Spec.code f; Glove.exponent := e; Glove.unit := u |} =
  (Normal (DNum (mul (of_Z v) (pow (of_Z 10) (of_Z e)))), []).
Proof.
  intros Hf Hv.
  rewrite readValue_long_enough.
  2:{ unfold byteLength. rewrite length_app, length_encode_le.
      destruct f; cbn; lia. }
  unfold Spec.decoded. rewrite firstn_encode_le.
  destruct f; cbn [Spec.integer_range] in Hf; try discriminate Hf;
    injection Hf as <- <-;
    cbn [Spec.raw_decode Spec.required_length];
    rewrite ?(unsigned_le_encode 1), ?(unsigned_le_encode 2),
      ?(unsigned_le_encode 4);
    do 5 f_equal.
  - apply Z.mod_small. change (256 ^ Z.of_nat 1) with (2 ^ 8). lia.
  - apply Z.mod_small. change (256 ^ Z.of_nat 2) with (2 ^ 16). lia.
  - apply Z.mod_small. change (256 ^ Z.of_nat 4) with (2 ^ 32). lia.
  - change (256 ^ Z.of_nat 1) with (2 ^ 8). apply twos_complement_mod;
      [lia |]. change (8 - 1) with 7. lia.
  - change (256 ^ Z.of_nat 2) with (2 ^ 16). apply twos_complement_mod;
      [lia |]. change (16 - 1) with 15. lia.
  - change (256 ^ Z.of_nat 4) with (2 ^ 32). apply twos_complement_mod;
      [lia |]. change (32 - 1) with 31. lia.
Qed.

Lemma readValue_integer_round_trip_witness :
  Spec.integer_range Spec.SInt16 = Some (- 2 ^ 15, 2 ^ 15 - 1) /\
  - 2 ^ 15 <= -2345 <= 2 ^ 15 - 1 /\
  Glove.readValue Host.exponentiate
    (Spec.encode_le (Z.to_nat (Spec.required_length Spec.SInt16)) (-2345)
     ++ [xff])
    {| Glove.format := Spec.code Spec.SInt16; Glove.exponent := -2;
       Glove.unit := 0x272F |} =
  (Normal (DNum (mul (of_Z (-2345))
                     (Host.exponentiate (of_Z 10) (of_Z (-2))))), []).
Proof.
  assert (Hf : Spec.integer_range Spec.SInt16 = Some (- 2 ^ 15, 2 ^ 15 - 1))
    by reflexivity.
  assert (Hv : - 2 ^ 15 <= -2345 <= 2 ^ 15 - 1) by lia.
  split; [exact Hf |]. split; [exact Hv |].
  exact (readValue_integer_round_trip Host.exponentiate Spec.SInt16
           (- 2 ^ 15) (2 ^ 15 - 1) (-2) 0x272F (-2345) [xff] Hf Hv).
Defined.

(** ** Beyond the contracts: value updates *)

Lemma getUnitString_label (p : Glove.PresInfo) :
  Glove.getUnitString p =
  (Normal (Spec.unit_label (Glove.unit p)),
   match map_get Z.eqb Glove.BLE_UNITS (Glove.unit p) with
   | Some _ => []
   | None => [Spec.unknown_unit (Glove.unit p)]
   end).
Proof.
  unfold Glove.getUnitString, Spec.unit_label.
  destruct (map_get Z.eqb Glove.BLE_UNITS (Glove.unit p)); reflexivity.
Qed.

(** What [updateVal] leaves behind when the cell is there. *)
Lemma updateVal_effect (pow : Number -> Number -> Number) (uuid : string)
  (dv : DataView) (p : Glove.PresInfo) (st : Glove.State) (cell : string)
  (d : Decoded) (msgs : list Message) (v : Value) :
  map_get String.eqb (Glove.cells st) uuid = Some cell ->
  Glove.readValue pow dv p = (Normal d, msgs) ->
  Glove.formatValue d p = Normal v ->
  Glove.updateVal pow uuid dv p st =
  (Normal tt,
   Glove.set_cells
     (fun c => map_set String.eqb c uuid
                 (ToString v ++ " " ++ Spec.unit_label (Glove.unit p))%string)
     (Glove.set_console
        (fun c => c ++ match map_get Z.eqb Glove.BLE_UNITS (Glove.unit p) with
                       | Some _ => []
                       | None => [Spec.unknown_unit (Glove.unit p)]
                       end)
        (match map_get String.eqb (Glove.characteristicList st) uuid with
         | Some info =>
             Glove.set_characteristicList
               (fun m => map_set String.eqb m uuid
                           {| Glove.name := Glove.name info;
                              Glove.serviceName := Glove.serviceName info;
                              Glove.lastEntry := v |})
               (Glove.set_console (fun c => c ++ msgs) st)
         | None => Glove.set_console (fun c => c ++ msgs) st
         end))).
Proof.
  intros Hc Hr Hf. unfold Glove.updateVal, Glove.cacheValue. run_handler.
  rewrite Hc, Hr. fields. rewrite Hf. fields.
  rewrite getUnitString_label. fields.
  destruct (map_get String.eqb (Glove.characteristicList st) uuid);
    reflexivity.
Qed.

(** X6.  A value update whose cell is in the document goes through: it shows
    the value read and formatted, followed by a space and the unit label,
    and stores it as the last entry of the characteristic when that one is
    registered; no other cell and no other record changes, and the registry
    of an unregistered identifier is left alone. *)
Theorem updateVal_shows_and_caches (pow : Number -> Number -> Number)
  (uuid : string) (dv : DataView) (p : Glove.PresInfo) (st : Glove.State)
  (cell : string) :
  map_get String.eqb (Glove.cells st) uuid = Some cell ->
  exists (d : Decoded) (msgs : list Message) (v : Value),
    Glove.readValue pow dv p = (Normal d, msgs) /\
    Glove.formatValue d p = Normal v /\
    fst (Glove.updateVal pow uuid dv p st) = Normal tt /\
    let st' := snd (Glove.updateVal pow uuid dv p st) in
    map_get String.eqb (Glove.cells st') uuid =
      Some (ToString v ++ " " ++ Spec.unit_label (Glove.unit p))%string /\
    match map_get String.eqb (Glove.characteristicList st) uuid with
    | Some info =>
        map_get String.eqb (Glove.characteristicList st') uuid =
        Some {| Glove.name := Glove.name info;
                Glove.serviceName := Glove.serviceName info;
                Glove.lastEntry := v |}
    | None => Glove.characteristicList st' = Glove.characteristicList st
    end /\
    map_keys (Glove.characteristicList st') =
      map_keys (Glove.characteristicList st) /\
    forall other : string,
      String.eqb uuid other = false ->
      map_get String.eqb (Glove.characteristicList st') other =
        map_get String.eqb (Glove.characteristicList st) other /\
      map_get String.eqb (Glove.cells st') other =
        map_get String.eqb (Glove.cells st) other.
Proof.
  intros Hc.
  destruct (pipeline_outcome pow dv p) as (d & msgs & v & Hr & Hf & _).
  exists d, msgs, v. split; [exact Hr |]. split; [exact Hf |].
  rewrite (updateVal_effect pow uuid dv p st cell d msgs v Hc Hr Hf).
  cbn [fst snd]. split; [reflexivity |]. fields.
  split; [apply map_get_set_same |].
  destruct (map_get String.eqb (Glove.characteristicList st) uuid)
    as [info |] eqn:E; fields.
  - split; [apply map_get_set_same |].
    split; [apply (map_keys_set_present _ _ _ _ E) |].
    intros other Ho. split; apply map_get_set_other; exact Ho.
  - split; [reflexivity |]. split; [reflexivity |].
    intros other Ho. split; [reflexivity |].
    apply map_get_set_other; exact Ho.
Qed.

Lemma updateVal_shows_and_caches_witness :
  map_get String.eqb (Glove.cells Session.battery_registered) "2a19"%string =
    Some "80 %"%string /\
  exists (d : Decoded) (msgs : list Message) (v : Value),
    Glove.readValue Host.exponentiate [x4f]
      (Glove.p_presInfo Session.battery_read) = (Normal d, msgs) /\
    Glove.formatValue d (Glove.p_presInfo Session.battery_read) = Normal v /\
    fst (Glove.updateVal Host.exponentiate "2a19" [x4f]
           (Glove.p_presInfo Session.battery_read)
           Session.battery_registered) = Normal tt.
Proof.
  assert (H : map_get String.eqb (Glove.cells Session.battery_registered)
                      "2a19"%string = Some "80 %"%string)
    by (vm_compute; reflexivity).
  split; [exact H |].
  destruct (updateVal_shows_and_caches Host.exponentiate "2a19" [x4f]
              (Glove.p_presInfo Session.battery_read)
              Session.battery_registered "80 %" H)
    as (d & msgs & v & Hr & Hf & Hn & _).
  exists d, msgs, v. split; [exact Hr |]. split; [exact Hf | exact Hn].
Defined.

(** X7.  Without its cell [updateVal] stops at the first line it runs: the
    branch names a variable bound nowhere, so the handler ends with a
    ReferenceError before anything is read, cached, shown or logged.  Once
    the page has handled a disconnection, which empties the document of its
    cells and keeps the cache, this is the lot of every notification of a
    cached characteristic. *)
Theorem notification_after_disconnect (pow : Number -> Number -> Number)
  (st : Glove.State) (device uuid : string) (value : DataView)
  (p : Glove.PresInfo) :
  map_get String.eqb (Glove.presInfoCache st) uuid = Some p ->
  let st' := Glove.step pow st (Glove.Disconnected device) in
  Glove.handler pow (Glove.Notification uuid value) st' =
  (Throw ReferenceError, st').
Proof.
  intros Hp st'.
  assert (Hc : Glove.cells st' = []).
  { subst st'. unfold Glove.step. cbn [Glove.handler].
    unfold Glove.onDisconnect. run_handler. rewrite logStop_effect.
    cbn [snd]. fields.
    match goal with
    | |- context [if ?b then _ else _] => destruct b
    end; destruct (Glove.logTimer st); reflexivity. }
  assert (Hk : Glove.presInfoCache st' = Glove.presInfoCache st).
  { subst st'. unfold Glove.step. cbn [Glove.handler].
    unfold Glove.onDisconnect. run_handler. rewrite logStop_effect.
    cbn [snd]. fields.
    match goal with
    | |- context [if ?b then _ else _] => destruct b
    end; destruct (Glove.logTimer st); reflexivity. }
  cbn [Glove.handler]. unfold Glove.onNotify. run_handler.
  rewrite Hk, Hp. unfold Glove.updateVal. run_handler.
  rewrite Hc. reflexivity.
Qed.

Lemma notification_after_disconnect_witness :
  map_get String.eqb (Glove.presInfoCache Session.logged_once) "2a19"%string =
    Some (Glove.p_presInfo Session.battery_read) /\
  Glove.handler Host.exponentiate (Glove.Notification "2a19" [x4f])
    (Glove.step Host.exponentiate Session.logged_once
       (Glove.Disconnected "SmartGlove")) =
  (Throw ReferenceError,
   Glove.step Host.exponentiate Session.logged_once
     (Glove.Disconnected "SmartGlove")).
Proof.
  assert (H : map_get String.eqb (Glove.presInfoCache Session.logged_once)
                "2a19"%string = Some (Glove.p_presInfo Session.battery_read))
    by (vm_compute; reflexivity).
  split; [exact H |].
  exact (notification_after_disconnect Host.exponentiate Session.logged_once
           "SmartGlove" "2a19" [x4f] _ H).
Defined.

(** ** Beyond the contracts: what a connection keeps true *)

Section Invariant.
Context {V : Type}.
Implicit Types (m : Map string V) (k : string) (v : V).

Lemma map_get_set_keeps m k k' v :
  map_get String.eqb m k' <> None ->
  map_get String.eqb (map_set String.eqb m k v) k' <> None.
Proof.
  intros H. destruct (String.eqb k k') eqn:E.
  - apply String.eqb_eq in E. subst k'. rewrite map_get_set_same.
    discriminate.
  - rewrite map_get_set_other by exact E. exact H.
Qed.

Lemma map_get_app_keeps m m' k :
  map_get String.eqb m k <> None ->
  map_get String.eqb (m ++ m') k <> None.
Proof.
  induction m as [| [k0 v0] m IH]; cbn [map_get app]; [congruence |].
  destruct (String.eqb k0 k); [discriminate | exact IH].
Qed.

Lemma map_get_app_last m k v :
  map_get String.eqb (m ++ [(k, v)]) k <> None.
Proof.
  induction m as [| [k0 v0] m IH]; cbn [map_get app].
  - rewrite String.eqb_refl. discriminate.
  - destruct (String.eqb k0 k); [discriminate | exact IH].
Qed.

End Invariant.

Lemma In_add_new (keys : list string) (k u : string) :
  In u (Spec.add_new keys k) -> In u keys \/ u = k.
Proof.
  unfold Spec.add_new. destruct (existsb (String.eqb k) keys); [tauto |].
  intros H. apply in_app_or in H as [H | [H | []]]; [tauto | auto].
Qed.

Lemma In_without_nth {A : Type} (l : list A) (i : nat) (x : A) :
  In x (firstn i l ++ skipn (S i) l) -> In x l.
Proof.
  intros H. apply in_app_or in H as [H | H].
  - rewrite <- (firstn_skipn i l). apply in_or_app. left. exact H.
  - rewrite <- (firstn_skipn (S i) l). apply in_or_app. right. exact H.
Qed.

Lemma updateVal_cells_keep (pow : Number -> Number -> Number) (uuid : string)
  (dv : DataView) (p : Glove.PresInfo) (st : Glove.State) (u : string) :
  map_get String.eqb (Glove.cells st) u <> None ->
  map_get String.eqb (Glove.cells (snd (Glove.updateVal pow uuid dv p st))) u
  <> None.
Proof.
  intros H.
  destruct (map_get String.eqb (Glove.cells st) uuid) as [cell |] eqn:Hc.
  - destruct (pipeline_outcome pow dv p) as (d & msgs & v & Hr & Hf & _).
    rewrite (updateVal_effect pow uuid dv p st cell d msgs v Hc Hr Hf).
    cbn [snd]. fields.
    destruct (map_get String.eqb (Glove.characteristicList st) uuid);
      fields; apply map_get_set_keeps; exact H.
  - unfold Glove.updateVal. run_handler. rewrite Hc. exact H.
Qed.

Lemma step_keeps_well_registered (pow : Number -> Number -> Number)
  (st : Glove.State) (ev : Glove.Event) :
  Spec.within_connection ev = true ->
  Spec.well_registered st -> Spec.well_registered (Glove.step pow st ev).
Proof.
  intros Hev [Hreg Hpend]. unfold Spec.well_registered.
  rewrite (step_registry pow st ev).
  unfold Glove.step.
  destruct ev as [uuid n sn dv | i dv | uuid dv | t now | | | | device];
    try discriminate Hev; cbn [Glove.handler Spec.registry_op fold_left].
  - unfold Glove.onPresDescriptor. run_handler.
    destruct (Glove.readPresInfo dv) as [[[p |] | e] msgs]; fields;
      try (split; assumption).
    split.
    + intros u Hu. destruct (Hreg u Hu) as [H1 H2].
      split; [apply map_get_set_keeps; exact H1 | exact H2].
    + intros r Hr. apply in_app_or in Hr as [Hr | [<- | []]].
      * apply map_get_set_keeps, Hpend, Hr.
      * cbn [Glove.p_uuid]. rewrite map_get_set_same. discriminate.
  - run_handler. destruct (nth_error (Glove.pending st) i) as [r |] eqn:Hi;
      cbn [fold_left]; [| split; assumption].
    apply nth_error_In in Hi.
    unfold Glove.onValueRead, Glove.showCharacteristic. run_handler.
    match goal with
    | |- context [Glove.updateVal pow ?u ?d ?p ?s] =>
        pose proof (updateVal_frame pow u d p s) as F;
        pose proof (fun x => updateVal_cells_keep pow u d p s x) as C;
        destruct (Glove.updateVal pow u d p s) as [[[] | e] st1]
    end; cbn [snd] in F, C; destruct F as (_ & _ & _ & _ & _ & Fp & Fc);
      cbn [Glove.cells Glove.pending Glove.presInfoCache Glove.set_cells
           Glove.set_characteristicList Glove.set_pending] in Fp, Fc, C;
      fields; rewrite Fp, Fc;
      (split;
       [ intros u Hu; cbn [Spec.first_seen] in Hu;
         apply In_add_new in Hu as [Hu | ->];
         [ destruct (Hreg u Hu) as [H1 H2];
           split; [exact H1 | apply C, map_get_app_keeps, H2]
         | split; [apply Hpend, Hi | apply C, map_get_app_last] ]
       | intros r' Hr'; apply Hpend, (In_without_nth _ i), Hr' ]).
  - unfold Glove.onNotify. run_handler.
    destruct (map_get String.eqb (Glove.presInfoCache st) uuid) as [p |];
      fields; [| split; assumption].
    pose proof (updateVal_frame pow uuid dv p st) as F.
    pose proof (fun x => updateVal_cells_keep pow uuid dv p st x) as C.
    cbv zeta in F. destruct F as (_ & _ & _ & _ & _ & Fp & Fc).
    rewrite Fp, Fc. split.
    + intros u Hu. destruct (Hreg u Hu) as [H1 H2].
      split; [exact H1 | apply C, H2].
    + exact Hpend.
  - run_handler. unfold Glove.updateLog. run_handler.
    destruct (existsb (Nat.eqb t) (Glove.intervals st)); fields;
      split; assumption.
  - unfold Glove.logStart, Glove.setInterval. run_handler. fields.
    split; assumption.
  - rewrite logStop_effect. cbn [snd].
    destruct (Glove.logTimer st), (0 <? map_size (Glove.log st)); fields;
      split; assumption.
Qed.

Lemma run_keeps_well_registered (pow : Number -> Number -> Number)
  (evs : list Glove.Event) (st : Glove.State) :
  forallb Spec.within_connection evs = true ->
  Spec.well_registered st -> Spec.well_registered (Glove.run pow st evs).
Proof.
  revert st. induction evs as [| ev evs IH]; intros st H Hst; [exact Hst |].
  cbn [forallb] in H. apply andb_true_iff in H as [Hev Hevs].
  rewrite (run_cons pow st ev evs). apply IH; [exact Hevs |].
  apply step_keeps_well_registered; assumption.
Qed.

Lemma initial_well_registered : Spec.well_registered Glove.initial.
Proof. split; intros x []. Qed.

Lemma map_get_In_keys {V : Type} (m : Map string V) (k : string) :
  In k (map_keys m) -> exists v : V, map_get String.eqb m k = Some v.
Proof.
  intros H.
  assert (E : existsb (String.eqb k) (map_keys m) = true).
  { apply existsb_exists. exists k. split; [exact H | apply String.eqb_refl]. }
  rewrite map_get_keys in E.
  destruct (map_get String.eqb m k) as [v |]; [exists v; reflexivity |].
  discriminate E.
Qed.

Lemma map_get_map_values {V W : Type} (f : V -> W) (m : Map string V)
  (k : string) :
  map_get String.eqb (map (fun c => (fst c, f (snd c))) m) k =
  option_map f (map_get String.eqb m k).
Proof.
  induction m as [| [k0 v0] m IH]; cbn [map map_get fst snd];
    [reflexivity |].
  destruct (String.eqb k0 k); [reflexivity | exact IH].
Qed.

Lemma snapshot_lookup (cl : Map string Glove.CharacteristicInfo)
  (uuid : string) :
  NoDup (map_keys cl) ->
  map_get String.eqb (Glove.snapshot cl) uuid =
  option_map Glove.lastEntry (map_get String.eqb cl uuid).
Proof.
  intros H. rewrite snapshot_entries by exact H. apply map_get_map_values.
Qed.

Lemma run_registry_NoDup (pow : Number -> Number -> Number)
  (evs : list Glove.Event) (st : Glove.State) :
  NoDup (map_keys (Glove.characteristicList st)) ->
  NoDup (map_keys (Glove.characteristicList (Glove.run pow st evs))).
Proof. intros H. rewrite run_registry. apply first_seen_NoDup, H. Qed.

(** A connection attempt made while no read is under way leaves nothing
    registered and nothing to register. *)
Lemma connecting_well_registered (pow : Number -> Number -> Number)
  (st : Glove.State) :
  Glove.pending st = [] ->
  Spec.well_registered (Glove.step pow st Glove.Connecting) /\
  Glove.characteristicList (Glove.step pow st Glove.Connecting) = [].
Proof.
  intros H. unfold Glove.step. cbn [Glove.handler].
  unfold Glove.bluetoothConnect, Spec.well_registered. run_handler. fields.
  rewrite H. split; [| reflexivity].
  split; [intros uuid [] | intros r []].
Qed.

(** A notification of a registered characteristic, one connection long. *)
Lemma registered_notification_effect (pow : Number -> Number -> Number)
  (st0 : Glove.State) (evs : list Glove.Event) (uuid : string)
  (dv : DataView) :
  Spec.well_registered st0 ->
  forallb Spec.within_connection evs = true ->
  In uuid (map_keys (Glove.characteristicList (Glove.run pow st0 evs))) ->
  exists (p : Glove.PresInfo) (info : Glove.CharacteristicInfo)
         (cell : string) (d : Decoded) (msgs : list Message) (v : Value),
    let st := Glove.run pow st0 evs in
    map_get String.eqb (Glove.presInfoCache st) uuid = Some p /\
    map_get String.eqb (Glove.characteristicList st) uuid = Some info /\
    map_get String.eqb (Glove.cells st) uuid = Some cell /\
    Glove.readValue pow dv p = (Normal d, msgs) /\
    Glove.formatValue d p = Normal v /\
    Glove.handler pow (Glove.Notification uuid dv) st =
    Glove.updateVal pow uuid dv p st.
Proof.
  intros H0 Hevs Hin.
  pose proof (run_keeps_well_registered pow evs st0 Hevs H0) as [Hreg _].
  destruct (Hreg uuid Hin) as [Hp Hc].
  destruct (map_get_In_keys _ _ Hin) as [info Hi].
  destruct (map_get String.eqb
              (Glove.presInfoCache (Glove.run pow st0 evs)) uuid)
    as [p |] eqn:Ep; [| congruence].
  destruct (map_get String.eqb
              (Glove.cells (Glove.run pow st0 evs)) uuid)
    as [cell |] eqn:Ec; [| congruence].
  destruct (pipeline_outcome pow dv p) as (d & msgs & v & Hr & Hf & _).
  exists p, info, cell, d, msgs, v. cbv zeta.
  split; [exact Ep |]. split; [exact Hi |]. split; [exact Ec |].
  split; [exact Hr |]. split; [exact Hf |].
  cbn [Glove.handler]. unfold Glove.onNotify. run_handler.
  rewrite Ep. reflexivity.
Qed.

(** X8.  From a connection attempt made while no read is under way (the
    first one after the page has loaded, or any later one, whatever the page
    went through before) and for as long as that connection lasts (no new
    attempt, no disconnection), a notification of a characteristic of the
    registry always goes through: its presentation is cached and its cell is
    in the document, the handler completes normally, the value read and
    formatted becomes the last entry of the characteristic, and the cell
    shows it followed by a space and the unit label. *)
Theorem registered_notifications_go_through
  (pow : Number -> Number -> Number) (st0 : Glove.State)
  (evs : list Glove.Event) (uuid : string) (dv : DataView) :
  Glove.pending st0 = [] ->
  forallb Spec.within_connection evs = true ->
  In uuid (map_keys (Glove.characteristicList
                       (Glove.run pow st0 (Glove.Connecting :: evs)))) ->
  exists (p : Glove.PresInfo) (info : Glove.CharacteristicInfo)
         (d : Decoded) (msgs : list Message) (v : Value),
    let st := Glove.run pow st0 (Glove.Connecting :: evs) in
    let st' := Glove.step pow st (Glove.Notification uuid dv) in
    map_get String.eqb (Glove.presInfoCache st) uuid = Some p /\
    map_get String.eqb (Glove.characteristicList st) uuid = Some info /\
    Glove.readValue pow dv p = (Normal d, msgs) /\
    Glove.formatValue d p = Normal v /\
    fst (Glove.handler pow (Glove.Notification uuid dv) st) = Normal tt /\
    map_get String.eqb (Glove.characteristicList st') uuid =
      Some {| Glove.name := Glove.name info;
              Glove.serviceName := Glove.serviceName info;
              Glove.lastEntry := v |} /\
    map_get String.eqb (Glove.cells st') uuid =
      Some (ToString v ++ " " ++ Spec.unit_label (Glove.unit p))%string.
Proof.
  intros Hpend Hevs Hin.
  change (Glove.run pow st0 (Glove.Connecting :: evs))
    with (Glove.run pow (Glove.step pow st0 Glove.Connecting) evs) in *.
  destruct (connecting_well_registered pow st0 Hpend) as [H0 _].
  destruct (registered_notification_effect pow _ evs uuid dv H0 Hevs Hin)
    as (p & info & cell & d & msgs & v & Hp & Hi & Hc & Hr & Hf & Hh).
  cbv zeta in Hp, Hi, Hc, Hh.
  set (st := Glove.run pow (Glove.step pow st0 Glove.Connecting) evs) in *.
  exists p, info, d, msgs, v. cbv zeta. unfold Glove.step.
  rewrite Hh, (updateVal_effect pow uuid dv p _ cell d msgs v Hc Hr Hf), Hi.
  cbn [fst snd]. fields.
  split; [exact Hp |]. split; [reflexivity |]. split; [exact Hr |].
  split; [exact Hf |]. split; [reflexivity |].
  split; apply map_get_set_same.
Qed.

Lemma registered_notifications_go_through_witness :
  Glove.pending Glove.initial = [] /\
  forallb Spec.within_connection Session.discovery = true /\
  In "2a6e"%string
     (map_keys (Glove.characteristicList
                  (Glove.run Host.exponentiate Glove.initial
                             (Glove.Connecting :: Session.discovery)))) /\
  exists v : Value,
    map_get String.eqb
      (Glove.cells
         (Glove.step Host.exponentiate
            (Glove.run Host.exponentiate Glove.initial
                       (Glove.Connecting :: Session.discovery))
            (Glove.Notification "2a6e" [x2a; x09]))) "2a6e"%string =
    Some (ToString v ++ " " ++ Spec.unit_label 0x272F)%string.
Proof.
  assert (H1 : forallb Spec.within_connection Session.discovery = true)
    by reflexivity.
  assert (H2 : In "2a6e"%string
                 (map_keys (Glove.characteristicList
                              (Glove.run Host.exponentiate Glove.initial
                                 (Glove.Connecting :: Session.discovery)))))
    by (vm_compute; right; left; reflexivity).
  split; [reflexivity |]. split; [exact H1 |]. split; [exact H2 |].
  destruct (registered_notifications_go_through Host.exponentiate
              Glove.initial Session.discovery "2a6e" [x2a; x09]
              eq_refl H1 H2)
    as (p & info & d & msgs & v & Hp & _ & _ & _ & _ & _ & Hc).
  cbv zeta in Hp, Hc.
  assert (Hp' : map_get String.eqb
                  (Glove.presInfoCache
                     (Glove.run Host.exponentiate Glove.initial
                                (Glove.Connecting :: Session.discovery)))
                  "2a6e"%string =
                Some {| Glove.format := 0x0e; Glove.exponent := -2;
                        Glove.unit := 0x272F |})
    by (vm_compute; reflexivity).
  rewrite Hp' in Hp. injection Hp as <-.
  exists v. exact Hc.
Defined.

(** X9.  What a notification shows is what the next tick logs: from a
    connection attempt made while no read is under way and for as long as
    that connection lasts, a notification of a registered characteristic
    followed by a tick of a running interval leaves, under the timestamp of
    the tick, a row with one column for each registered characteristic, and
    in it the notified value, read and formatted, under the identifier
    notified. *)
Theorem notified_value_is_logged (pow : Number -> Number -> Number)
  (st0 : Glove.State) (evs : list Glove.Event) (uuid : string)
  (dv : DataView) (t : nat) (now : Date) :
  Glove.pending st0 = [] ->
  forallb Spec.within_connection evs = true ->
  In uuid (map_keys (Glove.characteristicList
                       (Glove.run pow st0 (Glove.Connecting :: evs)))) ->
  In t (Glove.intervals (Glove.run pow st0 (Glove.Connecting :: evs))) ->
  exists (p : Glove.PresInfo) (d : Decoded) (msgs : list Message)
         (v : Value) (row : Map string Value),
    let st := Glove.run pow st0 (Glove.Connecting :: evs) in
    map_get String.eqb (Glove.presInfoCache st) uuid = Some p /\
    Glove.readValue pow dv p = (Normal d, msgs) /\
    Glove.formatValue d p = Normal v /\
    map_get String.eqb
      (Glove.log (Glove.run pow st [Glove.Notification uuid dv;
                                    Glove.Tick t now]))
      (Glove.printTimestamp now) = Some row /\
    map_get String.eqb row uuid = Some v /\
    map_keys row = map_keys (Glove.characteristicList st).
Proof.
  intros Hpend Hevs Hin Ht.
  change (Glove.run pow st0 (Glove.Connecting :: evs))
    with (Glove.run pow (Glove.step pow st0 Glove.Connecting) evs) in *.
  destruct (connecting_well_registered pow st0 Hpend) as [H0 Hempty].
  destruct (registered_notification_effect pow _ evs uuid dv H0 Hevs Hin)
    as (p & info & cell & d & msgs & v & Hp & Hi & Hc & Hr & Hf & Hh).
  cbv zeta in Hp, Hi, Hc, Hh.
  assert (Hnd : NoDup (map_keys
                         (Glove.characteristicList
                            (Glove.run pow
                               (Glove.step pow st0 Glove.Connecting)
                               (evs ++ [Glove.Notification uuid dv]))))).
  { apply run_registry_NoDup. rewrite Hempty. constructor. }
  unfold Glove.run in Hnd. rewrite fold_left_app in Hnd.
  fold (Glove.run pow (Glove.step pow st0 Glove.Connecting) evs) in Hnd.
  cbn [fold_left] in Hnd.
  set (st := Glove.run pow (Glove.step pow st0 Glove.Connecting) evs) in *.
  set (st1 := Glove.step pow st (Glove.Notification uuid dv)) in *.
  exists p, d, msgs, v, (Glove.snapshot (Glove.characteristicList st1)).
  cbv zeta.
  split; [exact Hp |]. split; [exact Hr |]. split; [exact Hf |].
  assert (Hk : map_keys (Glove.characteristicList st1) =
               map_keys (Glove.characteristicList st)).
  { subst st1. rewrite (step_registry pow). reflexivity. }
  assert (Hi1 : map_get String.eqb (Glove.characteristicList st1) uuid =
                Some {| Glove.name := Glove.name info;
                        Glove.serviceName := Glove.serviceName info;
                        Glove.lastEntry := v |}).
  { subst st1. unfold Glove.step.
    rewrite Hh, (updateVal_effect pow uuid dv p _ cell d msgs v Hc Hr Hf), Hi.
    cbn [snd]. fields. apply map_get_set_same. }
  assert (Hrun : existsb (Nat.eqb t) (Glove.intervals st1) = true).
  { subst st1. unfold Glove.step. rewrite Hh.
    pose proof (updateVal_frame pow uuid dv p st) as F. cbv zeta in F.
    destruct F as (_ & _ & -> & _).
    apply existsb_exists. exists t. split; [exact Ht | apply Nat.eqb_refl]. }
  split; [| split].
  - change (Glove.run pow st [Glove.Notification uuid dv; Glove.Tick t now])
      with (Glove.step pow st1 (Glove.Tick t now)).
    rewrite (step_log_row pow). cbn [Spec.log_op]. rewrite Hrun.
    cbn [fold_left Spec.row_after]. rewrite String.eqb_refl. reflexivity.
  - rewrite snapshot_lookup by exact Hnd. rewrite Hi1. reflexivity.
  - rewrite snapshot_keys by exact Hnd. exact Hk.
Qed.

Lemma notified_value_is_logged_witness :
  Glove.pending Glove.initial = [] /\
  forallb Spec.within_connection
    (Session.discovery ++ [Glove.StartClicked])%list = true /\
  exists (v : Value) (row : Map string Value),
    map_get String.eqb
      (Glove.log
         (Glove.run Host.exponentiate
            (Glove.run Host.exponentiate Glove.initial
               (Glove.Connecting
                :: Session.discovery ++ [Glove.StartClicked])%list)
            [Glove.Notification "2a19" [x4f];
             Glove.Tick 0 (Session.at_second 7 0)]))
      (Glove.printTimestamp (Session.at_second 7 0)) = Some row /\
    map_get String.eqb row "2a19"%string = Some v.
Proof.
  assert (H1 : forallb Spec.within_connection
                 (Session.discovery ++ [Glove.StartClicked])%list = true)
    by reflexivity.
  assert (H2 : In "2a19"%string
                 (map_keys
                    (Glove.characteristicList
                       (Glove.run Host.exponentiate Glove.initial
                          (Glove.Connecting
                           :: Session.discovery ++ [Glove.StartClicked])%list))))
    by (vm_compute; left; reflexivity).
  assert (H3 : In 0%nat
                 (Glove.intervals
                    (Glove.run Host.exponentiate Glove.initial
                       (Glove.Connecting
                        :: Session.discovery ++ [Glove.StartClicked])%list)))
    by (vm_compute; left; reflexivity).
  split; [reflexivity |]. split; [exact H1 |].
  destruct (notified_value_is_logged Host.exponentiate Glove.initial
              (Session.discovery ++ [Glove.StartClicked])%list
              "2a19" [x4f] 0%nat (Session.at_second 7 0) eq_refl H1 H2 H3)
    as (p & d & msgs & v & row & _ & _ & _ & Hl & Hv & _).
  exists v, row. split; [exact Hl | exact Hv].
Defined.

(** ** Beyond the contracts: the timers *)

Lemma updateVal_nextTimer (pow : Number -> Number -> Number) (uuid : string)
  (dv : DataView) (p : Glove.PresInfo) (st : Glove.State) :
  Glove.nextTimer (snd (Glove.updateVal pow uuid dv p st)) =
  Glove.nextTimer st.
Proof.
  destruct (map_get String.eqb (Glove.cells st) uuid) as [cell |] eqn:Hc.
  - destruct (pipeline_outcome pow dv p) as (d & msgs & v & Hr & Hf & _).
    rewrite (updateVal_effect pow uuid dv p st cell d msgs v Hc Hr Hf).
    cbn [snd]. fields.
    destruct (map_get String.eqb (Glove.characteristicList st) uuid);
      reflexivity.
  - unfold Glove.updateVal. run_handler. rewrite Hc. reflexivity.
Qed.

(** The timers, event by event: only a start and a stop (the one of a
    disconnection too) touch them. *)
Lemma step_timers (pow : Number -> Number -> Number) (st : Glove.State)
  (ev : Glove.Event) :
  let st' := Glove.step pow st ev in
  match ev with
  | Glove.StartClicked =>
      Glove.intervals st' = (Glove.intervals st ++ [Glove.nextTimer st])%list /\
      Glove.logTimer st' = Some (Glove.nextTimer st) /\
      Glove.nextTimer st' = S (Glove.nextTimer st)
  | Glove.StopClicked | Glove.Disconnected _ =>
      Glove.intervals st' =
        match Glove.logTimer st with
        | Some id => filter (fun i => negb (Nat.eqb i id)) (Glove.intervals st)
        | None => Glove.intervals st
        end /\
      Glove.logTimer st' = Glove.logTimer st /\
      Glove.nextTimer st' = Glove.nextTimer st
  | _ =>
      Glove.intervals st' = Glove.intervals st /\
      Glove.logTimer st' = Glove.logTimer st /\
      Glove.nextTimer st' = Glove.nextTimer st
  end.
Proof.
  cbv zeta. unfold Glove.step.
  destruct ev as [uuid n sn dv | i dv | uuid dv | t now | | | | device];
    cbn [Glove.handler].
  - unfold Glove.onPresDescriptor. run_handler.
    destruct (Glove.readPresInfo dv) as [[[p |] | e] msgs]; repeat split.
  - run_handler. destruct (nth_error (Glove.pending st) i) as [r |];
      [| repeat split].
    unfold Glove.onValueRead, Glove.showCharacteristic. run_handler.
    match goal with
    | |- context [Glove.updateVal pow ?u ?d ?p ?s] =>
        pose proof (updateVal_frame pow u d p s) as F;
        pose proof (updateVal_nextTimer pow u d p s) as N;
        destruct (Glove.updateVal pow u d p s) as [[[] | e] st1]
    end; cbn [snd] in F, N; destruct F as (_ & _ & F1 & F2 & _); fields;
      rewrite F1, F2, N; repeat split.
  - unfold Glove.onNotify. run_handler.
    destruct (map_get String.eqb (Glove.presInfoCache st) uuid) as [p |];
      [| repeat split].
    pose proof (updateVal_frame pow uuid dv p st) as F. cbv zeta in F.
    destruct F as (_ & _ & F1 & F2 & _).
    split; [exact F1 |]. split; [exact F2 | apply updateVal_nextTimer].
  - run_handler. unfold Glove.updateLog. run_handler.
    destruct (existsb (Nat.eqb t) (Glove.intervals st)); repeat split.
  - unfold Glove.logStart, Glove.setInterval. run_handler. repeat split.
  - rewrite logStop_effect. cbn [snd].
    destruct (Glove.logTimer st) as [id |] eqn:E,
             (0 <? map_size (Glove.log st)); fields;
      rewrite ?E; repeat split.
  - unfold Glove.bluetoothConnect. run_handler. repeat split.
  - unfold Glove.onDisconnect. run_handler. rewrite logStop_effect.
    cbn [snd]. fields.
    match goal with
    | |- context [if ?b then _ else _] => destruct b
    end; destruct (Glove.logTimer st) as [id |] eqn:E; fields;
      rewrite ?E; repeat split; exact E.
Qed.

Lemma step_keeps_orphan (pow : Number -> Number -> Number) (n : nat)
  (st : Glove.State) (ev : Glove.Event) :
  Spec.orphan_interval n st -> Spec.orphan_interval n (Glove.step pow st ev).
Proof.
  intros (Hin & Hlt & Hne). unfold Spec.orphan_interval.
  pose proof (step_timers pow st ev) as T. cbv zeta in T.
  destruct ev; destruct T as (-> & -> & ->);
    try (split; [exact Hin | split; [exact Hlt | exact Hne]]).
  - split; [apply in_or_app; left; exact Hin |].
    split; [lia |]. intros [= E]. lia.
  - split; [| split; [exact Hlt | exact Hne]].
    destruct (Glove.logTimer st) as [id |]; [| exact Hin].
    apply filter_In. split; [exact Hin |].
    destruct (Nat.eqb_spec n id) as [-> | _]; [congruence | reflexivity].
  - split; [| split; [exact Hlt | exact Hne]].
    destruct (Glove.logTimer st) as [id |]; [| exact Hin].
    apply filter_In. split; [exact Hin |].
    destruct (Nat.eqb_spec n id) as [-> | _]; [congruence | reflexivity].
Qed.

Lemma run_keeps_orphan (pow : Number -> Number -> Number) (n : nat)
  (evs : list Glove.Event) (st : Glove.State) :
  Spec.orphan_interval n st -> Spec.orphan_interval n (Glove.run pow st evs).
Proof.
  revert st. induction evs as [| ev evs IH]; intros st H; [exact H |].
  rewrite (run_cons pow st ev evs). apply IH, step_keeps_orphan, H.
Qed.

(** X10.  [logStart] never ends the interval it replaces.  Called a second time
    with no stop in between, it leaves the interval of the first call
    running for good: whatever the page handles afterwards (stops, starts,
    disconnections, connection attempts, value traffic), that interval is
    still there, and each of its ticks goes on writing a row of the registry
    into the log under the timestamp of the tick. *)
Theorem second_start_leaks_interval (pow : Number -> Number -> Number)
  (st : Glove.State) (evs : list Glove.Event) (now : Date) :
  let first := Glove.nextTimer st in
  let st' :=
    Glove.run pow st (Glove.StartClicked :: Glove.StartClicked :: evs) in
  fst (Glove.logStart st) = Normal tt /\
  Glove.logTimer (snd (Glove.logStart st)) = Some first /\
  In first (Glove.intervals st') /\
  Glove.logTimer st' <> Some first /\
  map_get String.eqb (Glove.log (Glove.step pow st' (Glove.Tick first now)))
          (Glove.printTimestamp now) =
  Some (Glove.snapshot (Glove.characteristicList st')).
Proof.
  cbv zeta.
  assert (O : Spec.orphan_interval (Glove.nextTimer st)
                (Glove.run pow st
                   (Glove.StartClicked :: Glove.StartClicked :: evs))).
  { rewrite 2 run_cons. apply run_keeps_orphan.
    pose proof (step_timers pow st Glove.StartClicked) as T1.
    pose proof (step_timers pow (Glove.step pow st Glove.StartClicked)
                  Glove.StartClicked) as T2.
    cbv zeta in T1, T2. destruct T1 as (I1 & L1 & N1).
    destruct T2 as (I2 & L2 & N2). unfold Spec.orphan_interval.
    rewrite I2, L2, N2, I1, N1.
    split; [apply in_or_app; left; apply in_or_app; right; left; reflexivity |].
    split; [lia |]. intros [= E]. lia. }
  destruct O as (Hin & _ & Hne).
  split; [reflexivity |]. split; [reflexivity |].
  split; [exact Hin |]. split; [exact Hne |].
  rewrite (step_log_row pow). cbn [Spec.log_op].
  assert (E : existsb (Nat.eqb (Glove.nextTimer st))
                (Glove.intervals
                   (Glove.run pow st
                      (Glove.StartClicked :: Glove.StartClicked :: evs))) =
              true).
  { apply existsb_exists. exists (Glove.nextTimer st).
    split; [exact Hin | apply Nat.eqb_refl]. }
  rewrite E. cbn [fold_left Spec.row_after]. rewrite String.eqb_refl.
  reflexivity.
Qed.

(** X11.  A stop exports a log that is not empty and leaves it in place, so the
    disconnection that follows, which stops again, downloads the very same
    text a second time. *)
Theorem stop_then_disconnect_exports_twice
  (pow : Number -> Number -> Number) (st : Glove.State) (device : string) :
  0 < map_size (Glove.log st) ->
  exists csv : string,
    fst (Glove.printLog st) = Normal csv /\
    Glove.downloads
      (Glove.run pow st [Glove.StopClicked; Glove.Disconnected device]) =
    (Glove.downloads st ++ [csv; csv])%list.
Proof.
  intros Hsize.
  exists (Spec.export (Glove.presInfoCache st) (Glove.characteristicList st)
                      (Glove.log st)).
  rewrite printLog_export. split; [reflexivity |].
  apply Z.ltb_lt in Hsize.
  unfold Glove.run, Glove.step. cbn [fold_left Glove.handler].
  unfold Glove.onDisconnect, console_log. run_handler.
  rewrite (logStop_effect st). cbn [snd]. rewrite Hsize.
  rewrite logStop_effect. cbn [snd]. fields.
  destruct (Glove.logTimer st) as [id |] eqn:E; fields;
    rewrite ?E, Hsize; fields; rewrite ?E; fields;
    rewrite <- app_assoc; reflexivity.
Qed.

Lemma stop_then_disconnect_exports_twice_witness :
  0 < map_size (Glove.log Session.logged_once) /\
  exists csv : string,
    fst (Glove.printLog Session.logged_once) = Normal csv /\
    Glove.downloads
      (Glove.run Host.exponentiate Session.logged_once
         [Glove.StopClicked; Glove.Disconnected "SmartGlove"]) =
    (Glove.downloads Session.logged_once ++ [csv; csv])%list.
Proof.
  assert (H : 0 < map_size (Glove.log Session.logged_once))
    by (vm_compute; reflexivity).
  split; [exact H |].
  exact (stop_then_disconnect_exports_twice Host.exponentiate
           Session.logged_once "SmartGlove" H).
Defined.

(** ** Beyond the contracts: the timestamp *)

Lemma doPad_digits (n : Z) : 0 <= n <= 99 -> Glove.doPad n = Spec.digits2 n.
Proof.
  intros H.
  assert (E : forallb (fun i => String.eqb (Glove.doPad (Z.of_nat i))
                                           (Spec.digits2 (Z.of_nat i)))
                      (seq 0 100) = true) by (vm_compute; reflexivity).
  rewrite forallb_forall in E.
  specialize (E (Z.to_nat n)). rewrite Z2Nat.id in E by lia.
  apply String.eqb_eq, E, in_seq. lia.
Qed.

Lemma year_digits (y : Z) :
  1970 <= y <= 2999 -> ToString (VNum (of_Z y)) = Spec.digits4 y.
Proof.
  intros H.
  assert (E : forallb (fun i => String.eqb (ToString (VNum (of_Z (Z.of_nat i))))
                                           (Spec.digits4 (Z.of_nat i)))
                      (seq 1970 1030) = true)
    by (vm_compute; reflexivity).
  rewrite forallb_forall in E.
  specialize (E (Z.to_nat y)). rewrite Z2Nat.id in E by lia.
  apply String.eqb_eq, E, in_seq. lia.
Qed.

Lemma digit_char_inj (a b : Z) :
  0 <= a <= 9 -> 0 <= b <= 9 ->
  Spec.digit_char a = Spec.digit_char b -> a = b.
Proof.
  intros Ha Hb H. apply (f_equal nat_of_ascii) in H.
  unfold Spec.digit_char in H.
  rewrite 2 nat_ascii_embedding in H by lia. lia.
Qed.

Lemma digits2_inj (a b : Z) :
  0 <= a <= 99 -> 0 <= b <= 99 -> Spec.digits2 a = Spec.digits2 b -> a = b.
Proof.
  intros Ha Hb H. unfold Spec.digits2 in H. injection H as H1 H2.
  apply digit_char_inj in H1; [| Z.div_mod_to_equations; lia ..].
  apply digit_char_inj in H2; [| Z.div_mod_to_equations; lia ..].
  Z.div_mod_to_equations. lia.
Qed.

Lemma digits2_app_inj (a b : Z) (s s' : string) :
  (Spec.digits2 a ++ s = Spec.digits2 b ++ s')%string ->
  Spec.digits2 a = Spec.digits2 b /\ s = s'.
Proof.
  unfold Spec.digits2. cbn [append]. intros [= -> -> ->].
  split; reflexivity.
Qed.

Lemma separator_app_inj (c : ascii) (s s' : string) :
  (String c EmptyString ++ s = String c EmptyString ++ s')%string -> s = s'.
Proof. cbn [append]. intros [= H]. exact H. Qed.

Lemma printTimestamp_digits (d : Date) :
  Spec.clock_fields d ->
  Glove.printTimestamp d =
  (Spec.digits4 (getFullYear d) ++ "/" ++ Spec.digits2 (getMonth d + 1)
   ++ "/" ++ Spec.digits2 (getDate d) ++ " " ++ Spec.digits2 (getHours d)
   ++ ":" ++ Spec.digits2 (getMinutes d) ++ ":"
   ++ Spec.digits2 (getSeconds d))%string.
Proof.
  intros (Hy & Hm & Hd & Hh & Hmi & Hs). unfold Glove.printTimestamp.
  cbv zeta. rewrite year_digits by exact Hy.
  rewrite !doPad_digits by lia.
  rewrite !append_assoc. reflexivity.
Qed.

(** X12.  A [Date] between the years 1970 and 2999 is printed on nineteen
    characters, YYYY/MM/DD HH:MM:SS: the year on four digits, the month
    counted from one, every other field padded with a zero to two digits.
    Both revisions of the script. *)
Theorem printTimestamp_zero_padded (d : Date) :
  Spec.clock_fields d ->
  Glove.printTimestamp d =
  (Spec.digits4 (getFullYear d) ++ "/" ++ Spec.digits2 (getMonth d + 1)
   ++ "/" ++ Spec.digits2 (getDate d) ++ " " ++ Spec.digits2 (getHours d)
   ++ ":" ++ Spec.digits2 (getMinutes d) ++ ":"
   ++ Spec.digits2 (getSeconds d))%string /\
  String.length (Glove.printTimestamp d) = 19%nat /\
  Part000.printTimestamp d = Glove.printTimestamp d.
Proof.
  intros H. split; [apply printTimestamp_digits, H |].
  split; [| reflexivity].
  rewrite (printTimestamp_digits d H). reflexivity.
Qed.

Lemma printTimestamp_zero_padded_witness :
  Spec.clock_fields (Session.at_second 7 0) /\
  Glove.printTimestamp (Session.at_second 7 0) = "2025/01/05 09:03:07"%string.
Proof.
  assert (H : Spec.clock_fields (Session.at_second 7 0))
    by (unfold Spec.clock_fields; cbn; lia).
  split; [exact H |].
  rewrite (proj1 (printTimestamp_zero_padded (Session.at_second 7 0) H)).
  reflexivity.
Defined.

(** X13.  Two instants between the years 1970 and 2999 share a timestamp
    exactly when they fall in the same wall-clock second: rows of different
    seconds never merge in the log. *)
Theorem printTimestamp_separates_seconds (a b : Date) :
  Spec.clock_fields a -> Spec.clock_fields b ->
  (Glove.printTimestamp a = Glove.printTimestamp b <-> Spec.same_second a b).
Proof.
  intros Ha Hb. split; [| apply printTimestamp_same_second].
  rewrite (printTimestamp_digits a Ha), (printTimestamp_digits b Hb).
  destruct Ha as (Hya & Hma & Hda & Hha & Hmia & Hsa).
  destruct Hb as (Hyb & Hmb & Hdb & Hhb & Hmib & Hsb).
  unfold Spec.digits4. rewrite !append_assoc. intros H.
  apply digits2_app_inj in H as [Y1 H].
  apply digits2_app_inj in H as [Y2 H].
  apply separator_app_inj in H.
  apply digits2_app_inj in H as [Mo H].
  apply separator_app_inj in H.
  apply digits2_app_inj in H as [Da H].
  apply separator_app_inj in H.
  apply digits2_app_inj in H as [Ho H].
  apply separator_app_inj in H.
  apply digits2_app_inj in H as [Mi H].
  apply separator_app_inj in H.
  apply digits2_inj in Y1; [| Z.div_mod_to_equations; lia ..].
  apply digits2_inj in Y2; [| Z.div_mod_to_equations; lia ..].
  apply digits2_inj in Mo; [| lia ..].
  apply digits2_inj in Da; [| lia ..].
  apply digits2_inj in Ho; [| lia ..].
  apply digits2_inj in Mi; [| lia ..].
  apply digits2_inj in H; [| lia ..].
  unfold Spec.same_second. repeat split; try lia.
  Z.div_mod_to_equations. lia.
Qed.

Lemma printTimestamp_separates_seconds_witness :
  Spec.clock_fields (Session.at_second 7 0) /\
  Spec.clock_fields (Session.at_second 7 120) /\
  (Glove.printTimestamp (Session.at_second 7 0) =
   Glove.printTimestamp (Session.at_second 7 120) <->
   Spec.same_second (Session.at_second 7 0) (Session.at_second 7 120)).
Proof.
  assert (H1 : Spec.clock_fields (Session.at_second 7 0))
    by (unfold Spec.clock_fields; cbn; lia).
  assert (H2 : Spec.clock_fields (Session.at_second 7 120))
    by (unfold Spec.clock_fields; cbn; lia).
  split; [exact H1 |]. split; [exact H2 |].
  exact (printTimestamp_separates_seconds _ _ H1 H2).
Defined.

(** ** Beyond the contracts: the write characteristics of the later
       revision *)

Lemma uint8_byte_value (b : byte) : uint8_byte (byte_value b) = b.
Proof.
  unfold uint8_byte, byte_value. rewrite N2Z.id, Byte.of_to_N. reflexivity.
Qed.

Lemma onClickValueRead_effect (b : byte) (rest : list byte) :
  Part000.onClickValueRead (b :: rest) =
  (Normal (Some ((if byte_value b =? 0 then x01 else x00) :: rest)), []).
Proof.
  unfold Part000.onClickValueRead, byteLength. cbn [List.length].
  destruct (Z.leb_spec 1 (Z.of_nat (S (List.length rest)))) as [_ | H];
    [| lia].
  unfold getUint8, getInt, GetViewValue, setUint8, byteLength.
  cbn [List.length].
  destruct (Z.ltb_spec (Z.of_nat (S (List.length rest))) (0 + 1)) as [H | _];
    [lia |].
  cbn [Z.to_nat]. change (Pos.to_nat 1) with 1%nat.
  cbn [firstn skipn app lift bind ret].
  unfold RawBytesToInt. cbn [ToBoolean andb le_unsigned].
  replace (byte_value b + 256 * 0) with (byte_value b) by ring.
  destruct (byte_value b =? 0); reflexivity.
Qed.

(** X14.  A click on a write characteristic sends back what was read with its
    first byte inverted: 1 for a byte of 0, 0 for any other byte, the bytes
    after it untouched, and nothing at all for an empty value.  Read as a
    Boolean, the value written is the negation of the value read.  A second
    click brings the first value back only when its first byte was 0 or
    1. *)
Theorem onClick_inverts_boolean (pow : Number -> Number -> Number)
  (dataView : DataView) (p : Part000.PresInfo) :
  Part000.format p = Part000.BLE_FORMAT_BOOLEAN ->
  match dataView with
  | [] => Part000.onClickValueRead dataView = (Normal None, [])
  | b :: rest =>
      exists (written : DataView) (val : bool),
        Part000.onClickValueRead dataView = (Normal (Some written), []) /\
        written = (if byte_value b =? 0 then x01 else x00) :: rest /\
        Part000.readValue pow dataView p = (Normal (DBool val), []) /\
        Part000.readValue pow written p = (Normal (DBool (negb val)), []) /\
        (Part000.onClickValueRead written = (Normal (Some dataView), []) <->
         byte_value b <= 1)
  end.
Proof.
  intros Hf. destruct dataView as [| b rest]; [reflexivity |].
  exists ((if byte_value b =? 0 then x01 else x00) :: rest),
         (negb (byte_value b =? 0)).
  split; [apply onClickValueRead_effect |]. split; [reflexivity |].
  assert (R : forall (c : byte),
            Part000.readValue pow (c :: rest) p =
            (Normal (DBool (negb (byte_value c =? 0))), [])).
  { intros c. unfold Part000.readValue. rewrite Hf.
    cbv [Part000.decoderOf Part000.BLE_FORMAT_BOOLEAN Part000.BLE_FORMAT_UINT8
         Part000.BLE_FORMAT_UINT16 Part000.BLE_FORMAT_UINT32
         Part000.BLE_FORMAT_SINT8 Part000.BLE_FORMAT_SINT16
         Part000.BLE_FORMAT_SINT32 Part000.BLE_FORMAT_FLOAT32].
    cbn [Z.eqb Pos.eqb].
    unfold byteLength. cbn [List.length].
    destruct (Z.ltb_spec (Z.of_nat (S (List.length rest))) 1) as [H | _];
      [lia |].
    unfold getUint8, getInt, GetViewValue, byteLength. cbn [List.length].
    destruct (Z.ltb_spec (Z.of_nat (S (List.length rest))) (0 + 1))
      as [H | _]; [lia |].
    cbn [Z.to_nat]. change (Pos.to_nat 1) with 1%nat.
    cbn [firstn skipn lift bind ret app].
    unfold RawBytesToInt. cbn [ToBoolean andb le_unsigned].
    replace (byte_value c + 256 * 0) with (byte_value c) by ring.
    reflexivity. }
  split; [apply R |]. split.
  - rewrite R. destruct (byte_value b =? 0); reflexivity.
  - rewrite onClickValueRead_effect.
    pose proof (byte_value_range b) as Hb.
    destruct (Z.eqb_spec (byte_value b) 0) as [E | E].
    + change (byte_value x01 =? 0) with false. cbv iota.
      split; [lia |]. intros _. do 3 f_equal.
      rewrite <- (uint8_byte_value b), E. reflexivity.
    + change (byte_value x00 =? 0) with true. cbv iota. split.
      * intros [= <-]. vm_compute. discriminate.
      * intros H. assert (E1 : byte_value b = 1) by lia.
        do 3 f_equal. rewrite <- (uint8_byte_value b), E1. reflexivity.
Qed.

Lemma onClick_inverts_boolean_witness :
  Part000.format
    {| Glove.format := Part000.BLE_FORMAT_BOOLEAN; Glove.exponent := 0;
       Glove.unit := 0x2700 |} = Part000.BLE_FORMAT_BOOLEAN /\
  exists (written : DataView) (val : bool),
    Part000.onClickValueRead [x05; x07] = (Normal (Some written), []) /\
    written = [x00; x07].
Proof.
  split; [reflexivity |].
  destruct (onClick_inverts_boolean Host.exponentiate [x05; x07]
              {| Glove.format := Part000.BLE_FORMAT_BOOLEAN;
                 Glove.exponent := 0; Glove.unit := 0x2700 |}
              eq_refl)
    as (written & val & H1 & H2 & _).
  exists written, val. split; [exact H1 | exact H2].
Defined.

(** ** Beyond the contracts: the export as a table *)

(** X15.  As long as no name, no timestamp and no value holds a comma or a
    newline, the export is a table: three header lines and one line for
    each row of the log, each ended by a newline and holding none inside,
    and each with exactly one comma more than there are characteristics in
    the registry.  [printLog] quotes nothing, so this is as far as it
    goes. *)
Theorem printLog_rectangular (st : Glove.State) :
  Spec.plain_fields st = true ->
  exists rows : list string,
    fst (Glove.printLog st) =
      Normal (Spec.join (map (fun r => r ++ newline)%string rows)) /\
    List.length rows = (3 + List.length (Glove.log st))%nat /\
    Forall (fun r =>
              Spec.count_char ","%char r =
                S (List.length (Glove.characteristicList st)) /\
              Spec.count_char (ascii_of_nat 10) r = 0%nat) rows.
Proof.
  intros H. unfold Spec.plain_fields in H.
  apply andb_true_iff in H as [Hreg Hlog].
  exists (Spec.header_rows (Glove.presInfoCache st)
            (Glove.characteristicList st)
          ++ Spec.data_rows (Glove.characteristicList st) (Glove.log st))%list.
  rewrite printLog_export. cbn [fst].
  split; [reflexivity |]. split.
  - rewrite length_app. unfold Spec.data_rows. rewrite length_map.
    reflexivity.
  - apply export_rows_rectangular; assumption.
Qed.

Lemma printLog_rectangular_witness :
  Spec.plain_fields Session.stopped = true /\
  exists rows : list string,
    fst (Glove.printLog Session.stopped) =
      Normal (Spec.join (map (fun r => r ++ newline)%string rows)) /\
    List.length rows = 5%nat.
Proof.
  assert (H : Spec.plain_fields Session.stopped = true)
    by (vm_compute; reflexivity).
  split; [exact H |].
  destruct (printLog_rectangular Session.stopped H) as (rows & H1 & H2 & _).
  exists rows. split; [exact H1 |]. rewrite H2. vm_compute. reflexivity.
Defined.

(** ** Beyond the contracts: what is shown for a value that cannot be
       decoded *)

Lemma toFixed_zero (f : Z) :
  0 <= f <= 100 -> toFixed (of_Z 0) f = Normal (Spec.zero_text f).
Proof.
  intros H.
  assert (E : forallb
                (fun i => match toFixed (of_Z 0) (Z.of_nat i) with
                          | Normal s => String.eqb s (Spec.zero_text (Z.of_nat i))
                          | Throw _ => false
                          end) (seq 0 101) = true)
    by (vm_compute; reflexivity).
  rewrite forallb_forall in E.
  specialize (E (Z.to_nat f)). rewrite Z2Nat.id in E by lia.
  destruct (toFixed (of_Z 0) f) as [s | e].
  - f_equal. apply String.eqb_eq, E, in_seq. lia.
  - discriminate E. apply in_seq. lia.
Qed.

(** X16.  A value that cannot be decoded is shown as a reading of zero.
    When the format code is not one of the eight the script knows, or the
    buffer is shorter than the format requires, [readValue] hands back the
    Number 0 (with a console line in the second case only), and
    [formatValue] prints it like any other zero: ["0"], or ["0."] followed
    by as many zeros as the exponent asks for. *)
Theorem undecodable_value_shows_zero (pow : Number -> Number -> Number)
  (dv : DataView) (p : Glove.PresInfo) :
  Glove.format p <> Glove.BLE_FORMAT_BOOLEAN ->
  Spec.supported (Glove.format p) = false \/
  (exists f : Spec.Format,
     Glove.format p = Spec.code f /\ byteLength dv < Spec.required_length f) ->
  exists msgs : list Message,
    Glove.readValue pow dv p = (Normal (DNum (of_Z 0)), msgs) /\
    msgs = (if Spec.supported (Glove.format p)
            then [Spec.length_mismatch] else []) /\
    Glove.formatValue (DNum (of_Z 0)) p =
    Normal (VStr (Spec.zero_text (Spec.decimal_places (Glove.exponent p)))).
Proof.
  intros Hb Hcase.
  assert (Hfmt : Glove.formatValue (DNum (of_Z 0)) p =
                 Normal (VStr (Spec.zero_text
                                 (Spec.decimal_places (Glove.exponent p))))).
  { unfold Glove.formatValue.
    destruct (Z.eqb_spec (Glove.format p) Glove.BLE_FORMAT_BOOLEAN);
      [contradiction |].
    rewrite decimal_places_clamp.
    rewrite (toFixed_zero _ (decimal_places_range _)). reflexivity. }
  destruct Hcase as [Hs | (f & Hf & Hl)].
  - exists []. rewrite Hs. split; [| split; [reflexivity | exact Hfmt]].
    apply readValue_unsupported, Hs.
  - exists [Spec.length_mismatch].
    assert (Hs : Spec.supported (Glove.format p) = true).
    { rewrite Hf. destruct f; reflexivity. }
    rewrite Hs. split; [| split; [reflexivity | exact Hfmt]].
    destruct p as [c e u]. cbn [Glove.format] in Hf. subst c.
    apply readValue_too_short, Hl.
Qed.

Lemma undecodable_value_shows_zero_witness :
  Glove.format Session.float_centi <> Glove.BLE_FORMAT_BOOLEAN /\
  (Spec.supported (Glove.format Session.float_centi) = false \/
   exists f : Spec.Format,
     Glove.format Session.float_centi = Spec.code f /\
     byteLength [x01; x02; x03] < Spec.required_length f) /\
  exists msgs : list Message,
    Glove.readValue Host.exponentiate [x01; x02; x03] Session.float_centi =
      (Normal (DNum (of_Z 0)), msgs) /\
    Glove.formatValue (DNum (of_Z 0)) Session.float_centi =
      Normal (VStr "0.00").
Proof.
  assert (H1 : Glove.format Session.float_centi <> Glove.BLE_FORMAT_BOOLEAN)
    by (vm_compute; discriminate).
  assert (H2 : Spec.supported (Glove.format Session.float_centi) = false \/
               exists f : Spec.Format,
                 Glove.format Session.float_centi = Spec.code f /\
                 byteLength [x01; x02; x03] < Spec.required_length f)
    by (right; exists Spec.Float32; split; [reflexivity | vm_compute; reflexivity]).
  split; [exact H1 |]. split; [exact H2 |].
  destruct (undecodable_value_shows_zero Host.exponentiate [x01; x02; x03]
              Session.float_centi H1 H2) as (msgs & Hr & _ & Hf).
  exists msgs. split; [exact Hr | exact Hf].
Defined.
